(** * Route reconciliation against a shared API gateway

    A shallow embedding of [scripts/sync_routes.py]: the resource tree
    resolver ([ensure_path]), the method/integration reconciler
    ([ensure_method_and_integration]), the permission grantor
    ([add_permission_for_apigw]), the configuration loader ([load_paths])
    and the orchestrator ([main]).

    The script talks to three remote services through boto3 clients.  The
    services are modelled as one [world] record; every client call is a
    state transformer on it that also appends itself to a chronological
    log of calls, so that statements about "which calls were issued" are
    statements about that log.  Python exceptions are the [Raise] results
    of a state-and-error monad; a raised exception keeps the effects that
    preceded it.

    Conventions of the model:
    - a string is the UTF-8 form of a Python [str]; [str.upper] is the
      full uppercase mapping of Unicode, character by character;
    - a resource id is the position of the resource in the listing of the
      tree; the root [/] is part of every tree;
    - the services fail as their API documents for the states of the
      model (unknown resource, method, integration or function; existing
      path, method or statement); throttling, network failures and
      service-side validation of names are outside the model;
    - [print] calls and argument parsing have no counterpart; the
      construction of the three clients of [main] (lines 124-126) is
      [Boto3.client], the STS client of line 56 is present through its
      region only. *)

From stdpp Require Import gmap strings list fin_maps.
From Stdlib Require Import Ascii.

Set Default Proof Using "Type".
Set Warnings "-register-all".

(** ** Python string primitives used by the script *)

Module PyStr.

(** Python truthiness of a [str]: only the empty string is falsy. *)
Definition truthy (s : string) : bool :=
  match s with
  | EmptyString => false
  | String _ _ => true
  end.

(** [s.split(c)] for a one-character separator [c]. *)
Fixpoint split_char (c : ascii) (s : string) : list string :=
  match s with
  | EmptyString => [EmptyString]
  | String a s' =>
      if Ascii.eqb a c then EmptyString :: split_char c s'
      else match split_char c s' with
           | [] => [String a EmptyString]
           | h :: t => String a h :: t
           end
  end.

(** [c.join(l)] with a leading separator before every element, i.e. the
    string the loop of [ensure_path] accumulates in [built_path]. *)
Fixpoint join_slash (l : list string) : string :=
  match l with
  | [] => EmptyString
  | x :: l' => "/" +:+ x +:+ join_slash l'
  end.

(** Scanner shared by [split] and [replace] for a separator of any
    length: [skip] counts the characters of a separator occurrence that
    are still to be dropped, [cur] is the piece being accumulated. *)
Fixpoint split_go (sep : string) (skip : nat) (cur : string) (s : string)
  : list string :=
  match s with
  | EmptyString => [cur]
  | String a s' =>
      match skip with
      | S k => split_go sep k cur s'
      | O =>
          if String.prefix sep s
          then cur :: split_go sep (String.length sep - 1) EmptyString s'
          else split_go sep 0 (cur +:+ String a EmptyString) s'
      end
  end.

(** [s.split(sep)] (left-to-right, non-overlapping occurrences). *)
Definition split (sep s : string) : list string := split_go sep 0 EmptyString s.

(** [new.join(l)]. *)
Fixpoint join (new : string) (l : list string) : string :=
  match l with
  | [] => EmptyString
  | [x] => x
  | x :: l' => x +:+ new +:+ join new l'
  end.

(** [s.replace(old, new)]: every non-overlapping occurrence, left to
    right. *)
Definition replace (old new s : string) : string := join new (split old s).

Definition upper_ascii (a : ascii) : ascii :=
  let n := nat_of_ascii a in
  if (97 <=? n)%nat && (n <=? 122)%nat then ascii_of_nat (n - 32) else a.

(** Strings are the UTF-8 form of Python's [str].  A lead byte announces
    the number of continuation bytes that complete its character. *)
Definition utf8_follow (a : ascii) : nat :=
  let n := nat_of_ascii a in
  if (n <? 192)%nat then 0
  else if (n <? 224)%nat then 1
  else if (n <? 240)%nat then 2
  else if (n <? 248)%nat then 3
  else 0.

Definition utf8_cont (a : ascii) : bool :=
  let n := nat_of_ascii a in (128 <=? n)%nat && (n <? 192)%nat.

(** The characters beyond ASCII that [str.upper] rewrites, each with its
    uppercase form (the full case mapping of Unicode 14.0, as in
    CPython 3.11: one to three characters). *)
Definition upper_table : list (string * string) := [
  ("µ", "Μ"); ("ß", "SS"); ("à", "À"); ("á", "Á");
  ("â", "Â"); ("ã", "Ã"); ("ä", "Ä"); ("å", "Å");
  ("æ", "Æ"); ("ç", "Ç"); ("è", "È"); ("é", "É");
  ("ê", "Ê"); ("ë", "Ë"); ("ì", "Ì"); ("í", "Í");
  ("î", "Î"); ("ï", "Ï"); ("ð", "Ð"); ("ñ", "Ñ");
  ("ò", "Ò"); ("ó", "Ó"); ("ô", "Ô"); ("õ", "Õ");
  ("ö", "Ö"); ("ø", "Ø"); ("ù", "Ù"); ("ú", "Ú");
  ("û", "Û"); ("ü", "Ü"); ("ý", "Ý"); ("þ", "Þ");
  ("ÿ", "Ÿ"); ("ā", "Ā"); ("ă", "Ă"); ("ą", "Ą");
  ("ć", "Ć"); ("ĉ", "Ĉ"); ("ċ", "Ċ"); ("č", "Č");
  ("ď", "Ď"); ("đ", "Đ"); ("ē", "Ē"); ("ĕ", "Ĕ");
  ("ė", "Ė"); ("ę", "Ę"); ("ě", "Ě"); ("ĝ", "Ĝ");
  ("ğ", "Ğ"); ("ġ", "Ġ"); ("ģ", "Ģ"); ("ĥ", "Ĥ");
  ("ħ", "Ħ"); ("ĩ", "Ĩ"); ("ī", "Ī"); ("ĭ", "Ĭ");
  ("į", "Į"); ("ı", "I"); ("ĳ", "Ĳ"); ("ĵ", "Ĵ");
  ("ķ", "Ķ"); ("ĺ", "Ĺ"); ("ļ", "Ļ"); ("ľ", "Ľ");
  ("ŀ", "Ŀ"); ("ł", "Ł"); ("ń", "Ń"); ("ņ", "Ņ");
  ("ň", "Ň"); ("ŉ", "ʼN"); ("ŋ", "Ŋ"); ("ō", "Ō");
  ("ŏ", "Ŏ"); ("ő", "Ő"); ("œ", "Œ"); ("ŕ", "Ŕ");
  ("ŗ", "Ŗ"); ("ř", "Ř"); ("ś", "Ś"); ("ŝ", "Ŝ");
  ("ş", "Ş"); ("š", "Š"); ("ţ", "Ţ"); ("ť", "Ť");
  ("ŧ", "Ŧ"); ("ũ", "Ũ"); ("ū", "Ū"); ("ŭ", "Ŭ");
  ("ů", "Ů"); ("ű", "Ű"); ("ų", "Ų"); ("ŵ", "Ŵ");
  ("ŷ", "Ŷ"); ("ź", "Ź"); ("ż", "Ż"); ("ž", "Ž");
  ("ſ", "S"); ("ƀ", "Ƀ"); ("ƃ", "Ƃ"); ("ƅ", "Ƅ");
  ("ƈ", "Ƈ"); ("ƌ", "Ƌ"); ("ƒ", "Ƒ"); ("ƕ", "Ƕ");
  ("ƙ", "Ƙ"); ("ƚ", "Ƚ"); ("ƞ", "Ƞ"); ("ơ", "Ơ");
  ("ƣ", "Ƣ"); ("ƥ", "Ƥ"); ("ƨ", "Ƨ"); ("ƭ", "Ƭ");
  ("ư", "Ư"); ("ƴ", "Ƴ"); ("ƶ", "Ƶ"); ("ƹ", "Ƹ");
  ("ƽ", "Ƽ"); ("ƿ", "Ƿ"); ("ǅ", "Ǆ"); ("ǆ", "Ǆ");
  ("ǈ", "Ǉ"); ("ǉ", "Ǉ"); ("ǋ", "Ǌ"); ("ǌ", "Ǌ");
  ("ǎ", "Ǎ"); ("ǐ", "Ǐ"); ("ǒ", "Ǒ"); ("ǔ", "Ǔ");
  ("ǖ", "Ǖ"); ("ǘ", "Ǘ"); ("ǚ", "Ǚ"); ("ǜ", "Ǜ");
  ("ǝ", "Ǝ"); ("ǟ", "Ǟ"); ("ǡ", "Ǡ"); ("ǣ", "Ǣ");
  ("ǥ", "Ǥ"); ("ǧ", "Ǧ"); ("ǩ", "Ǩ"); ("ǫ", "Ǫ");
  ("ǭ", "Ǭ"); ("ǯ", "Ǯ"); ("ǰ", "J̌"); ("ǲ", "Ǳ");
  ("ǳ", "Ǳ"); ("ǵ", "Ǵ"); ("ǹ", "Ǹ"); ("ǻ", "Ǻ");
  ("ǽ", "Ǽ"); ("ǿ", "Ǿ"); ("ȁ", "Ȁ"); ("ȃ", "Ȃ");
  ("ȅ", "Ȅ"); ("ȇ", "Ȇ"); ("ȉ", "Ȉ"); ("ȋ", "Ȋ");
  ("ȍ", "Ȍ"); ("ȏ", "Ȏ"); ("ȑ", "Ȑ"); ("ȓ", "Ȓ");
  ("ȕ", "Ȕ"); ("ȗ", "Ȗ"); ("ș", "Ș"); ("ț", "Ț");
  ("ȝ", "Ȝ"); ("ȟ", "Ȟ"); ("ȣ", "Ȣ"); ("ȥ", "Ȥ");
  ("ȧ", "Ȧ"); ("ȩ", "Ȩ"); ("ȫ", "Ȫ"); ("ȭ", "Ȭ");
  ("ȯ", "Ȯ"); ("ȱ", "Ȱ"); ("ȳ", "Ȳ"); ("ȼ", "Ȼ");
  ("ȿ", "Ȿ"); ("ɀ", "Ɀ"); ("ɂ", "Ɂ"); ("ɇ", "Ɇ");
  ("ɉ", "Ɉ"); ("ɋ", "Ɋ"); ("ɍ", "Ɍ"); ("ɏ", "Ɏ");
  ("ɐ", "Ɐ"); ("ɑ", "Ɑ"); ("ɒ", "Ɒ"); ("ɓ", "Ɓ");
  ("ɔ", "Ɔ"); ("ɖ", "Ɖ"); ("ɗ", "Ɗ"); ("ə", "Ə");
  ("ɛ", "Ɛ"); ("ɜ", "Ɜ"); ("ɠ", "Ɠ"); ("ɡ", "Ɡ");
  ("ɣ", "Ɣ"); ("ɥ", "Ɥ"); ("ɦ", "Ɦ"); ("ɨ", "Ɨ");
  ("ɩ", "Ɩ"); ("ɪ", "Ɪ"); ("ɫ", "Ɫ"); ("ɬ", "Ɬ");
  ("ɯ", "Ɯ"); ("ɱ", "Ɱ"); ("ɲ", "Ɲ"); ("ɵ", "Ɵ");
  ("ɽ", "Ɽ"); ("ʀ", "Ʀ"); ("ʂ", "Ʂ"); ("ʃ", "Ʃ");
  ("ʇ", "Ʇ"); ("ʈ", "Ʈ"); ("ʉ", "Ʉ"); ("ʊ", "Ʊ");
  ("ʋ", "Ʋ"); ("ʌ", "Ʌ"); ("ʒ", "Ʒ"); ("ʝ", "Ʝ");
  ("ʞ", "Ʞ"); ("ͅ", "Ι"); ("ͱ", "Ͱ"); ("ͳ", "Ͳ");
  ("ͷ", "Ͷ"); ("ͻ", "Ͻ"); ("ͼ", "Ͼ"); ("ͽ", "Ͽ");
  ("ΐ", "Ϊ́"); ("ά", "Ά"); ("έ", "Έ"); ("ή", "Ή");
  ("ί", "Ί"); ("ΰ", "Ϋ́"); ("α", "Α"); ("β", "Β");
  ("γ", "Γ"); ("δ", "Δ"); ("ε", "Ε"); ("ζ", "Ζ");
  ("η", "Η"); ("θ", "Θ"); ("ι", "Ι"); ("κ", "Κ");
  ("λ", "Λ"); ("μ", "Μ"); ("ν", "Ν"); ("ξ", "Ξ");
  ("ο", "Ο"); ("π", "Π"); ("ρ", "Ρ"); ("ς", "Σ");
  ("σ", "Σ"); ("τ", "Τ"); ("υ", "Υ"); ("φ", "Φ");
  ("χ", "Χ"); ("ψ", "Ψ"); ("ω", "Ω"); ("ϊ", "Ϊ");
  ("ϋ", "Ϋ"); ("ό", "Ό"); ("ύ", "Ύ"); ("ώ", "Ώ");
  ("ϐ", "Β"); ("ϑ", "Θ"); ("ϕ", "Φ"); ("ϖ", "Π");
  ("ϗ", "Ϗ"); ("ϙ", "Ϙ"); ("ϛ", "Ϛ"); ("ϝ", "Ϝ");
  ("ϟ", "Ϟ"); ("ϡ", "Ϡ"); ("ϣ", "Ϣ"); ("ϥ", "Ϥ");
  ("ϧ", "Ϧ"); ("ϩ", "Ϩ"); ("ϫ", "Ϫ"); ("ϭ", "Ϭ");
  ("ϯ", "Ϯ"); ("ϰ", "Κ"); ("ϱ", "Ρ"); ("ϲ", "Ϲ");
  ("ϳ", "Ϳ"); ("ϵ", "Ε"); ("ϸ", "Ϸ"); ("ϻ", "Ϻ");
  ("а", "А"); ("б", "Б"); ("в", "В"); ("г", "Г");
  ("д", "Д"); ("е", "Е"); ("ж", "Ж"); ("з", "З");
  ("и", "И"); ("й", "Й"); ("к", "К"); ("л", "Л");
  ("м", "М"); ("н", "Н"); ("о", "О"); ("п", "П");
  ("р", "Р"); ("с", "С"); ("т", "Т"); ("у", "У");
  ("ф", "Ф"); ("х", "Х"); ("ц", "Ц"); ("ч", "Ч");
  ("ш", "Ш"); ("щ", "Щ"); ("ъ", "Ъ"); ("ы", "Ы");
  ("ь", "Ь"); ("э", "Э"); ("ю", "Ю"); ("я", "Я");
  ("ѐ", "Ѐ"); ("ё", "Ё"); ("ђ", "Ђ"); ("ѓ", "Ѓ");
  ("є", "Є"); ("ѕ", "Ѕ"); ("і", "І"); ("ї", "Ї");
  ("ј", "Ј"); ("љ", "Љ"); ("њ", "Њ"); ("ћ", "Ћ");
  ("ќ", "Ќ"); ("ѝ", "Ѝ"); ("ў", "Ў"); ("џ", "Џ");
  ("ѡ", "Ѡ"); ("ѣ", "Ѣ"); ("ѥ", "Ѥ"); ("ѧ", "Ѧ");
  ("ѩ", "Ѩ"); ("ѫ", "Ѫ"); ("ѭ", "Ѭ"); ("ѯ", "Ѯ");
  ("ѱ", "Ѱ"); ("ѳ", "Ѳ"); ("ѵ", "Ѵ"); ("ѷ", "Ѷ");
  ("ѹ", "Ѹ"); ("ѻ", "Ѻ"); ("ѽ", "Ѽ"); ("ѿ", "Ѿ");
  ("ҁ", "Ҁ"); ("ҋ", "Ҋ"); ("ҍ", "Ҍ"); ("ҏ", "Ҏ");
  ("ґ", "Ґ"); ("ғ", "Ғ"); ("ҕ", "Ҕ"); ("җ", "Җ");
  ("ҙ", "Ҙ"); ("қ", "Қ"); ("ҝ", "Ҝ"); ("ҟ", "Ҟ");
  ("ҡ", "Ҡ"); ("ң", "Ң"); ("ҥ", "Ҥ"); ("ҧ", "Ҧ");
  ("ҩ", "Ҩ"); ("ҫ", "Ҫ"); ("ҭ", "Ҭ"); ("ү", "Ү");
  ("ұ", "Ұ"); ("ҳ", "Ҳ"); ("ҵ", "Ҵ"); ("ҷ", "Ҷ");
  ("ҹ", "Ҹ"); ("һ", "Һ"); ("ҽ", "Ҽ"); ("ҿ", "Ҿ");
  ("ӂ", "Ӂ"); ("ӄ", "Ӄ"); ("ӆ", "Ӆ"); ("ӈ", "Ӈ");
  ("ӊ", "Ӊ"); ("ӌ", "Ӌ"); ("ӎ", "Ӎ"); ("ӏ", "Ӏ");
  ("ӑ", "Ӑ"); ("ӓ", "Ӓ"); ("ӕ", "Ӕ"); ("ӗ", "Ӗ");
  ("ә", "Ә"); ("ӛ", "Ӛ"); ("ӝ", "Ӝ"); ("ӟ", "Ӟ");
  ("ӡ", "Ӡ"); ("ӣ", "Ӣ"); ("ӥ", "Ӥ"); ("ӧ", "Ӧ");
  ("ө", "Ө"); ("ӫ", "Ӫ"); ("ӭ", "Ӭ"); ("ӯ", "Ӯ");
  ("ӱ", "Ӱ"); ("ӳ", "Ӳ"); ("ӵ", "Ӵ"); ("ӷ", "Ӷ");
  ("ӹ", "Ӹ"); ("ӻ", "Ӻ"); ("ӽ", "Ӽ"); ("ӿ", "Ӿ");
  ("ԁ", "Ԁ"); ("ԃ", "Ԃ"); ("ԅ", "Ԅ"); ("ԇ", "Ԇ");
  ("ԉ", "Ԉ"); ("ԋ", "Ԋ"); ("ԍ", "Ԍ"); ("ԏ", "Ԏ");
  ("ԑ", "Ԑ"); ("ԓ", "Ԓ"); ("ԕ", "Ԕ"); ("ԗ", "Ԗ");
  ("ԙ", "Ԙ"); ("ԛ", "Ԛ"); ("ԝ", "Ԝ"); ("ԟ", "Ԟ");
  ("ԡ", "Ԡ"); ("ԣ", "Ԣ"); ("ԥ", "Ԥ"); ("ԧ", "Ԧ");
  ("ԩ", "Ԩ"); ("ԫ", "Ԫ"); ("ԭ", "Ԭ"); ("ԯ", "Ԯ");
  ("ա", "Ա"); ("բ", "Բ"); ("գ", "Գ"); ("դ", "Դ");
  ("ե", "Ե"); ("զ", "Զ"); ("է", "Է"); ("ը", "Ը");
  ("թ", "Թ"); ("ժ", "Ժ"); ("ի", "Ի"); ("լ", "Լ");
  ("խ", "Խ"); ("ծ", "Ծ"); ("կ", "Կ"); ("հ", "Հ");
  ("ձ", "Ձ"); ("ղ", "Ղ"); ("ճ", "Ճ"); ("մ", "Մ");
  ("յ", "Յ"); ("ն", "Ն"); ("շ", "Շ"); ("ո", "Ո");
  ("չ", "Չ"); ("պ", "Պ"); ("ջ", "Ջ"); ("ռ", "Ռ");
  ("ս", "Ս"); ("վ", "Վ"); ("տ", "Տ"); ("ր", "Ր");
  ("ց", "Ց"); ("ւ", "Ւ"); ("փ", "Փ"); ("ք", "Ք");
  ("օ", "Օ"); ("ֆ", "Ֆ"); ("և", "ԵՒ"); ("ა", "Ა");
  ("ბ", "Ბ"); ("გ", "Გ"); ("დ", "Დ"); ("ე", "Ე");
  ("ვ", "Ვ"); ("ზ", "Ზ"); ("თ", "Თ"); ("ი", "Ი");
  ("კ", "Კ"); ("ლ", "Ლ"); ("მ", "Მ"); ("ნ", "Ნ");
  ("ო", "Ო"); ("პ", "Პ"); ("ჟ", "Ჟ"); ("რ", "Რ");
  ("ს", "Ს"); ("ტ", "Ტ"); ("უ", "Უ"); ("ფ", "Ფ");
  ("ქ", "Ქ"); ("ღ", "Ღ"); ("ყ", "Ყ"); ("შ", "Შ");
  ("ჩ", "Ჩ"); ("ც", "Ც"); ("ძ", "Ძ"); ("წ", "Წ");
  ("ჭ", "Ჭ"); ("ხ", "Ხ"); ("ჯ", "Ჯ"); ("ჰ", "Ჰ");
  ("ჱ", "Ჱ"); ("ჲ", "Ჲ"); ("ჳ", "Ჳ"); ("ჴ", "Ჴ");
  ("ჵ", "Ჵ"); ("ჶ", "Ჶ"); ("ჷ", "Ჷ"); ("ჸ", "Ჸ");
  ("ჹ", "Ჹ"); ("ჺ", "Ჺ"); ("ჽ", "Ჽ"); ("ჾ", "Ჾ");
  ("ჿ", "Ჿ"); ("ᏸ", "Ᏸ"); ("ᏹ", "Ᏹ"); ("ᏺ", "Ᏺ");
  ("ᏻ", "Ᏻ"); ("ᏼ", "Ᏼ"); ("ᏽ", "Ᏽ"); ("ᲀ", "В");
  ("ᲁ", "Д"); ("ᲂ", "О"); ("ᲃ", "С"); ("ᲄ", "Т");
  ("ᲅ", "Т"); ("ᲆ", "Ъ"); ("ᲇ", "Ѣ"); ("ᲈ", "Ꙋ");
  ("ᵹ", "Ᵹ"); ("ᵽ", "Ᵽ"); ("ᶎ", "Ᶎ"); ("ḁ", "Ḁ");
  ("ḃ", "Ḃ"); ("ḅ", "Ḅ"); ("ḇ", "Ḇ"); ("ḉ", "Ḉ");
  ("ḋ", "Ḋ"); ("ḍ", "Ḍ"); ("ḏ", "Ḏ"); ("ḑ", "Ḑ");
  ("ḓ", "Ḓ"); ("ḕ", "Ḕ"); ("ḗ", "Ḗ"); ("ḙ", "Ḙ");
  ("ḛ", "Ḛ"); ("ḝ", "Ḝ"); ("ḟ", "Ḟ"); ("ḡ", "Ḡ");
  ("ḣ", "Ḣ"); ("ḥ", "Ḥ"); ("ḧ", "Ḧ"); ("ḩ", "Ḩ");
  ("ḫ", "Ḫ"); ("ḭ", "Ḭ"); ("ḯ", "Ḯ"); ("ḱ", "Ḱ");
  ("ḳ", "Ḳ"); ("ḵ", "Ḵ"); ("ḷ", "Ḷ"); ("ḹ", "Ḹ");
  ("ḻ", "Ḻ"); ("ḽ", "Ḽ"); ("ḿ", "Ḿ"); ("ṁ", "Ṁ");
  ("ṃ", "Ṃ"); ("ṅ", "Ṅ"); ("ṇ", "Ṇ"); ("ṉ", "Ṉ");
  ("ṋ", "Ṋ"); ("ṍ", "Ṍ"); ("ṏ", "Ṏ"); ("ṑ", "Ṑ");
  ("ṓ", "Ṓ"); ("ṕ", "Ṕ"); ("ṗ", "Ṗ"); ("ṙ", "Ṙ");
  ("ṛ", "Ṛ"); ("ṝ", "Ṝ"); ("ṟ", "Ṟ"); ("ṡ", "Ṡ");
  ("ṣ", "Ṣ"); ("ṥ", "Ṥ"); ("ṧ", "Ṧ"); ("ṩ", "Ṩ");
  ("ṫ", "Ṫ"); ("ṭ", "Ṭ"); ("ṯ", "Ṯ"); ("ṱ", "Ṱ");
  ("ṳ", "Ṳ"); ("ṵ", "Ṵ"); ("ṷ", "Ṷ"); ("ṹ", "Ṹ");
  ("ṻ", "Ṻ"); ("ṽ", "Ṽ"); ("ṿ", "Ṿ"); ("ẁ", "Ẁ");
  ("ẃ", "Ẃ"); ("ẅ", "Ẅ"); ("ẇ", "Ẇ"); ("ẉ", "Ẉ");
  ("ẋ", "Ẋ"); ("ẍ", "Ẍ"); ("ẏ", "Ẏ"); ("ẑ", "Ẑ");
  ("ẓ", "Ẓ"); ("ẕ", "Ẕ"); ("ẖ", "H̱"); ("ẗ", "T̈");
  ("ẘ", "W̊"); ("ẙ", "Y̊"); ("ẚ", "Aʾ"); ("ẛ", "Ṡ");
  ("ạ", "Ạ"); ("ả", "Ả"); ("ấ", "Ấ"); ("ầ", "Ầ");
  ("ẩ", "Ẩ"); ("ẫ", "Ẫ"); ("ậ", "Ậ"); ("ắ", "Ắ");
  ("ằ", "Ằ"); ("ẳ", "Ẳ"); ("ẵ", "Ẵ"); ("ặ", "Ặ");
  ("ẹ", "Ẹ"); ("ẻ", "Ẻ"); ("ẽ", "Ẽ"); ("ế", "Ế");
  ("ề", "Ề"); ("ể", "Ể"); ("ễ", "Ễ"); ("ệ", "Ệ");
  ("ỉ", "Ỉ"); ("ị", "Ị"); ("ọ", "Ọ"); ("ỏ", "Ỏ");
  ("ố", "Ố"); ("ồ", "Ồ"); ("ổ", "Ổ"); ("ỗ", "Ỗ");
  ("ộ", "Ộ"); ("ớ", "Ớ"); ("ờ", "Ờ"); ("ở", "Ở");
  ("ỡ", "Ỡ"); ("ợ", "Ợ"); ("ụ", "Ụ"); ("ủ", "Ủ");
  ("ứ", "Ứ"); ("ừ", "Ừ"); ("ử", "Ử"); ("ữ", "Ữ");
  ("ự", "Ự"); ("ỳ", "Ỳ"); ("ỵ", "Ỵ"); ("ỷ", "Ỷ");
  ("ỹ", "Ỹ"); ("ỻ", "Ỻ"); ("ỽ", "Ỽ"); ("ỿ", "Ỿ");
  ("ἀ", "Ἀ"); ("ἁ", "Ἁ"); ("ἂ", "Ἂ"); ("ἃ", "Ἃ");
  ("ἄ", "Ἄ"); ("ἅ", "Ἅ"); ("ἆ", "Ἆ"); ("ἇ", "Ἇ");
  ("ἐ", "Ἐ"); ("ἑ", "Ἑ"); ("ἒ", "Ἒ"); ("ἓ", "Ἓ");
  ("ἔ", "Ἔ"); ("ἕ", "Ἕ"); ("ἠ", "Ἠ"); ("ἡ", "Ἡ");
  ("ἢ", "Ἢ"); ("ἣ", "Ἣ"); ("ἤ", "Ἤ"); ("ἥ", "Ἥ");
  ("ἦ", "Ἦ"); ("ἧ", "Ἧ"); ("ἰ", "Ἰ"); ("ἱ", "Ἱ");
  ("ἲ", "Ἲ"); ("ἳ", "Ἳ"); ("ἴ", "Ἴ"); ("ἵ", "Ἵ");
  ("ἶ", "Ἶ"); ("ἷ", "Ἷ"); ("ὀ", "Ὀ"); ("ὁ", "Ὁ");
  ("ὂ", "Ὂ"); ("ὃ", "Ὃ"); ("ὄ", "Ὄ"); ("ὅ", "Ὅ");
  ("ὐ", "Υ̓"); ("ὑ", "Ὑ"); ("ὒ", "Υ̓̀"); ("ὓ", "Ὓ");
  ("ὔ", "Υ̓́"); ("ὕ", "Ὕ"); ("ὖ", "Υ̓͂"); ("ὗ", "Ὗ");
  ("ὠ", "Ὠ"); ("ὡ", "Ὡ"); ("ὢ", "Ὢ"); ("ὣ", "Ὣ");
  ("ὤ", "Ὤ"); ("ὥ", "Ὥ"); ("ὦ", "Ὦ"); ("ὧ", "Ὧ");
  ("ὰ", "Ὰ"); ("ά", "Ά"); ("ὲ", "Ὲ"); ("έ", "Έ");
  ("ὴ", "Ὴ"); ("ή", "Ή"); ("ὶ", "Ὶ"); ("ί", "Ί");
  ("ὸ", "Ὸ"); ("ό", "Ό"); ("ὺ", "Ὺ"); ("ύ", "Ύ");
  ("ὼ", "Ὼ"); ("ώ", "Ώ"); ("ᾀ", "ἈΙ"); ("ᾁ", "ἉΙ");
  ("ᾂ", "ἊΙ"); ("ᾃ", "ἋΙ"); ("ᾄ", "ἌΙ"); ("ᾅ", "ἍΙ");
  ("ᾆ", "ἎΙ"); ("ᾇ", "ἏΙ"); ("ᾈ", "ἈΙ"); ("ᾉ", "ἉΙ");
  ("ᾊ", "ἊΙ"); ("ᾋ", "ἋΙ"); ("ᾌ", "ἌΙ"); ("ᾍ", "ἍΙ");
  ("ᾎ", "ἎΙ"); ("ᾏ", "ἏΙ"); ("ᾐ", "ἨΙ"); ("ᾑ", "ἩΙ");
  ("ᾒ", "ἪΙ"); ("ᾓ", "ἫΙ"); ("ᾔ", "ἬΙ"); ("ᾕ", "ἭΙ");
  ("ᾖ", "ἮΙ"); ("ᾗ", "ἯΙ"); ("ᾘ", "ἨΙ"); ("ᾙ", "ἩΙ");
  ("ᾚ", "ἪΙ"); ("ᾛ", "ἫΙ"); ("ᾜ", "ἬΙ"); ("ᾝ", "ἭΙ");
  ("ᾞ", "ἮΙ"); ("ᾟ", "ἯΙ"); ("ᾠ", "ὨΙ"); ("ᾡ", "ὩΙ");
  ("ᾢ", "ὪΙ"); ("ᾣ", "ὫΙ"); ("ᾤ", "ὬΙ"); ("ᾥ", "ὭΙ");
  ("ᾦ", "ὮΙ"); ("ᾧ", "ὯΙ"); ("ᾨ", "ὨΙ"); ("ᾩ", "ὩΙ");
  ("ᾪ", "ὪΙ"); ("ᾫ", "ὫΙ"); ("ᾬ", "ὬΙ"); ("ᾭ", "ὭΙ");
  ("ᾮ", "ὮΙ"); ("ᾯ", "ὯΙ"); ("ᾰ", "Ᾰ"); ("ᾱ", "Ᾱ");
  ("ᾲ", "ᾺΙ"); ("ᾳ", "ΑΙ"); ("ᾴ", "ΆΙ"); ("ᾶ", "Α͂");
  ("ᾷ", "Α͂Ι"); ("ᾼ", "ΑΙ"); ("ι", "Ι"); ("ῂ", "ῊΙ");
  ("ῃ", "ΗΙ"); ("ῄ", "ΉΙ"); ("ῆ", "Η͂"); ("ῇ", "Η͂Ι");
  ("ῌ", "ΗΙ"); ("ῐ", "Ῐ"); ("ῑ", "Ῑ"); ("ῒ", "Ϊ̀");
  ("ΐ", "Ϊ́"); ("ῖ", "Ι͂"); ("ῗ", "Ϊ͂"); ("ῠ", "Ῠ");
  ("ῡ", "Ῡ"); ("ῢ", "Ϋ̀"); ("ΰ", "Ϋ́"); ("ῤ", "Ρ̓");
  ("ῥ", "Ῥ"); ("ῦ", "Υ͂"); ("ῧ", "Ϋ͂"); ("ῲ", "ῺΙ");
  ("ῳ", "ΩΙ"); ("ῴ", "ΏΙ"); ("ῶ", "Ω͂"); ("ῷ", "Ω͂Ι");
  ("ῼ", "ΩΙ"); ("ⅎ", "Ⅎ"); ("ⅰ", "Ⅰ"); ("ⅱ", "Ⅱ");
  ("ⅲ", "Ⅲ"); ("ⅳ", "Ⅳ"); ("ⅴ", "Ⅴ"); ("ⅵ", "Ⅵ");
  ("ⅶ", "Ⅶ"); ("ⅷ", "Ⅷ"); ("ⅸ", "Ⅸ"); ("ⅹ", "Ⅹ");
  ("ⅺ", "Ⅺ"); ("ⅻ", "Ⅻ"); ("ⅼ", "Ⅼ"); ("ⅽ", "Ⅽ");
  ("ⅾ", "Ⅾ"); ("ⅿ", "Ⅿ"); ("ↄ", "Ↄ"); ("ⓐ", "Ⓐ");
  ("ⓑ", "Ⓑ"); ("ⓒ", "Ⓒ"); ("ⓓ", "Ⓓ"); ("ⓔ", "Ⓔ");
  ("ⓕ", "Ⓕ"); ("ⓖ", "Ⓖ"); ("ⓗ", "Ⓗ"); ("ⓘ", "Ⓘ");
  ("ⓙ", "Ⓙ"); ("ⓚ", "Ⓚ"); ("ⓛ", "Ⓛ"); ("ⓜ", "Ⓜ");
  ("ⓝ", "Ⓝ"); ("ⓞ", "Ⓞ"); ("ⓟ", "Ⓟ"); ("ⓠ", "Ⓠ");
  ("ⓡ", "Ⓡ"); ("ⓢ", "Ⓢ"); ("ⓣ", "Ⓣ"); ("ⓤ", "Ⓤ");
  ("ⓥ", "Ⓥ"); ("ⓦ", "Ⓦ"); ("ⓧ", "Ⓧ"); ("ⓨ", "Ⓨ");
  ("ⓩ", "Ⓩ"); ("ⰰ", "Ⰰ"); ("ⰱ", "Ⰱ"); ("ⰲ", "Ⰲ");
  ("ⰳ", "Ⰳ"); ("ⰴ", "Ⰴ"); ("ⰵ", "Ⰵ"); ("ⰶ", "Ⰶ");
  ("ⰷ", "Ⰷ"); ("ⰸ", "Ⰸ"); ("ⰹ", "Ⰹ"); ("ⰺ", "Ⰺ");
  ("ⰻ", "Ⰻ"); ("ⰼ", "Ⰼ"); ("ⰽ", "Ⰽ"); ("ⰾ", "Ⰾ");
  ("ⰿ", "Ⰿ"); ("ⱀ", "Ⱀ"); ("ⱁ", "Ⱁ"); ("ⱂ", "Ⱂ");
  ("ⱃ", "Ⱃ"); ("ⱄ", "Ⱄ"); ("ⱅ", "Ⱅ"); ("ⱆ", "Ⱆ");
  ("ⱇ", "Ⱇ"); ("ⱈ", "Ⱈ"); ("ⱉ", "Ⱉ"); ("ⱊ", "Ⱊ");
  ("ⱋ", "Ⱋ"); ("ⱌ", "Ⱌ"); ("ⱍ", "Ⱍ"); ("ⱎ", "Ⱎ");
  ("ⱏ", "Ⱏ"); ("ⱐ", "Ⱐ"); ("ⱑ", "Ⱑ"); ("ⱒ", "Ⱒ");
  ("ⱓ", "Ⱓ"); ("ⱔ", "Ⱔ"); ("ⱕ", "Ⱕ"); ("ⱖ", "Ⱖ");
  ("ⱗ", "Ⱗ"); ("ⱘ", "Ⱘ"); ("ⱙ", "Ⱙ"); ("ⱚ", "Ⱚ");
  ("ⱛ", "Ⱛ"); ("ⱜ", "Ⱜ"); ("ⱝ", "Ⱝ"); ("ⱞ", "Ⱞ");
  ("ⱟ", "Ⱟ"); ("ⱡ", "Ⱡ"); ("ⱥ", "Ⱥ"); ("ⱦ", "Ⱦ");
  ("ⱨ", "Ⱨ"); ("ⱪ", "Ⱪ"); ("ⱬ", "Ⱬ"); ("ⱳ", "Ⱳ");
  ("ⱶ", "Ⱶ"); ("ⲁ", "Ⲁ"); ("ⲃ", "Ⲃ"); ("ⲅ", "Ⲅ");
  ("ⲇ", "Ⲇ"); ("ⲉ", "Ⲉ"); ("ⲋ", "Ⲋ"); ("ⲍ", "Ⲍ");
  ("ⲏ", "Ⲏ"); ("ⲑ", "Ⲑ"); ("ⲓ", "Ⲓ"); ("ⲕ", "Ⲕ");
  ("ⲗ", "Ⲗ"); ("ⲙ", "Ⲙ"); ("ⲛ", "Ⲛ"); ("ⲝ", "Ⲝ");
  ("ⲟ", "Ⲟ"); ("ⲡ", "Ⲡ"); ("ⲣ", "Ⲣ"); ("ⲥ", "Ⲥ");
  ("ⲧ", "Ⲧ"); ("ⲩ", "Ⲩ"); ("ⲫ", "Ⲫ"); ("ⲭ", "Ⲭ");
  ("ⲯ", "Ⲯ"); ("ⲱ", "Ⲱ"); ("ⲳ", "Ⲳ"); ("ⲵ", "Ⲵ");
  ("ⲷ", "Ⲷ"); ("ⲹ", "Ⲹ"); ("ⲻ", "Ⲻ"); ("ⲽ", "Ⲽ");
  ("ⲿ", "Ⲿ"); ("ⳁ", "Ⳁ"); ("ⳃ", "Ⳃ"); ("ⳅ", "Ⳅ");
  ("ⳇ", "Ⳇ"); ("ⳉ", "Ⳉ"); ("ⳋ", "Ⳋ"); ("ⳍ", "Ⳍ");
  ("ⳏ", "Ⳏ"); ("ⳑ", "Ⳑ"); ("ⳓ", "Ⳓ"); ("ⳕ", "Ⳕ");
  ("ⳗ", "Ⳗ"); ("ⳙ", "Ⳙ"); ("ⳛ", "Ⳛ"); ("ⳝ", "Ⳝ");
  ("ⳟ", "Ⳟ"); ("ⳡ", "Ⳡ"); ("ⳣ", "Ⳣ"); ("ⳬ", "Ⳬ");
  ("ⳮ", "Ⳮ"); ("ⳳ", "Ⳳ"); ("ⴀ", "Ⴀ"); ("ⴁ", "Ⴁ");
  ("ⴂ", "Ⴂ"); ("ⴃ", "Ⴃ"); ("ⴄ", "Ⴄ"); ("ⴅ", "Ⴅ");
  ("ⴆ", "Ⴆ"); ("ⴇ", "Ⴇ"); ("ⴈ", "Ⴈ"); ("ⴉ", "Ⴉ");
  ("ⴊ", "Ⴊ"); ("ⴋ", "Ⴋ"); ("ⴌ", "Ⴌ"); ("ⴍ", "Ⴍ");
  ("ⴎ", "Ⴎ"); ("ⴏ", "Ⴏ"); ("ⴐ", "Ⴐ"); ("ⴑ", "Ⴑ");
  ("ⴒ", "Ⴒ"); ("ⴓ", "Ⴓ"); ("ⴔ", "Ⴔ"); ("ⴕ", "Ⴕ");
  ("ⴖ", "Ⴖ"); ("ⴗ", "Ⴗ"); ("ⴘ", "Ⴘ"); ("ⴙ", "Ⴙ");
  ("ⴚ", "Ⴚ"); ("ⴛ", "Ⴛ"); ("ⴜ", "Ⴜ"); ("ⴝ", "Ⴝ");
  ("ⴞ", "Ⴞ"); ("ⴟ", "Ⴟ"); ("ⴠ", "Ⴠ"); ("ⴡ", "Ⴡ");
  ("ⴢ", "Ⴢ"); ("ⴣ", "Ⴣ"); ("ⴤ", "Ⴤ"); ("ⴥ", "Ⴥ");
  ("ⴧ", "Ⴧ"); ("ⴭ", "Ⴭ"); ("ꙁ", "Ꙁ"); ("ꙃ", "Ꙃ");
  ("ꙅ", "Ꙅ"); ("ꙇ", "Ꙇ"); ("ꙉ", "Ꙉ"); ("ꙋ", "Ꙋ");
  ("ꙍ", "Ꙍ"); ("ꙏ", "Ꙏ"); ("ꙑ", "Ꙑ"); ("ꙓ", "Ꙓ");
  ("ꙕ", "Ꙕ"); ("ꙗ", "Ꙗ"); ("ꙙ", "Ꙙ"); ("ꙛ", "Ꙛ");
  ("ꙝ", "Ꙝ"); ("ꙟ", "Ꙟ"); ("ꙡ", "Ꙡ"); ("ꙣ", "Ꙣ");
  ("ꙥ", "Ꙥ"); ("ꙧ", "Ꙧ"); ("ꙩ", "Ꙩ"); ("ꙫ", "Ꙫ");
  ("ꙭ", "Ꙭ"); ("ꚁ", "Ꚁ"); ("ꚃ", "Ꚃ"); ("ꚅ", "Ꚅ");
  ("ꚇ", "Ꚇ"); ("ꚉ", "Ꚉ"); ("ꚋ", "Ꚋ"); ("ꚍ", "Ꚍ");
  ("ꚏ", "Ꚏ"); ("ꚑ", "Ꚑ"); ("ꚓ", "Ꚓ"); ("ꚕ", "Ꚕ");
  ("ꚗ", "Ꚗ"); ("ꚙ", "Ꚙ"); ("ꚛ", "Ꚛ"); ("ꜣ", "Ꜣ");
  ("ꜥ", "Ꜥ"); ("ꜧ", "Ꜧ"); ("ꜩ", "Ꜩ"); ("ꜫ", "Ꜫ");
  ("ꜭ", "Ꜭ"); ("ꜯ", "Ꜯ"); ("ꜳ", "Ꜳ"); ("ꜵ", "Ꜵ");
  ("ꜷ", "Ꜷ"); ("ꜹ", "Ꜹ"); ("ꜻ", "Ꜻ"); ("ꜽ", "Ꜽ");
  ("ꜿ", "Ꜿ"); ("ꝁ", "Ꝁ"); ("ꝃ", "Ꝃ"); ("ꝅ", "Ꝅ");
  ("ꝇ", "Ꝇ"); ("ꝉ", "Ꝉ"); ("ꝋ", "Ꝋ"); ("ꝍ", "Ꝍ");
  ("ꝏ", "Ꝏ"); ("ꝑ", "Ꝑ"); ("ꝓ", "Ꝓ"); ("ꝕ", "Ꝕ");
  ("ꝗ", "Ꝗ"); ("ꝙ", "Ꝙ"); ("ꝛ", "Ꝛ"); ("ꝝ", "Ꝝ");
  ("ꝟ", "Ꝟ"); ("ꝡ", "Ꝡ"); ("ꝣ", "Ꝣ"); ("ꝥ", "Ꝥ");
  ("ꝧ", "Ꝧ"); ("ꝩ", "Ꝩ"); ("ꝫ", "Ꝫ"); ("ꝭ", "Ꝭ");
  ("ꝯ", "Ꝯ"); ("ꝺ", "Ꝺ"); ("ꝼ", "Ꝼ"); ("ꝿ", "Ꝿ");
  ("ꞁ", "Ꞁ"); ("ꞃ", "Ꞃ"); ("ꞅ", "Ꞅ"); ("ꞇ", "Ꞇ");
  ("ꞌ", "Ꞌ"); ("ꞑ", "Ꞑ"); ("ꞓ", "Ꞓ"); ("ꞔ", "Ꞔ");
  ("ꞗ", "Ꞗ"); ("ꞙ", "Ꞙ"); ("ꞛ", "Ꞛ"); ("ꞝ", "Ꞝ");
  ("ꞟ", "Ꞟ"); ("ꞡ", "Ꞡ"); ("ꞣ", "Ꞣ"); ("ꞥ", "Ꞥ");
  ("ꞧ", "Ꞧ"); ("ꞩ", "Ꞩ"); ("ꞵ", "Ꞵ"); ("ꞷ", "Ꞷ");
  ("ꞹ", "Ꞹ"); ("ꞻ", "Ꞻ"); ("ꞽ", "Ꞽ"); ("ꞿ", "Ꞿ");
  ("ꟁ", "Ꟁ"); ("ꟃ", "Ꟃ"); ("ꟈ", "Ꟈ"); ("ꟊ", "Ꟊ");
  ("ꟑ", "Ꟑ"); ("ꟗ", "Ꟗ"); ("ꟙ", "Ꟙ"); ("ꟶ", "Ꟶ");
  ("ꭓ", "Ꭓ"); ("ꭰ", "Ꭰ"); ("ꭱ", "Ꭱ"); ("ꭲ", "Ꭲ");
  ("ꭳ", "Ꭳ"); ("ꭴ", "Ꭴ"); ("ꭵ", "Ꭵ"); ("ꭶ", "Ꭶ");
  ("ꭷ", "Ꭷ"); ("ꭸ", "Ꭸ"); ("ꭹ", "Ꭹ"); ("ꭺ", "Ꭺ");
  ("ꭻ", "Ꭻ"); ("ꭼ", "Ꭼ"); ("ꭽ", "Ꭽ"); ("ꭾ", "Ꭾ");
  ("ꭿ", "Ꭿ"); ("ꮀ", "Ꮀ"); ("ꮁ", "Ꮁ"); ("ꮂ", "Ꮂ");
  ("ꮃ", "Ꮃ"); ("ꮄ", "Ꮄ"); ("ꮅ", "Ꮅ"); ("ꮆ", "Ꮆ");
  ("ꮇ", "Ꮇ"); ("ꮈ", "Ꮈ"); ("ꮉ", "Ꮉ"); ("ꮊ", "Ꮊ");
  ("ꮋ", "Ꮋ"); ("ꮌ", "Ꮌ"); ("ꮍ", "Ꮍ"); ("ꮎ", "Ꮎ");
  ("ꮏ", "Ꮏ"); ("ꮐ", "Ꮐ"); ("ꮑ", "Ꮑ"); ("ꮒ", "Ꮒ");
  ("ꮓ", "Ꮓ"); ("ꮔ", "Ꮔ"); ("ꮕ", "Ꮕ"); ("ꮖ", "Ꮖ");
  ("ꮗ", "Ꮗ"); ("ꮘ", "Ꮘ"); ("ꮙ", "Ꮙ"); ("ꮚ", "Ꮚ");
  ("ꮛ", "Ꮛ"); ("ꮜ", "Ꮜ"); ("ꮝ", "Ꮝ"); ("ꮞ", "Ꮞ");
  ("ꮟ", "Ꮟ"); ("ꮠ", "Ꮠ"); ("ꮡ", "Ꮡ"); ("ꮢ", "Ꮢ");
  ("ꮣ", "Ꮣ"); ("ꮤ", "Ꮤ"); ("ꮥ", "Ꮥ"); ("ꮦ", "Ꮦ");
  ("ꮧ", "Ꮧ"); ("ꮨ", "Ꮨ"); ("ꮩ", "Ꮩ"); ("ꮪ", "Ꮪ");
  ("ꮫ", "Ꮫ"); ("ꮬ", "Ꮬ"); ("ꮭ", "Ꮭ"); ("ꮮ", "Ꮮ");
  ("ꮯ", "Ꮯ"); ("ꮰ", "Ꮰ"); ("ꮱ", "Ꮱ"); ("ꮲ", "Ꮲ");
  ("ꮳ", "Ꮳ"); ("ꮴ", "Ꮴ"); ("ꮵ", "Ꮵ"); ("ꮶ", "Ꮶ");
  ("ꮷ", "Ꮷ"); ("ꮸ", "Ꮸ"); ("ꮹ", "Ꮹ"); ("ꮺ", "Ꮺ");
  ("ꮻ", "Ꮻ"); ("ꮼ", "Ꮼ"); ("ꮽ", "Ꮽ"); ("ꮾ", "Ꮾ");
  ("ꮿ", "Ꮿ"); ("ﬀ", "FF"); ("ﬁ", "FI"); ("ﬂ", "FL");
  ("ﬃ", "FFI"); ("ﬄ", "FFL"); ("ﬅ", "ST"); ("ﬆ", "ST");
  ("ﬓ", "ՄՆ"); ("ﬔ", "ՄԵ"); ("ﬕ", "ՄԻ"); ("ﬖ", "ՎՆ");
  ("ﬗ", "ՄԽ"); ("ａ", "Ａ"); ("ｂ", "Ｂ"); ("ｃ", "Ｃ");
  ("ｄ", "Ｄ"); ("ｅ", "Ｅ"); ("ｆ", "Ｆ"); ("ｇ", "Ｇ");
  ("ｈ", "Ｈ"); ("ｉ", "Ｉ"); ("ｊ", "Ｊ"); ("ｋ", "Ｋ");
  ("ｌ", "Ｌ"); ("ｍ", "Ｍ"); ("ｎ", "Ｎ"); ("ｏ", "Ｏ");
  ("ｐ", "Ｐ"); ("ｑ", "Ｑ"); ("ｒ", "Ｒ"); ("ｓ", "Ｓ");
  ("ｔ", "Ｔ"); ("ｕ", "Ｕ"); ("ｖ", "Ｖ"); ("ｗ", "Ｗ");
  ("ｘ", "Ｘ"); ("ｙ", "Ｙ"); ("ｚ", "Ｚ"); ("𐐨", "𐐀");
  ("𐐩", "𐐁"); ("𐐪", "𐐂"); ("𐐫", "𐐃"); ("𐐬", "𐐄");
  ("𐐭", "𐐅"); ("𐐮", "𐐆"); ("𐐯", "𐐇"); ("𐐰", "𐐈");
  ("𐐱", "𐐉"); ("𐐲", "𐐊"); ("𐐳", "𐐋"); ("𐐴", "𐐌");
  ("𐐵", "𐐍"); ("𐐶", "𐐎"); ("𐐷", "𐐏"); ("𐐸", "𐐐");
  ("𐐹", "𐐑"); ("𐐺", "𐐒"); ("𐐻", "𐐓"); ("𐐼", "𐐔");
  ("𐐽", "𐐕"); ("𐐾", "𐐖"); ("𐐿", "𐐗"); ("𐑀", "𐐘");
  ("𐑁", "𐐙"); ("𐑂", "𐐚"); ("𐑃", "𐐛"); ("𐑄", "𐐜");
  ("𐑅", "𐐝"); ("𐑆", "𐐞"); ("𐑇", "𐐟"); ("𐑈", "𐐠");
  ("𐑉", "𐐡"); ("𐑊", "𐐢"); ("𐑋", "𐐣"); ("𐑌", "𐐤");
  ("𐑍", "𐐥"); ("𐑎", "𐐦"); ("𐑏", "𐐧"); ("𐓘", "𐒰");
  ("𐓙", "𐒱"); ("𐓚", "𐒲"); ("𐓛", "𐒳"); ("𐓜", "𐒴");
  ("𐓝", "𐒵"); ("𐓞", "𐒶"); ("𐓟", "𐒷"); ("𐓠", "𐒸");
  ("𐓡", "𐒹"); ("𐓢", "𐒺"); ("𐓣", "𐒻"); ("𐓤", "𐒼");
  ("𐓥", "𐒽"); ("𐓦", "𐒾"); ("𐓧", "𐒿"); ("𐓨", "𐓀");
  ("𐓩", "𐓁"); ("𐓪", "𐓂"); ("𐓫", "𐓃"); ("𐓬", "𐓄");
  ("𐓭", "𐓅"); ("𐓮", "𐓆"); ("𐓯", "𐓇"); ("𐓰", "𐓈");
  ("𐓱", "𐓉"); ("𐓲", "𐓊"); ("𐓳", "𐓋"); ("𐓴", "𐓌");
  ("𐓵", "𐓍"); ("𐓶", "𐓎"); ("𐓷", "𐓏"); ("𐓸", "𐓐");
  ("𐓹", "𐓑"); ("𐓺", "𐓒"); ("𐓻", "𐓓"); ("𐖗", "𐕰");
  ("𐖘", "𐕱"); ("𐖙", "𐕲"); ("𐖚", "𐕳"); ("𐖛", "𐕴");
  ("𐖜", "𐕵"); ("𐖝", "𐕶"); ("𐖞", "𐕷"); ("𐖟", "𐕸");
  ("𐖠", "𐕹"); ("𐖡", "𐕺"); ("𐖣", "𐕼"); ("𐖤", "𐕽");
  ("𐖥", "𐕾"); ("𐖦", "𐕿"); ("𐖧", "𐖀"); ("𐖨", "𐖁");
  ("𐖩", "𐖂"); ("𐖪", "𐖃"); ("𐖫", "𐖄"); ("𐖬", "𐖅");
  ("𐖭", "𐖆"); ("𐖮", "𐖇"); ("𐖯", "𐖈"); ("𐖰", "𐖉");
  ("𐖱", "𐖊"); ("𐖳", "𐖌"); ("𐖴", "𐖍"); ("𐖵", "𐖎");
  ("𐖶", "𐖏"); ("𐖷", "𐖐"); ("𐖸", "𐖑"); ("𐖹", "𐖒");
  ("𐖻", "𐖔"); ("𐖼", "𐖕"); ("𐳀", "𐲀"); ("𐳁", "𐲁");
  ("𐳂", "𐲂"); ("𐳃", "𐲃"); ("𐳄", "𐲄"); ("𐳅", "𐲅");
  ("𐳆", "𐲆"); ("𐳇", "𐲇"); ("𐳈", "𐲈"); ("𐳉", "𐲉");
  ("𐳊", "𐲊"); ("𐳋", "𐲋"); ("𐳌", "𐲌"); ("𐳍", "𐲍");
  ("𐳎", "𐲎"); ("𐳏", "𐲏"); ("𐳐", "𐲐"); ("𐳑", "𐲑");
  ("𐳒", "𐲒"); ("𐳓", "𐲓"); ("𐳔", "𐲔"); ("𐳕", "𐲕");
  ("𐳖", "𐲖"); ("𐳗", "𐲗"); ("𐳘", "𐲘"); ("𐳙", "𐲙");
  ("𐳚", "𐲚"); ("𐳛", "𐲛"); ("𐳜", "𐲜"); ("𐳝", "𐲝");
  ("𐳞", "𐲞"); ("𐳟", "𐲟"); ("𐳠", "𐲠"); ("𐳡", "𐲡");
  ("𐳢", "𐲢"); ("𐳣", "𐲣"); ("𐳤", "𐲤"); ("𐳥", "𐲥");
  ("𐳦", "𐲦"); ("𐳧", "𐲧"); ("𐳨", "𐲨"); ("𐳩", "𐲩");
  ("𐳪", "𐲪"); ("𐳫", "𐲫"); ("𐳬", "𐲬"); ("𐳭", "𐲭");
  ("𐳮", "𐲮"); ("𐳯", "𐲯"); ("𐳰", "𐲰"); ("𐳱", "𐲱");
  ("𐳲", "𐲲"); ("𑣀", "𑢠"); ("𑣁", "𑢡"); ("𑣂", "𑢢");
  ("𑣃", "𑢣"); ("𑣄", "𑢤"); ("𑣅", "𑢥"); ("𑣆", "𑢦");
  ("𑣇", "𑢧"); ("𑣈", "𑢨"); ("𑣉", "𑢩"); ("𑣊", "𑢪");
  ("𑣋", "𑢫"); ("𑣌", "𑢬"); ("𑣍", "𑢭"); ("𑣎", "𑢮");
  ("𑣏", "𑢯"); ("𑣐", "𑢰"); ("𑣑", "𑢱"); ("𑣒", "𑢲");
  ("𑣓", "𑢳"); ("𑣔", "𑢴"); ("𑣕", "𑢵"); ("𑣖", "𑢶");
  ("𑣗", "𑢷"); ("𑣘", "𑢸"); ("𑣙", "𑢹"); ("𑣚", "𑢺");
  ("𑣛", "𑢻"); ("𑣜", "𑢼"); ("𑣝", "𑢽"); ("𑣞", "𑢾");
  ("𑣟", "𑢿"); ("𖹠", "𖹀"); ("𖹡", "𖹁"); ("𖹢", "𖹂");
  ("𖹣", "𖹃"); ("𖹤", "𖹄"); ("𖹥", "𖹅"); ("𖹦", "𖹆");
  ("𖹧", "𖹇"); ("𖹨", "𖹈"); ("𖹩", "𖹉"); ("𖹪", "𖹊");
  ("𖹫", "𖹋"); ("𖹬", "𖹌"); ("𖹭", "𖹍"); ("𖹮", "𖹎");
  ("𖹯", "𖹏"); ("𖹰", "𖹐"); ("𖹱", "𖹑"); ("𖹲", "𖹒");
  ("𖹳", "𖹓"); ("𖹴", "𖹔"); ("𖹵", "𖹕"); ("𖹶", "𖹖");
  ("𖹷", "𖹗"); ("𖹸", "𖹘"); ("𖹹", "𖹙"); ("𖹺", "𖹚");
  ("𖹻", "𖹛"); ("𖹼", "𖹜"); ("𖹽", "𖹝"); ("𖹾", "𖹞");
  ("𖹿", "𖹟"); ("𞤢", "𞤀"); ("𞤣", "𞤁"); ("𞤤", "𞤂");
  ("𞤥", "𞤃"); ("𞤦", "𞤄"); ("𞤧", "𞤅"); ("𞤨", "𞤆");
  ("𞤩", "𞤇"); ("𞤪", "𞤈"); ("𞤫", "𞤉"); ("𞤬", "𞤊");
  ("𞤭", "𞤋"); ("𞤮", "𞤌"); ("𞤯", "𞤍"); ("𞤰", "𞤎");
  ("𞤱", "𞤏"); ("𞤲", "𞤐"); ("𞤳", "𞤑"); ("𞤴", "𞤒");
  ("𞤵", "𞤓"); ("𞤶", "𞤔"); ("𞤷", "𞤕"); ("𞤸", "𞤖");
  ("𞤹", "𞤗"); ("𞤺", "𞤘"); ("𞤻", "𞤙"); ("𞤼", "𞤚");
  ("𞤽", "𞤛"); ("𞤾", "𞤜"); ("𞤿", "𞤝"); ("𞥀", "𞤞");
  ("𞥁", "𞤟"); ("𞥂", "𞤠"); ("𞥃", "𞤡")
].

Fixpoint assoc (k : string) (l : list (string * string)) : option string :=
  match l with
  | [] => None
  | (k', v) :: l' => if String.eqb k k' then Some v else assoc k l'
  end.

(** [c.upper()] for one character [c] beyond ASCII. *)
Definition upper_char (c : string) : string :=
  match assoc c upper_table with
  | Some v => v
  | None => c
  end.

(** [s.upper()], character by character: [pending] holds the bytes read
    of a character that still needs [need] continuation bytes.  Bytes
    that are not part of a well-formed character are left as they
    are. *)
Fixpoint upper_from (pending : string) (need : nat) (s : string) : string :=
  match s with
  | EmptyString => pending
  | String a s' =>
      let fresh :=
        match utf8_follow a with
        | O => String (upper_ascii a) (upper_from EmptyString 0 s')
        | S k => upper_from (String a EmptyString) (S k) s'
        end in
      match need with
      | O => fresh
      | S n =>
          if utf8_cont a then
            match n with
            | O => upper_char (pending +:+ String a EmptyString)
                   +:+ upper_from EmptyString 0 s'
            | S _ => upper_from (pending +:+ String a EmptyString) n s'
            end
          else pending +:+ fresh
      end
  end.

(** [s.upper()]. *)
Definition upper (s : string) : string := upper_from EmptyString 0 s.

(** [a or b] where both operands are [Optional[str]]. *)
Definition or_ (a b : option string) : option string :=
  match a with
  | Some s => if truthy s then a else b
  | None => b
  end.

(** [a or b] where the right operand is a [str] literal. *)
Definition or_str (a : option string) (b : string) : string :=
  match a with
  | Some s => if truthy s then s else b
  | None => b
  end.

End PyStr.

(** ** Exceptions and the monad of remote effects *)

Inductive exn : Type :=
| NotFoundException
| ConflictException
| ParamValidationError
| ResourceConflictException
| ResourceNotFoundException
| KeyError (key : string)
| ValueError (msg : string)
| RuntimeError (msg : string)
| FileNotFoundError
| JSONDecodeError
| NoRegionError
| InvalidRegionError (region_name : string)
| BadRequestException.

Global Instance exn_eq_dec : EqDecision exn.
Proof. solve_decision. Defined.

Inductive result (A : Type) : Type :=
| Ok (a : A)
| Raise (e : exn).
Global Arguments Ok {A} a.
Global Arguments Raise {A} e.

(** ** The remote services *)

(** A node of the gateway's resource tree.  Its identifier is its
    position in the tree's listing ([Gateway.tree]): identifiers are
    opaque tokens handed out by the service, never reused. *)
Record resource : Type := Resource {
  res_path : string;
  res_part : string;
  res_parent : option nat;
}.

(** An element of a [get_resources] page, and the reply of
    [create_resource]. *)
Record item : Type := Item {
  item_id : nat;
  item_path : string;
  item_parent : option nat;
}.

Record integration : Type := Integration {
  int_type : string;
  int_http_method : string;
  int_uri : string;
}.

Global Instance integration_eq_dec : EqDecision integration.
Proof. solve_decision. Defined.

(** A method of a resource; it owns at most one integration. *)
Record method : Type := Method {
  authorizationType : string;
  methodIntegration : option integration;
}.

Record rest_api : Type := RestApi {
  api_name : string;
  api_id : string;
}.

Record statement : Type := Statement {
  st_action : string;
  st_principal : string;
  st_source_arn : string;
}.

(** Every call the script can issue on a boto3 client. *)
Inductive call : Type :=
| GetCallerIdentity
| GetRestApis
| GetFunction (name : string)
| GetResources (rest_api_id : string)
| CreateResource (rest_api_id : string) (parentId : option nat) (pathPart : string)
| GetMethod (rest_api_id : string) (resourceId : nat) (httpMethod : string)
| PutMethod (rest_api_id : string) (resourceId : nat) (httpMethod : string)
    (authType : string)
| GetIntegration (rest_api_id : string) (resourceId : nat) (httpMethod : string)
| PutIntegration (rest_api_id : string) (resourceId : nat) (httpMethod : string)
    (type : string) (integrationHttpMethod : string) (uri : string)
| AddPermission (functionName statementId action principal sourceArn : string)
| CreateDeployment (rest_api_id : string) (stageName : string).

Global Instance call_eq_dec : EqDecision call.
Proof. solve_decision. Defined.

Record world : Type := World {
  (** gateway control plane: the REST APIs, and the resources below the
      root and the methods of the REST API the run addresses *)
  w_apis : list rest_api;
  w_resources : list resource;
  w_methods : gmap (nat * string) method;
  w_deployments : list string;
  (** handler registry: function name to ARN, and the policy statements
      keyed by (FunctionName, StatementId) *)
  w_functions : gmap string string;
  w_policy : gmap (string * string) statement;
  (** identity service *)
  w_account : string;
  (** chronological log of the calls issued so far *)
  w_calls : list call;
}.

Definition M (A : Type) : Type := world -> result A * world.

Definition ret {A} (a : A) : M A := fun w => (Ok a, w).

Definition raise {A} (e : exn) : M A := fun w => (Raise e, w).

Definition bind {A B} (m : M A) (k : A -> M B) : M B :=
  fun w =>
    match m w with
    | (Ok a, w') => k a w'
    | (Raise e, w') => (Raise e, w')
    end.

Notation "x <- m ;; k" := (bind m (fun x => k))
  (at level 100, m at next level, right associativity).
Notation "m ;;; k" := (bind m (fun _ => k))
  (at level 100, right associativity).

(** [try: m except E: h] for the single exception class [E]. *)
Definition try_except {A} (m : M A) (E : exn) (h : M A) : M A :=
  fun w =>
    match m w with
    | (Raise e, w') => if decide (e = E) then h w' else (Raise e, w')
    | r => r
    end.

(** [for x in l: body(x)]. *)
Fixpoint for_each {A} (l : list A) (body : A -> M unit) : M unit :=
  match l with
  | [] => ret tt
  | x :: l' => body x ;;; for_each l' body
  end.

Definition set_calls (cs : list call) (w : world) : world :=
  {| w_apis := w_apis w; w_resources := w_resources w;
     w_methods := w_methods w; w_deployments := w_deployments w;
     w_functions := w_functions w; w_policy := w_policy w;
     w_account := w_account w; w_calls := cs |}.

Definition log (c : call) (w : world) : world := set_calls (w_calls w ++ [c]) w.

(** The calls [m] issues when started in [w]. *)
Definition issued {A} (m : M A) (w : world) : list call :=
  drop (length (w_calls w)) (w_calls (snd (m w))).

Definition set_resources (rs : list resource) (w : world) : world :=
  {| w_apis := w_apis w; w_resources := rs;
     w_methods := w_methods w; w_deployments := w_deployments w;
     w_functions := w_functions w; w_policy := w_policy w;
     w_account := w_account w; w_calls := w_calls w |}.

Definition set_methods (ms : gmap (nat * string) method) (w : world) : world :=
  {| w_apis := w_apis w; w_resources := w_resources w;
     w_methods := ms; w_deployments := w_deployments w;
     w_functions := w_functions w; w_policy := w_policy w;
     w_account := w_account w; w_calls := w_calls w |}.

Definition set_policy (p : gmap (string * string) statement) (w : world) : world :=
  {| w_apis := w_apis w; w_resources := w_resources w;
     w_methods := w_methods w; w_deployments := w_deployments w;
     w_functions := w_functions w; w_policy := p;
     w_account := w_account w; w_calls := w_calls w |}.

Definition set_deployments (d : list string) (w : world) : world :=
  {| w_apis := w_apis w; w_resources := w_resources w;
     w_methods := w_methods w; w_deployments := d;
     w_functions := w_functions w; w_policy := w_policy w;
     w_account := w_account w; w_calls := w_calls w |}.

(** *** Pagination *)

(** Pages of at most [limit] elements ([k] is the room left on the page
    being filled, [cur] that page). *)
Fixpoint pages_go {A} (limit k : nat) (cur : list A) (l : list A) : list (list A) :=
  match l with
  | [] => match cur with [] => [] | _ => [cur] end
  | x :: l' =>
      match k with
      | O => cur :: pages_go limit (limit - 1) [x] l'
      | S k' => pages_go limit k' (cur ++ [x]) l'
      end
  end.

Definition paginate {A} (limit : nat) (l : list A) : list (list A) :=
  pages_go limit limit [] l.

(** *** Gateway control plane *)

Module Gateway.

(** The resource tree: the root [/], which every REST API has from its
    creation, followed by the resources created since. *)
Definition tree (w : world) : list resource :=
  Resource "/" EmptyString None :: w_resources w.

Definition items (rs : list resource) : list item :=
  imap (fun i r => Item i (res_path r) (res_parent r)) rs.

(** Full path of the child [part] of a resource whose path is [parent]. *)
Definition child_path (parent part : string) : string :=
  if decide (parent = "/") then "/" +:+ part else parent +:+ "/" +:+ part.

Definition has_path (p : string) (rs : list resource) : bool :=
  bool_decide (p ∈ (res_path <$> rs)).

Definition get_rest_apis (limit : nat) : M (list (list rest_api)) :=
  fun w => (Ok (paginate limit (w_apis w)), log GetRestApis w).

Definition get_resources (restApiId : string) (limit : nat) : M (list (list item)) :=
  fun w => (Ok (paginate limit (items (tree w))), log (GetResources restApiId) w).

Definition create_resource (restApiId : string) (parentId : option nat)
    (pathPart : string) : M item :=
  fun w =>
    let w := log (CreateResource restApiId parentId pathPart) w in
    match parentId with
    | None => (Raise ParamValidationError, w)
    | Some pid =>
        match tree w !! pid with
        | None => (Raise NotFoundException, w)
        | Some parent =>
            let p := child_path (res_path parent) pathPart in
            if has_path p (tree w) then (Raise ConflictException, w)
            else
              (Ok (Item (length (tree w)) p (Some pid)),
               set_resources (w_resources w ++ [Resource p pathPart (Some pid)]) w)
        end
    end.

Definition get_method (restApiId : string) (resourceId : nat) (httpMethod : string)
  : M method :=
  fun w =>
    let w := log (GetMethod restApiId resourceId httpMethod) w in
    match w_methods w !! (resourceId, httpMethod) with
    | Some m => (Ok m, w)
    | None => (Raise NotFoundException, w)
    end.

Definition put_method (restApiId : string) (resourceId : nat) (httpMethod : string)
    (authType : string) : M unit :=
  fun w =>
    let w := log (PutMethod restApiId resourceId httpMethod authType) w in
    match tree w !! resourceId with
    | None => (Raise NotFoundException, w)
    | Some _ =>
        match w_methods w !! (resourceId, httpMethod) with
        | Some _ => (Raise ConflictException, w)
        | None =>
            (Ok tt,
             set_methods (<[(resourceId, httpMethod) := Method authType None]>
                            (w_methods w)) w)
        end
    end.

Definition get_integration (restApiId : string) (resourceId : nat)
    (httpMethod : string) : M integration :=
  fun w =>
    let w := log (GetIntegration restApiId resourceId httpMethod) w in
    match w_methods w !! (resourceId, httpMethod) with
    | Some (Method _ (Some i)) => (Ok i, w)
    | _ => (Raise NotFoundException, w)
    end.

Definition put_integration (restApiId : string) (resourceId : nat)
    (httpMethod type integrationHttpMethod uri : string) : M unit :=
  fun w =>
    let w := log (PutIntegration restApiId resourceId httpMethod type
                    integrationHttpMethod uri) w in
    match w_methods w !! (resourceId, httpMethod) with
    | None => (Raise NotFoundException, w)
    | Some m =>
        (Ok tt,
         set_methods
           (<[(resourceId, httpMethod) :=
                Method (authorizationType m)
                  (Some (Integration type integrationHttpMethod uri))]>
              (w_methods w)) w)
    end.

(** A deployment is refused for a REST API without methods, and for
    one none of whose methods has an integration. *)
Definition create_deployment (restApiId stageName : string) : M unit :=
  fun w =>
    let w := log (CreateDeployment restApiId stageName) w in
    let methods := (map_to_list (w_methods w)).*2 in
    if bool_decide (methods = []) then (Raise BadRequestException, w)
    else if forallb (fun m => bool_decide (methodIntegration m = None)) methods
    then (Raise NotFoundException, w)
    else (Ok tt, set_deployments (w_deployments w ++ [stageName]) w).

End Gateway.

(** *** Handler registry and identity service *)

Module Lambda.

Definition get_function (name : string) : M string :=
  fun w =>
    let w := log (GetFunction name) w in
    match w_functions w !! name with
    | Some arn => (Ok arn, w)
    | None => (Raise ResourceNotFoundException, w)
    end.

(** A function is addressed by its name or by its ARN. *)
Definition known (fn : string) (w : world) : bool :=
  bool_decide (is_Some (w_functions w !! fn))
  || bool_decide (fn ∈ (map_to_list (w_functions w)).*2).

Definition add_permission (functionName statementId action principal
    sourceArn : string) : M unit :=
  fun w =>
    let w := log (AddPermission functionName statementId action principal
                    sourceArn) w in
    if negb (known functionName w) then (Raise ResourceNotFoundException, w)
    else
      match w_policy w !! (functionName, statementId) with
      | Some _ => (Raise ResourceConflictException, w)
      | None =>
          (Ok tt,
           set_policy (<[(functionName, statementId) :=
                           Statement action principal sourceArn]>
                         (w_policy w)) w)
      end.

End Lambda.

Module Sts.

Definition get_caller_identity : M string :=
  fun w => (Ok (w_account w), log GetCallerIdentity w).

End Sts.

(** ** Process environment and configuration input *)

(** Where the script looks for a deployment region. *)
Record environ : Type := Environ {
  session_region_name : option string;   (* boto3.session.Session().region_name *)
  AWS_REGION : option string;            (* os.environ.get("AWS_REGION") *)
  AWS_DEFAULT_REGION : option string;    (* os.environ.get("AWS_DEFAULT_REGION") *)
  sts_meta_region_name : option string;  (* boto3.client("sts").meta.region_name *)
}.

(** A decoded JSON document. *)
Inductive json : Type :=
| JNull
| JBool (b : bool)
| JNumber (n : Z)
| JString (s : string)
| JArray (l : list json)
| JObject (l : list (string * json)).

(** What [open] followed by [json.load] finds at a path. *)
Inductive file : Type :=
| Missing
| Malformed
| Content (data : json).

Record arguments : Type := Arguments_ {
  arg_module : string;
  arg_stage : string;
  arg_api_name : string;
  arg_lambda_name_prefix : string;
  arg_modules_dir : string;
}.

(** ** The script *)

(** [os.path.join] on POSIX, for two components and for three: a
    component that begins with [/] discards what precedes it, and no
    separator is added after an empty component or a trailing [/]. *)
Module PyPath.

Definition starts_with_sep (s : string) : bool :=
  match s with
  | String a _ => Ascii.eqb a "/"
  | EmptyString => false
  end.

Fixpoint ends_with_sep (s : string) : bool :=
  match s with
  | EmptyString => false
  | String a EmptyString => Ascii.eqb a "/"
  | String _ s' => ends_with_sep s'
  end.

Definition join (path b : string) : string :=
  if starts_with_sep b then b
  else if negb (PyStr.truthy path) || ends_with_sep path then path +:+ b
  else path +:+ "/" +:+ b.

Definition join3 (a b c : string) : string := join (join a b) c.

End PyPath.

(** Lines 120-121: where the module's configuration is; [abspath] is
    [os.path.abspath] in the working directory of the process. *)
Definition config_path (abspath : string -> string) (args : arguments) : string :=
  let modules_dir := abspath (arg_modules_dir args) in
  PyPath.join3 modules_dir (arg_module args) "config.json".

(** *** Client construction *)

Module Boto3.

Definition label_char (a : ascii) : bool :=
  let n := nat_of_ascii a in
  ((48 <=? n)%nat && (n <=? 57)%nat) || ((65 <=? n)%nat && (n <=? 90)%nat)
  || ((97 <=? n)%nat && (n <=? 122)%nat) || (n =? 45)%nat.

Definition digit (a : ascii) : bool :=
  let n := nat_of_ascii a in (48 <=? n)%nat && (n <=? 57)%nat.

(** botocore's check of a region name: a host label, that is at most 63
    letters, digits and hyphens, not digits only, no hyphen first or
    last.  (The empty name passes.) *)
Definition valid_region_name (r : string) : bool :=
  let l := String.list_ascii_of_string r in
  forallb label_char l
  && (length l <=? 63)%nat
  && negb (PyStr.truthy r && forallb digit l)
  && negb (bool_decide (head l = Some "-"%char))
  && negb (bool_decide (last l = Some "-"%char)).

(** [boto3.client(service)] for the default session: no call is made.
    Without a region only a service with a partition-wide endpoint (of
    the three the script uses, STS) gets a client; a name that is no
    host label is refused, and the empty name gives no valid
    endpoint. *)
Definition outcome (env : environ) (service : string) : result unit :=
  match session_region_name env with
  | None => if bool_decide (service = "sts") then Ok tt else Raise NoRegionError
  | Some r =>
      if negb (valid_region_name r) then Raise (InvalidRegionError r)
      else if PyStr.truthy r then Ok tt
      else Raise (ValueError ("Invalid endpoint: https://" +:+ service
                              +:+ "..amazonaws.com"))
  end.

Definition client (env : environ) (service : string) : M unit :=
  fun w => (outcome env service, w).

End Boto3.

(** Lines 140-142: the message of the error raised when no REST API has
    the requested name. *)
Definition not_found (api_name : string) : string :=
  "REST API with name " +:+ api_name +:+ " not found. Ensure SAM created it: "
  +:+ api_name.

Definition lambda_name (args : arguments) : string :=
  arg_lambda_name_prefix args +:+ arg_module args.

Section Script.

(** The process environment, [os.path.abspath] in its working
    directory, the file system, and Python's [str()] on a decoded JSON
    value that is not already a [str]. *)
Variable env : environ.
Variable abspath : string -> string.
Variable read_json : string -> file.
Variable py_repr : json -> string.

Definition py_str (p : json) : string :=
  match p with
  | JString s => s
  | _ => py_repr p
  end.

Fixpoint find_in_page (name : string) (page : list rest_api) : option string :=
  match page with
  | [] => None
  | it :: rest =>
      if decide (api_name it = name) then Some (api_id it)
      else find_in_page name rest
  end.

Fixpoint find_in_pages (name : string) (pages : list (list rest_api)) : option string :=
  match pages with
  | [] => None
  | page :: rest =>
      match find_in_page name page with
      | Some i => Some i
      | None => find_in_pages name rest
      end
  end.

Definition find_rest_api_id_by_name (name : string) : M (option string) :=
  pages <- Gateway.get_rest_apis 500 ;;
  ret (find_in_pages name pages).

(** Lines 19-23: the path-to-id dictionary built from all pages. *)
Definition fetch (pages : list (list item)) : gmap string nat :=
  fold_left
    (fun resources page =>
       fold_left (fun resources res => <[item_path res := item_id res]> resources)
         page resources)
    pages ∅.

(** Line 28: [[seg for seg in path.split("/") if seg]]. *)
Definition segments (path : string) : list string :=
  filter (fun seg => PyStr.truthy seg = true) (PyStr.split_char "/" path).

(** The local variables of the loop of [ensure_path]. *)
Record locals : Type := Locals {
  parent_id : option nat;
  built_path : string;
  resources : gmap string nat;
}.

(** Lines 31-38, one iteration per segment. *)
Fixpoint ensure_segments (rest_api_id : string) (segs : list string) (st : locals)
  : M locals :=
  match segs with
  | [] => ret st
  | seg :: segs' =>
      let built_path :=
        if PyStr.truthy (built_path st) then built_path st +:+ "/" +:+ seg
        else "/" +:+ seg in
      match resources st !! built_path with
      | Some id =>
          ensure_segments rest_api_id segs'
            (Locals (Some id) built_path (resources st))
      | None =>
          created <- Gateway.create_resource rest_api_id (parent_id st) seg ;;
          let parent_id := item_id created in
          ensure_segments rest_api_id segs'
            (Locals (Some parent_id) built_path
               (<[built_path := parent_id]> (resources st)))
      end
  end.

Definition ensure_path (rest_api_id path : string) : M nat :=
  pages <- Gateway.get_resources rest_api_id 500 ;;
  let resources0 := fetch pages in
  match resources0 !! path with
  | Some id => ret id
  | None =>
      st <- ensure_segments rest_api_id (segments path)
              (Locals (resources0 !! "/") EmptyString resources0) ;;
      match resources st !! path with
      | Some id => ret id
      | None => raise (KeyError path)
      end
  end.

(** Lines 55-60: the region substituted into the invocation URI. *)
Definition resolve_region : string :=
  let region :=
    PyStr.or_ (PyStr.or_ (session_region_name env) (AWS_REGION env))
      (AWS_DEFAULT_REGION env) in
  match region with
  | Some r =>
      if negb (PyStr.truthy r) then PyStr.or_str (sts_meta_region_name env) "us-east-1"
      else r
  | None => PyStr.or_str (sts_meta_region_name env) "us-east-1"
  end.

Definition invocation_uri (lambda_arn : string) : string :=
  let uri :=
    "arn:aws:apigateway:${AWS_REGION}:lambda:path/2015-03-31/functions/"
    +:+ lambda_arn +:+ "/invocations" in
  PyStr.replace "${AWS_REGION}" resolve_region uri.

Definition ensure_method_and_integration (rest_api_id : string) (resource_id : nat)
    (http_method lambda_arn : string) : M unit :=
  let http_method := PyStr.upper http_method in
  try_except
    (_ <- Gateway.get_method rest_api_id resource_id http_method ;; ret tt)
    NotFoundException
    (Gateway.put_method rest_api_id resource_id http_method "NONE") ;;;
  let uri := invocation_uri lambda_arn in
  try_except
    (_ <- Gateway.get_integration rest_api_id resource_id http_method ;;
     Gateway.put_integration rest_api_id resource_id http_method
       "AWS_PROXY" "POST" uri)
    NotFoundException
    (Gateway.put_integration rest_api_id resource_id http_method
       "AWS_PROXY" "POST" uri).

Definition function_name (lambda_arn : string) : string :=
  default EmptyString (last (PyStr.split ":function:" lambda_arn)).

Definition statement_id (rest_api_id lambda_arn : string) : string :=
  "apigw-" +:+ rest_api_id +:+ "-" +:+ function_name lambda_arn.

Definition add_permission_for_apigw (lambda_arn rest_api_id account_id
    region : string) : M unit :=
  let sid := statement_id rest_api_id lambda_arn in
  let source_arn :=
    "arn:aws:execute-api:" +:+ region +:+ ":" +:+ account_id +:+ ":"
    +:+ rest_api_id +:+ "/*/*/*" in
  try_except
    (Lambda.add_permission lambda_arn sid "lambda:InvokeFunction"
       "apigateway.amazonaws.com" source_arn)
    ResourceConflictException
    (ret tt).

Definition deploy_stage (rest_api_id stage : string) : M unit :=
  Gateway.create_deployment rest_api_id stage.

Definition load_paths (config_path : string) : M (list string) :=
  match read_json config_path with
  | Missing => raise FileNotFoundError
  | Malformed => raise JSONDecodeError
  | Content data =>
      match data with
      | JArray l => ret (py_str <$> l)
      | _ => raise (ValueError "config.json must be a JSON array of path strings")
      end
  end.

Definition METHODS : list string := ["GET"; "POST"; "PUT"; "DELETE"; "PATCH"; "OPTIONS"].

(** Lines 152-157: the reconciliation proper. *)
Definition reconcile (rest_api_id lambda_arn : string) (paths : list string) : M unit :=
  for_each paths (fun path =>
    resource_id <- ensure_path rest_api_id path ;;
    for_each METHODS (fun method =>
      ensure_method_and_integration rest_api_id resource_id method lambda_arn)).

Definition main (args : arguments) : M unit :=
  let config_path := config_path abspath args in
  let lambda_name := lambda_name args in
  Boto3.client env "apigateway" ;;;
  Boto3.client env "lambda" ;;;
  Boto3.client env "sts" ;;;
  account_id <- Sts.get_caller_identity ;;
  let region :=
    PyStr.or_str
      (PyStr.or_ (PyStr.or_ (session_region_name env) (AWS_REGION env))
         (AWS_DEFAULT_REGION env))
      "us-east-1" in
  rest_api_id <- find_rest_api_id_by_name (arg_api_name args) ;;
  match rest_api_id with
  | None => raise (RuntimeError (not_found (arg_api_name args)))
  | Some rest_api_id =>
      if negb (PyStr.truthy rest_api_id)
      then raise (RuntimeError (not_found (arg_api_name args)))
      else
        lambda_arn <- Lambda.get_function lambda_name ;;
        paths <- load_paths config_path ;;
        reconcile rest_api_id lambda_arn paths ;;;
        add_permission_for_apigw lambda_arn rest_api_id account_id region ;;;
        deploy_stage rest_api_id (arg_stage args)
  end.

End Script.


(** ** Vocabulary of the statements *)

(** The path-to-id dictionary [ensure_path] builds from a listing of the
    resources [rs], and the one it builds in the world [w]. *)
Definition index (rs : list resource) : gmap string nat :=
  fetch (paginate 500 (Gateway.items rs)).

Definition tree_index (w : world) : gmap string nat := index (Gateway.tree w).

Definition is_create (c : call) : bool :=
  match c with CreateResource _ _ _ => true | _ => false end.

Definition is_put_method (c : call) : bool :=
  match c with PutMethod _ _ _ _ => true | _ => false end.

Definition is_put_integration (c : call) : bool :=
  match c with PutIntegration _ _ _ _ _ _ => true | _ => false end.

(** Calls that change remote state. *)
Definition is_write (c : call) : bool :=
  match c with
  | CreateResource _ _ _ | PutMethod _ _ _ _ | PutIntegration _ _ _ _ _ _
  | AddPermission _ _ _ _ _ | CreateDeployment _ _ => true
  | _ => false
  end.

(** The HTTP verb a method-level gateway call addresses. *)
Definition call_verb (c : call) : option string :=
  match c with
  | GetMethod _ _ m | PutMethod _ _ m _ | GetIntegration _ _ m
  | PutIntegration _ _ m _ _ _ => Some m
  | _ => None
  end.

(** *** Uppercasing *)
(** A lowercase letter of ASCII, and the strings without one. *)
Definition is_lower (a : ascii) : bool :=
  let n := nat_of_ascii a in (97 <=? n)%nat && (n <=? 122)%nat.

Fixpoint no_lower (s : string) : bool :=
  match s with
  | EmptyString => true
  | String a s' => negb (is_lower a) && no_lower s'
  end.

(** A string of ASCII characters only. *)
Fixpoint is_ascii (s : string) : bool :=
  match s with
  | EmptyString => true
  | String a s' => (nat_of_ascii a <? 128)%nat && is_ascii s'
  end.

(** [b] is [a], or the capital of the lowercase letter [a]. *)
Definition capital_of (a b : ascii) : Prop :=
  if is_lower a then nat_of_ascii b + 32 = nat_of_ascii a else b = a.

(** [v] is [s] with every lowercase ASCII letter replaced by its
    capital. *)
Fixpoint capitals_of (s v : string) : Prop :=
  match s, v with
  | EmptyString, EmptyString => True
  | String a s', String b v' => capital_of a b ∧ capitals_of s' v'
  | _, _ => False
  end.

(** The scan of [upper_from] over [s], stopped at the end of [s]: what
    it has emitted, and the bytes and count it carries on. *)
Fixpoint upper_scan (pending : string) (need : nat) (s : string)
  : string * (string * nat) :=
  match s with
  | EmptyString => (EmptyString, (pending, need))
  | String a s' =>
      let fresh :=
        match PyStr.utf8_follow a with
        | O => let '(o, st) := upper_scan EmptyString 0 s' in
               (String (PyStr.upper_ascii a) o, st)
        | S k => upper_scan (String a EmptyString) (S k) s'
        end in
      match need with
      | O => fresh
      | S n =>
          if PyStr.utf8_cont a then
            match n with
            | O => let '(o, st) := upper_scan EmptyString 0 s' in
                   (PyStr.upper_char (pending +:+ String a EmptyString) +:+ o, st)
            | S _ => upper_scan (pending +:+ String a EmptyString) n s'
            end
          else let '(o, st) := fresh in (pending +:+ o, st)
      end
  end.

(** A string that [upper] leaves as it is and that ends with a whole
    character, beginning with the first byte of one. *)
Definition settled_text (v : string) : bool :=
  bool_decide (upper_scan EmptyString 0 v = (v, (EmptyString, 0)))
  && match v with
     | String a _ => negb (PyStr.utf8_cont a)
     | EmptyString => false
     end
  && no_lower v.

(** A character under way: a lead byte followed by continuation bytes,
    [n] of which are still to come. *)
Definition under_way (p : string) (n : nat) : Prop :=
  match p with
  | EmptyString => n = 0
  | String a q =>
      0 < n ∧ PyStr.utf8_follow a = String.length q + n
      ∧ Forall (λ b, PyStr.utf8_cont b = true) (String.list_ascii_of_string q)
  end.

(** What can follow a character that was cut short: nothing, or a byte
    that does not continue it. *)
Definition no_cont_first (t : string) : Prop :=
  match t with
  | EmptyString => True
  | String a _ => PyStr.utf8_cont a = false
  end.

(** *** Paths *)

(** A desired path that begins with [/] and has no empty segment after
    splitting on [/]. *)
Definition well_formed_path (P : string) : bool :=
  match P with
  | String c rest =>
      Ascii.eqb c "/" && forallb PyStr.truthy (PyStr.split_char "/" rest)
  | EmptyString => false
  end.

(** The path of the resource under which the segment following
    [built] is looked up or created. *)
Definition parent_path (built : string) : string :=
  if PyStr.truthy built then built else "/".

(** One step of the walk of [ensure_path]: the partial path
    [step_path], its last segment, and the path one segment shorter
    (the root for the first step). *)
Record step : Type := Step {
  step_parent : string;
  step_seg : string;
  step_path : string;
}.

(** The steps of a walk that starts after [built]. *)
Fixpoint steps (built : string) (segs : list string) : list step :=
  match segs with
  | [] => []
  | seg :: segs' =>
      let child := built +:+ "/" +:+ seg in
      Step (parent_path built) seg child :: steps child segs'
  end.

(** The proper prefixes-or-self of a path: [/a], [/a/b], ... *)
Definition partial_paths (P : string) : list string :=
  step_path <$> steps EmptyString (segments P).

(** The call that creates the resource of a step, and the node it
    adds to the tree, given the ids listed for the paths. *)
Definition create_call (api : string) (ids : gmap string nat) (x : step) : call :=
  CreateResource api (ids !! step_parent x) (step_seg x).

Definition created_node (ids : gmap string nat) (x : step) : resource :=
  Resource (step_path x) (step_seg x) (ids !! step_parent x).

(** The world after [news] were appended to the resources and [cs] to
    the log of calls. *)
Definition grow (news : list resource) (cs : list call) (w : world) : world :=
  set_calls (w_calls w ++ cs) (set_resources (w_resources w ++ news) w).

(** The partial paths of a walk that are absent from a dictionary. *)
Definition missing (m : gmap string nat) (l : list step)
  : list step :=
  filter (fun x => m !! step_path x = None) l.

(** What the loop of [ensure_path] maintains: the local dictionary is the
    one a fresh listing would give, and [parent_id] is the id listed for
    the path built so far (the root before the first segment). *)
Definition loop_inv (st : locals) (w : world) : Prop :=
  resources st = tree_index w
  ∧ parent_id st = tree_index w !! parent_path (built_path st)
  ∧ is_Some (parent_id st)
  ∧ built_path st ≠ "/".

(** The listing is a tree: whenever a path is listed, so are the partial
    paths leading to it. *)
Definition ancestors_listed (w : world) : bool :=
  forallb
    (fun r =>
       forallb (fun q => bool_decide (is_Some (tree_index w !! q)))
         (partial_paths (res_path r)))
    (Gateway.tree w).

(** ** Sample data *)

Definition demo_world : world :=
  {| w_apis := [RestApi "MainApiGateway" "a1b2c3"];
     w_resources := [Resource "/orders" "orders" (Some 0)];
     w_methods := ∅;
     w_deployments := [];
     w_functions :=
       {[ "project-orders" := "arn:aws:lambda:us-east-1:123456789012:function:project-orders" ]};
     w_policy := ∅;
     w_account := "123456789012";
     w_calls := [] |}.

(** A gateway that has only its root. *)
Definition root_world : world :=
  {| w_apis := [RestApi "MainApiGateway" "a1b2c3"];
     w_resources := [];
     w_methods := ∅;
     w_deployments := [];
     w_functions := ∅;
     w_policy := ∅;
     w_account := "123456789012";
     w_calls := [] |}.

Definition demo_env : environ :=
  {| session_region_name := None; AWS_REGION := Some "eu-west-1";
     AWS_DEFAULT_REGION := None; sts_meta_region_name := None |}.

(** An environment whose session has a region, as [aws configure] or
    [AWS_DEFAULT_REGION] leave it. *)
Definition region_env : environ :=
  {| session_region_name := Some "eu-west-1"; AWS_REGION := None;
     AWS_DEFAULT_REGION := Some "eu-west-1";
     sts_meta_region_name := Some "eu-west-1" |}.

(** A stand-in for [os.path.abspath] in the working directory
    [/srv/app]. *)
Definition demo_abspath (p : string) : string :=
  if PyPath.starts_with_sep p then p else "/srv/app/" +:+ p.

(** The session has a region for which the clients of [main] can be
    built. *)
Definition has_region (env : environ) : bool :=
  match session_region_name env with
  | Some r => Boto3.valid_region_name r && PyStr.truthy r
  | None => false
  end.

(** The integration every reconciled method ends up with. *)
Definition target (env : environ) (lambda_arn : string) : integration :=
  Integration "AWS_PROXY" "POST" (invocation_uri env lambda_arn).

(** The world after the methods were replaced by [ms] and [cs] appended
    to the log of calls. *)
Definition with_methods (ms : gmap (nat * string) method) (cs : list call)
    (w : world) : world :=
  set_calls (w_calls w ++ cs) (set_methods ms w).

(** The first candidate that is set to a non-empty string, else the
    default. *)
Fixpoint first_truthy (candidates : list (option string)) (dflt : string) : string :=
  match candidates with
  | [] => dflt
  | Some s :: rest => if PyStr.truthy s then s else first_truthy rest dflt
  | None :: rest => first_truthy rest dflt
  end.

(** The resolution order as the specification words it: the session
    default, then the environment, then the hardcoded default. *)
Definition region_as_specified (env : environ) : string :=
  first_truthy [session_region_name env; AWS_REGION env; AWS_DEFAULT_REGION env]
    "us-east-1".

Definition is_array (data : json) : bool :=
  match data with JArray _ => true | _ => false end.

Definition is_string (data : json) : bool :=
  match data with JString _ => true | _ => false end.

(** A configuration of the documented shape: an array of strings. *)
Definition list_of_strings (data : json) : bool :=
  match data with JArray l => forallb is_string l | _ => false end.

Definition demo_args : arguments :=
  {| arg_module := "orders"; arg_stage := "prod"; arg_api_name := "MainApiGateway";
     arg_lambda_name_prefix := "project-"; arg_modules_dir := "modules" |}.

(** An environment in which only the STS client knows a region. *)
Definition sts_only_env : environ :=
  {| session_region_name := None; AWS_REGION := None;
     AWS_DEFAULT_REGION := None; sts_meta_region_name := Some "aws-global" |}.

(** The grant call [add_permission_for_apigw] issues. *)
Definition grant_call (lambda_arn rest_api_id account_id region : string) : call :=
  AddPermission lambda_arn (statement_id rest_api_id lambda_arn)
    "lambda:InvokeFunction" "apigateway.amazonaws.com"
    ("arn:aws:execute-api:" +:+ region +:+ ":" +:+ account_id +:+ ":"
     +:+ rest_api_id +:+ "/*/*/*").

(** The handler registry's own answer to that call. *)
Definition grant_reply (lambda_arn rest_api_id account_id region : string)
    (w : world) : result unit :=
  (Lambda.add_permission lambda_arn (statement_id rest_api_id lambda_arn)
     "lambda:InvokeFunction" "apigateway.amazonaws.com"
     ("arn:aws:execute-api:" +:+ region +:+ ":" +:+ account_id +:+ ":"
      +:+ rest_api_id +:+ "/*/*/*") w).1.

(** A world whose handler already carries the gateway's statement. *)
Definition granted_world : world :=
  {| w_apis := [RestApi "MainApiGateway" "a1b2c3"];
     w_resources := [];
     w_methods := ∅;
     w_deployments := [];
     w_functions :=
       {[ "project-orders" := "arn:aws:lambda:us-east-1:123456789012:function:project-orders" ]};
     w_policy :=
       {[ ("arn:aws:lambda:us-east-1:123456789012:function:project-orders",
           "apigw-a1b2c3-project-orders") :=
            Statement "lambda:InvokeFunction" "apigateway.amazonaws.com"
              "arn:aws:execute-api:us-east-1:123456789012:a1b2c3/*/*/*" ]};
     w_account := "123456789012";
     w_calls := [] |}.

(** File systems whose [config.json] holds a JSON object, and one that
    holds an array with a number in it. *)
Definition object_config (path : string) : file := Content (JObject []).

Definition mixed_config (path : string) : file :=
  Content (JArray [JString "/orders"; JNumber 5]).

(** A stand-in for [str()] on the non-string values of the samples. *)
Definition demo_repr (p : json) : string :=
  match p with
  | JNumber 5 => "5"
  | JNull => "None"
  | JBool true => "True"
  | JBool false => "False"
  | _ => "?"
  end.

(** ** Vocabulary of the idempotence statement *)

(** The world with [cs] appended to the log of calls and nothing else
    changed. *)
Definition logged (cs : list call) (w : world) : world :=
  set_calls (w_calls w ++ cs) w.

(** Two worlds that differ at most in their log of calls. *)
Definition same_state (w w' : world) : Prop := set_calls [] w = set_calls [] w'.

(** Calls that create neither a resource nor a method. *)
Definition quiet (cs : list call) : Prop :=
  Forall (fun c => is_create c = false ∧ is_put_method c = false) cs.

(** The method of key [k] exists and forwards to the handler of the run. *)
Definition has_target (env : environ) (arn : string) (w : world)
    (k : nat * string) : Prop :=
  ∃ auth, w_methods w !! k = Some (Method auth (Some (target env arn))).

(** The path is reconciled: it is listed and its resource carries the
    six methods, each forwarding to the handler. *)
Definition reconciled (env : environ) (arn : string) (p : string) (w : world) : Prop :=
  ∃ rid, tree_index w !! p = Some rid
         ∧ ∀ m, m ∈ METHODS → has_target env arn w (rid, PyStr.upper m).

(** The path cannot be resolved although all its partial paths are
    listed (it is not the path its own segments spell). *)
Definition stuck (p : string) (w : world) : Prop :=
  tree_index w !! p = None
  ∧ ∀ x, x ∈ steps EmptyString (segments p) →
         is_Some (tree_index w !! step_path x).

(** What a round leaves behind for its path, by outcome. *)
Definition settled (env : environ) (arn : string) (p : string)
    (r : result unit) (w : world) : Prop :=
  match r with
  | Ok _ => reconciled env arn p w
  | Raise e => e = KeyError p ∧ stuck p w
  end.

(** Reconciliation only adds: listed paths stay listed under the same
    id, reconciled methods stay reconciled. *)
Definition progress (env : environ) (arn : string) (w w' : world) : Prop :=
  tree_index w ⊆ tree_index w'
  ∧ ∀ k, has_target env arn w k → has_target env arn w' k.

(** Lines 153-157: the round for one desired path. *)
Definition round (env : environ) (rest_api_id lambda_arn path : string) : M unit :=
  resource_id <- ensure_path rest_api_id path ;;
  for_each METHODS (fun method =>
    ensure_method_and_integration env rest_api_id resource_id method lambda_arn).

(** A string without the character [$], such as a function ARN. *)
Fixpoint no_dollar (s : string) : bool :=
  match s with
  | EmptyString => true
  | String a s' => negb (Ascii.eqb a "$") && no_dollar s'
  end.

(** A string without the character [/]. *)
Fixpoint no_slash (s : string) : bool :=
  match s with
  | EmptyString => true
  | String a s' => negb (Ascii.eqb a "/") && no_slash s'
  end.

(** A path segment as [segments] produces them: not empty, without [/]. *)
Definition segment_ok (s : string) : Prop :=
  PyStr.truthy s = true ∧ no_slash s = true.

(** ** Vocabulary of the further properties *)

(** Calls on the resources, methods and integrations of the gateway. *)
Definition gateway_call (c : call) : bool :=
  match c with
  | GetResources _ | CreateResource _ _ _ | GetMethod _ _ _ | PutMethod _ _ _ _
  | GetIntegration _ _ _ | PutIntegration _ _ _ _ _ _ => true
  | _ => false
  end.

(** The world after [news] were appended to the resources, the methods
    replaced by [ms] and [cs] appended to the log of calls. *)
Definition evolve (news : list resource) (ms : gmap (nat * string) method)
    (cs : list call) (w : world) : world :=
  set_calls (w_calls w ++ cs) (set_methods ms (set_resources (w_resources w ++ news) w)).

(** What [ensure_method_and_integration] leaves for a method that was
    [old], and the calls it issues on the way. *)
Definition method_after (env : environ) (arn : string) (old : option method) : method :=
  Method (match old with Some d => authorizationType d | None => "NONE" end)
    (Some (target env arn)).

Definition method_calls (env : environ) (api : string) (rid : nat) (v arn : string)
    (old : option method) : list call :=
  GetMethod api rid v
    :: match old with Some _ => [] | None => [PutMethod api rid v "NONE"] end
    ++ [GetIntegration api rid v;
        PutIntegration api rid v "AWS_PROXY" "POST" (invocation_uri env arn)].

(** The first REST API of a listing that carries a name. *)
Definition first_named (name : string) (apis : list rest_api) : option rest_api :=
  head (filter (fun it => api_name it = name) apis).

(** The [put_integration] calls of a run that resolved its paths to
    [ids]: for each path in turn, the six methods in their fixed order. *)
Definition integration_writes (env : environ) (api arn : string) (ids : list nat)
  : list call :=
  concat
    ((fun id =>
        (fun m => PutIntegration api id m "AWS_PROXY" "POST" (invocation_uri env arn))
          <$> METHODS) <$> ids).

(** Lines 128-133: the region [main] puts into the source ARN of the
    permission. *)
Definition grant_region (env : environ) : string :=
  PyStr.or_str
    (PyStr.or_ (PyStr.or_ (session_region_name env) (AWS_REGION env))
       (AWS_DEFAULT_REGION env))
    "us-east-1".

(** The error [load_paths] raises for a file that does not hold an
    array. *)
Definition config_error (f : file) : exn :=
  match f with
  | Missing => FileNotFoundError
  | Malformed => JSONDecodeError
  | Content _ => ValueError "config.json must be a JSON array of path strings"
  end.

(** Two worlds whose gateways hold the same tree and the same methods. *)
Definition same_gateway (w w' : world) : Prop :=
  Gateway.tree w = Gateway.tree w' ∧ w_methods w = w_methods w'.

(** The gateway can be deployed: some method has an integration. *)
Definition deployable (w : world) : Prop :=
  ∃ k a i, w_methods w !! k = Some (Method a (Some i)).

(** Lines 124-148 when they succeed: the three lookups, logged. *)
Definition preflight (args : arguments) (w : world) : world :=
  log (GetFunction (lambda_name args)) (log GetRestApis (log GetCallerIdentity w)).

(** A node sits where the gateway puts it: the root has no parent and
    the path [/]; any other node comes after its parent, its path part
    is a non-empty string without [/], and its path is its parent's path
    extended by that part. *)
Definition node_ok (t : list resource) (i : nat) (r : resource) : bool :=
  match res_parent r with
  | None => bool_decide (res_path r = "/")
  | Some pid =>
      bool_decide (pid < i) && PyStr.truthy (res_part r) && no_slash (res_part r)
      && bool_decide
           ((fun pr => Gateway.child_path (res_path pr) (res_part r)) <$> t !! pid
            = Some (res_path r))
  end.

(** A resource tree as the gateway keeps it: paths are unique and every
    node sits where the gateway puts it. *)
Definition consistent (t : list resource) : bool :=
  bool_decide (NoDup (res_path <$> t))
  && forallb (fun ir => node_ok t ir.1 ir.2) (imap pair t).

(** The path parts met when following the parent references from the
    resource [id] up to the root, listed from the root down. *)
Fixpoint chain (fuel : nat) (t : list resource) (id : nat) : list string :=
  match fuel with
  | 0 => []
  | S fuel' =>
      match t !! id with
      | Some r =>
          match res_parent r with
          | Some pid => chain fuel' t pid ++ [res_part r]
          | None => []
          end
      | None => []
      end
  end.

(** ** Further sample data *)

(** A [config.json] of the documented shape. *)
Definition array_config (path : string) : file :=
  Content (JArray [JString "/orders"; JString "/orders/{id}"]).

(** A [config.json] that holds the empty array. *)
Definition empty_config (path : string) : file := Content (JArray []).

(** Arguments that name a gateway nobody provisioned. *)
Definition staging_args : arguments :=
  {| arg_module := "orders"; arg_stage := "prod"; arg_api_name := "StagingGateway";
     arg_lambda_name_prefix := "project-"; arg_modules_dir := "modules" |}.

Definition demo_api : rest_api := RestApi "MainApiGateway" "a1b2c3".

Definition demo_arn : string :=
  "arn:aws:lambda:us-east-1:123456789012:function:project-orders".
(** * Properties *)

(** ** Sanity checks of the string primitives *)

Example split_char_root : PyStr.split_char "/" "/" = [EmptyString; EmptyString].
Proof. reflexivity. Qed.

Example split_char_nested :
  PyStr.split_char "/" "/orders/{id}" = [EmptyString; "orders"; "{id}"].
Proof. reflexivity. Qed.

Example split_function_arn :
  PyStr.split ":function:" "arn:aws:lambda:us-east-1:123:function:project-users"
  = ["arn:aws:lambda:us-east-1:123"; "project-users"].
Proof. reflexivity. Qed.

Example replace_region :
  PyStr.replace "${AWS_REGION}" "eu-west-1" "a:${AWS_REGION}:b" = "a:eu-west-1:b".
Proof. reflexivity. Qed.

Example upper_get : PyStr.upper "get" = "GET".
Proof. reflexivity. Qed.

(** ** Strings *)

Section StringFacts.

Lemma app_cons (a : ascii) (s t : string) : String a s +:+ t = String a (s +:+ t).
Proof. reflexivity. Qed.

Lemma app_empty_l (s : string) : EmptyString +:+ s = s.
Proof. reflexivity. Qed.

Lemma app_empty_r (s : string) : s +:+ EmptyString = s.
Proof. induction s as [|a s IH]; [reflexivity|]. by rewrite app_cons, IH. Qed.

Lemma app_assoc_s (s t u : string) : (s +:+ t) +:+ u = s +:+ (t +:+ u).
Proof. induction s as [|a s IH]; [reflexivity|]. by rewrite !app_cons, IH. Qed.

Lemma app_length_s (s t : string) :
  String.length (s +:+ t) = String.length s + String.length t.
Proof. induction s as [|a s IH]; [reflexivity|]. rewrite app_cons. simpl. by rewrite IH. Qed.

Lemma truthy_length (s : string) : PyStr.truthy s = true ↔ 0 < String.length s.
Proof. destruct s; simpl; split; (done || lia). Qed.

Lemma split_char_nonempty (c : ascii) (s : string) : PyStr.split_char c s ≠ [].
Proof.
  induction s as [|a s IH]; simpl; [done|].
  destruct (Ascii.eqb a c); [done|]. by destruct (PyStr.split_char c s).
Qed.

(** Joining the pieces of a split gives the string back. *)
Lemma join_slash_split (s : string) :
  PyStr.join_slash (PyStr.split_char "/" s) = "/" +:+ s.
Proof.
  induction s as [|a s IH]; [reflexivity|].
  simpl. destruct (Ascii.eqb_spec a "/") as [->|Hne].
  - simpl. by rewrite IH.
  - destruct (PyStr.split_char "/" s) as [|h t] eqn:E.
    + by apply split_char_nonempty in E.
    + simpl in *. rewrite !app_cons, !app_empty_l in *. congruence.
Qed.

End StringFacts.

(** ** Uppercasing *)

Section Upper.

Local Arguments String.append : simpl never.

Lemma upper_ascii_idemp (a : ascii) : PyStr.upper_ascii (PyStr.upper_ascii a) = PyStr.upper_ascii a.
Proof.
  destruct a as [[] [] [] [] [] [] [] []]; reflexivity.
Qed.

Lemma upper_ascii_follow (a : ascii) :
  PyStr.utf8_follow a = 0 → PyStr.utf8_follow (PyStr.upper_ascii a) = 0.
Proof. destruct a as [[] [] [] [] [] [] [] []]; vm_compute; done. Qed.

Lemma upper_ascii_cont (a : ascii) : PyStr.utf8_cont (PyStr.upper_ascii a) = PyStr.utf8_cont a.
Proof. destruct a as [[] [] [] [] [] [] [] []]; reflexivity. Qed.

Lemma upper_ascii_no_lower (a : ascii) : is_lower (PyStr.upper_ascii a) = false.
Proof. destruct a as [[] [] [] [] [] [] [] []]; reflexivity. Qed.

Lemma upper_ascii_capital (a : ascii) : capital_of a (PyStr.upper_ascii a).
Proof. destruct a as [[] [] [] [] [] [] [] []]; vm_compute; done. Qed.

Lemma follow_not_cont (a : ascii) k : PyStr.utf8_follow a = S k → PyStr.utf8_cont a = false.
Proof. destruct a as [[] [] [] [] [] [] [] []]; vm_compute; done. Qed.

Lemma follow_not_lower (a : ascii) k : PyStr.utf8_follow a = S k → is_lower a = false.
Proof. destruct a as [[] [] [] [] [] [] [] []]; vm_compute; done. Qed.

Lemma cont_not_lower (a : ascii) : PyStr.utf8_cont a = true → is_lower a = false.
Proof. destruct a as [[] [] [] [] [] [] [] []]; vm_compute; done. Qed.

(** The scan and the function agree: what is carried at the end is
    flushed as it is. *)
Lemma upper_from_scan (s : string) : ∀ p n,
  PyStr.upper_from p n s = (upper_scan p n s).1 +:+ (upper_scan p n s).2.1.
Proof.
  induction s as [|a s IH]; intros p n; [done|].
  cbn [PyStr.upper_from upper_scan].
  destruct n as [|n].
  - destruct (PyStr.utf8_follow a) as [|k]; [|apply IH].
    rewrite IH. by destruct (upper_scan EmptyString 0 s) as [o st].
  - destruct (PyStr.utf8_cont a).
    + destruct n as [|n]; [|apply IH].
      rewrite IH. destruct (upper_scan EmptyString 0 s) as [o st]. cbn.
      by rewrite app_assoc_s.
    + destruct (PyStr.utf8_follow a) as [|k].
      * rewrite IH. destruct (upper_scan EmptyString 0 s) as [o st]. cbn.
        by rewrite app_assoc_s.
      * rewrite IH. destruct (upper_scan _ (S k) s) as [o st]. cbn.
        by rewrite app_assoc_s.
Qed.

(** Scanning a string in two parts. *)
Lemma upper_from_app (s t : string) : ∀ p n,
  PyStr.upper_from p n (s +:+ t)
  = (upper_scan p n s).1
    +:+ PyStr.upper_from (upper_scan p n s).2.1 (upper_scan p n s).2.2 t.
Proof.
  induction s as [|a s IH]; intros p n; [done|].
  rewrite app_cons. cbn [PyStr.upper_from upper_scan].
  destruct n as [|n].
  - destruct (PyStr.utf8_follow a) as [|k]; [|apply IH].
    rewrite IH. by destruct (upper_scan EmptyString 0 s) as [o st].
  - destruct (PyStr.utf8_cont a).
    + destruct n as [|n]; [|apply IH].
      rewrite IH. destruct (upper_scan EmptyString 0 s) as [o st]. cbn.
      by rewrite app_assoc_s.
    + destruct (PyStr.utf8_follow a) as [|k].
      * rewrite IH. destruct (upper_scan EmptyString 0 s) as [o st]. cbn.
        by rewrite app_assoc_s.
      * rewrite IH. destruct (upper_scan _ (S k) s) as [o st]. cbn.
        by rewrite app_assoc_s.
Qed.

Lemma assoc_elem (k v : string) (l : list (string * string)) :
  PyStr.assoc k l = Some v → (k, v) ∈ l.
Proof.
  induction l as [|[k' v'] l IH]; [done|]. simpl.
  destruct (String.eqb k k') eqn:E.
  - intros [= ->]. apply String.eqb_eq in E as ->. left.
  - intros H. right. by apply IH.
Qed.

(** Every uppercase form of the table is settled text. *)
Lemma upper_table_settled :
  forallb (λ kv, settled_text kv.2) PyStr.upper_table = true.
Proof. vm_compute. reflexivity. Qed.

Lemma upper_char_cases (c : string) :
  PyStr.upper_char c = c ∨ settled_text (PyStr.upper_char c) = true.
Proof.
  unfold PyStr.upper_char. destruct (PyStr.assoc c PyStr.upper_table) as [v|] eqn:E; [|by left].
  right. apply assoc_elem in E.
  pose proof upper_table_settled as H. rewrite forallb_forall in H.
  apply (H (c, v)). by apply list_elem_of_In.
Qed.

Lemma settled_text_app (v t : string) :
  settled_text v = true → PyStr.upper (v +:+ t) = v +:+ PyStr.upper t.
Proof.
  unfold settled_text. rewrite !andb_true_iff, bool_decide_eq_true.
  intros [[Hv _] _]. unfold PyStr.upper. by rewrite upper_from_app, Hv.
Qed.

Lemma under_way_snoc (p : string) (n : nat) (a : ascii) :
  under_way p (S (S n)) → PyStr.utf8_cont a = true →
  under_way (p +:+ String a EmptyString) (S n).
Proof.
  destruct p as [|b q]; [done|]. rewrite app_cons. cbn [under_way].
  intros (_ & Hf & Hc) Ha. split_and!; [lia| |].
  - rewrite Hf. clear. induction q as [|c q IH]; simpl in *; lia.
  - clear -Hc Ha. induction q as [|c q IH]; simpl in *.
    + by repeat constructor.
    + apply Forall_cons in Hc as [? ?]. constructor; [done|by apply IH].
Qed.

(** The scan of a character under way ends where it was. *)
Lemma scan_conts (q : string) : ∀ p n,
  Forall (λ b, PyStr.utf8_cont b = true) (String.list_ascii_of_string q) →
  upper_scan p (String.length q + S n) q = (EmptyString, (p +:+ q, S n)).
Proof.
  induction q as [|b q IH]; intros p n Hq; simpl.
  - by rewrite app_empty_r.
  - apply Forall_cons in Hq as [Hb Hq]. rewrite Hb.
    replace (String.length q + S n) with (S (String.length q + n)) by lia.
    replace (S (String.length q + n)) with (String.length q + S n) by lia.
    rewrite IH by done. by rewrite app_assoc_s.
Qed.

Lemma scan_under_way (p : string) (n : nat) :
  under_way p n → upper_scan EmptyString 0 p = (EmptyString, (p, n)).
Proof.
  destruct p as [|a q]; [by intros ->|].
  intros (Hn & Hf & Hc). cbn [upper_scan]. rewrite Hf.
  destruct n as [|n]; [lia|].
  replace (String.length q + S n) with (S (String.length q + n)) by lia.
  replace (S (String.length q + n)) with (String.length q + S n) by lia.
  by rewrite scan_conts.
Qed.

Lemma upper_cut_short (p : string) (n : nat) (t : string) :
  under_way p n → no_cont_first t → PyStr.upper (p +:+ t) = p +:+ PyStr.upper t.
Proof.
  intros Hp Ht. unfold PyStr.upper. rewrite upper_from_app, (scan_under_way p n Hp).
  cbn [fst snd]. rewrite app_empty_l.
  destruct p as [|b q]; [by rewrite Hp|]. destruct Hp as (Hn & _).
  destruct n as [|n]; [lia|].
  destruct t as [|a t]; [by rewrite app_empty_r|].
  cbn [no_cont_first] in Ht. cbn [PyStr.upper_from]. by rewrite Ht.
Qed.

Lemma upper_whole (p : string) (a : ascii) (t : string) :
  under_way p 1 → PyStr.utf8_cont a = true →
  PyStr.upper ((p +:+ String a EmptyString) +:+ t)
  = PyStr.upper_char (p +:+ String a EmptyString) +:+ PyStr.upper t.
Proof.
  intros Hp Ha. unfold PyStr.upper. rewrite app_assoc_s, upper_from_app.
  rewrite (scan_under_way p 1 Hp). cbn [fst snd]. rewrite app_empty_l.
  rewrite app_cons, app_empty_l. cbn [PyStr.upper_from]. by rewrite Ha.
Qed.

Lemma settled_text_first (v t : string) :
  settled_text v = true → no_cont_first (v +:+ t).
Proof.
  unfold settled_text. rewrite !andb_true_iff. intros [[_ Hv] _].
  destruct v as [|a v]; [done|]. rewrite app_cons. simpl.
  by apply negb_true_iff in Hv.
Qed.

Lemma under_way_lead (b : ascii) (q : string) (n : nat) :
  under_way (String b q) n → PyStr.utf8_cont b = false.
Proof.
  intros (Hn & Hf & _). apply (follow_not_cont b (pred (PyStr.utf8_follow b))). lia.
Qed.

(** The output never opens with a continuation byte unless the input
    does. *)
Lemma upper_from_first (s : string) : ∀ p n,
  under_way p n → (n = 0 → no_cont_first s) → no_cont_first (PyStr.upper_from p n s).
Proof.
  induction s as [|a s IH]; intros p n Hp Hs.
  - simpl. destruct p as [|b q]; [done|]. simpl. by eapply under_way_lead.
  - cbn [PyStr.upper_from]. destruct n as [|n].
    + specialize (Hs eq_refl). cbn [no_cont_first] in Hs.
      destruct (PyStr.utf8_follow a) as [|k] eqn:Hf.
      * simpl. by rewrite upper_ascii_cont.
      * apply IH; [|done]. cbn. split_and!; [lia|lia|constructor].
    + destruct p as [|b q]; [done|].
      pose proof (under_way_lead b q _ Hp) as Hb.
      destruct (PyStr.utf8_cont a) eqn:Ha.
      * destruct n as [|n].
        -- destruct (upper_char_cases (String b q +:+ String a EmptyString)) as [->|Hv].
           ++ by rewrite !app_cons.
           ++ by apply settled_text_first.
        -- apply IH; [|done]. by apply under_way_snoc.
      * by rewrite app_cons.
Qed.

(** [PyStr.upper] leaves its own output as it is. *)
Lemma upper_from_idemp (s : string) : ∀ p n,
  under_way p n → PyStr.upper (PyStr.upper_from p n s) = PyStr.upper_from p n s.
Proof.
  induction s as [|a s IH]; intros p n Hp.
  - simpl. rewrite <- (app_empty_r p) at 1.
    rewrite (upper_cut_short p n EmptyString Hp I). by rewrite app_empty_r.
  - assert (PyStr.upper
              match PyStr.utf8_follow a with
              | 0 => String (PyStr.upper_ascii a) (PyStr.upper_from EmptyString 0 s)
              | S k => PyStr.upper_from (String a EmptyString) (S k) s
              end
            = match PyStr.utf8_follow a with
              | 0 => String (PyStr.upper_ascii a) (PyStr.upper_from EmptyString 0 s)
              | S k => PyStr.upper_from (String a EmptyString) (S k) s
              end) as Hfresh.
    { destruct (PyStr.utf8_follow a) as [|k] eqn:Hf.
      - unfold PyStr.upper at 1. cbn [PyStr.upper_from].
        rewrite (upper_ascii_follow a Hf), upper_ascii_idemp.
        f_equal. by apply (IH EmptyString 0).
      - apply IH. cbn. split_and!; [lia|lia|constructor]. }
    cbn [PyStr.upper_from]. destruct n as [|n]; [exact Hfresh|].
    destruct (PyStr.utf8_cont a) eqn:Ha.
    + destruct n as [|n].
      * destruct (upper_char_cases (p +:+ String a EmptyString)) as [Hsame|Hv].
        -- rewrite Hsame. rewrite (upper_whole p a _ Hp Ha), Hsame.
           f_equal. by apply (IH EmptyString 0).
        -- rewrite (settled_text_app _ _ Hv). f_equal. by apply (IH EmptyString 0).
      * apply IH. by apply under_way_snoc.
    + rewrite (upper_cut_short p (S n) _ Hp); [by rewrite Hfresh|].
      destruct (PyStr.utf8_follow a) as [|k] eqn:Hf.
      * simpl. by rewrite upper_ascii_cont.
      * apply upper_from_first; [|done]. cbn. split_and!; [lia|lia|constructor].
Qed.

Lemma upper_idemp (s : string) : PyStr.upper (PyStr.upper s) = PyStr.upper s.
Proof. by apply (upper_from_idemp s EmptyString 0). Qed.

Lemma no_lower_app (s t : string) :
  no_lower (s +:+ t) = no_lower s && no_lower t.
Proof.
  induction s as [|a s IH]; [done|]. rewrite app_cons. simpl.
  by rewrite IH, andb_assoc.
Qed.

Lemma under_way_no_lower (p : string) (n : nat) : under_way p n → no_lower p = true.
Proof.
  destruct p as [|a q]; [done|]. intros (Hn & Hf & Hc). simpl.
  rewrite (follow_not_lower a (pred (PyStr.utf8_follow a))) by lia. simpl.
  clear -Hc. induction q as [|b q IH]; [done|]. simpl in *.
  apply Forall_cons in Hc as [Hb Hc]. by rewrite (cont_not_lower b Hb), IH.
Qed.

(** No lowercase ASCII letter is left in the output. *)
Lemma upper_from_no_lower (s : string) : ∀ p n,
  under_way p n → no_lower (PyStr.upper_from p n s) = true.
Proof.
  induction s as [|a s IH]; intros p n Hp.
  - by eapply under_way_no_lower.
  - assert (no_lower
              match PyStr.utf8_follow a with
              | 0 => String (PyStr.upper_ascii a) (PyStr.upper_from EmptyString 0 s)
              | S k => PyStr.upper_from (String a EmptyString) (S k) s
              end = true) as Hfresh.
    { destruct (PyStr.utf8_follow a) as [|k] eqn:Hf.
      - simpl. by rewrite upper_ascii_no_lower, (IH EmptyString 0).
      - apply IH. cbn. split_and!; [lia|lia|constructor]. }
    cbn [PyStr.upper_from]. destruct n as [|n]; [exact Hfresh|].
    destruct (PyStr.utf8_cont a) eqn:Ha.
    + destruct n as [|n]; [|apply IH; by apply under_way_snoc].
      rewrite no_lower_app, (IH EmptyString 0) by done. rewrite andb_true_r.
      destruct (upper_char_cases (p +:+ String a EmptyString)) as [->|Hv].
      * rewrite no_lower_app, (under_way_no_lower p 1 Hp). simpl.
        by rewrite (cont_not_lower a Ha).
      * unfold settled_text in Hv. by rewrite !andb_true_iff in Hv; destruct Hv.
    + by rewrite no_lower_app, (under_way_no_lower p (S n) Hp), Hfresh.
Qed.

Lemma upper_no_lower (s : string) : no_lower (PyStr.upper s) = true.
Proof. by apply (upper_from_no_lower s EmptyString 0). Qed.

(** On ASCII text [PyStr.upper] replaces each lowercase letter by its capital
    and nothing else. *)
Lemma upper_ascii_text (s : string) :
  is_ascii s = true → capitals_of s (PyStr.upper s) ∧ is_ascii (PyStr.upper s) = true.
Proof.
  unfold PyStr.upper. induction s as [|a s IH]; [done|]. simpl.
  intros [Ha Hs]%andb_true_iff.
  assert (PyStr.utf8_follow a = 0) as ->.
  { unfold PyStr.utf8_follow. apply Nat.ltb_lt in Ha.
    destruct (Nat.ltb_spec (nat_of_ascii a) 192); [done|lia]. }
  destruct (IH Hs) as [IH1 IH2]. simpl. split_and!; [apply upper_ascii_capital|done|].
  rewrite IH2, andb_true_r.
  clear -Ha. destruct a as [[] [] [] [] [] [] [] []]; vm_compute in Ha |- *; done.
Qed.

(** [upper] on a character of the table gives its uppercase form. *)
Lemma upper_table_applied (c v : string) :
  (c, v) ∈ PyStr.upper_table → PyStr.upper c = v.
Proof.
  intros Hin.
  assert (forallb (λ kv, bool_decide (PyStr.upper kv.1 = kv.2)) PyStr.upper_table = true)
    as H by (vm_compute; reflexivity).
  rewrite forallb_forall in H. apply list_elem_of_In in Hin.
  pose proof (H (c, v) Hin) as Hb. by apply bool_decide_eq_true in Hb.
Qed.

End Upper.

Example upper_strasse : PyStr.upper "straße" = "STRASSE".
Proof. vm_compute. reflexivity. Qed.

Example upper_mixed : PyStr.upper "déjà-vu ǆ ﬁ" = "DÉJÀ-VU Ǆ FI".
Proof. vm_compute. reflexivity. Qed.

(** ** The fetched dictionary *)

Section Index.

Lemma concat_pages_go {A} (limit k : nat) (cur l : list A) :
  concat (pages_go limit k cur l) = cur ++ l.
Proof.
  revert k cur. induction l as [|x l IH]; intros k cur; simpl.
  - destruct cur; simpl; by rewrite ?app_nil_r.
  - destruct k; simpl; rewrite IH; [done|]. by rewrite <- app_assoc.
Qed.

Lemma concat_paginate {A} (limit : nat) (l : list A) : concat (paginate limit l) = l.
Proof. unfold paginate. by rewrite concat_pages_go. Qed.

Lemma fold_left_concat {A B} (f : A → B → A) (ls : list (list B)) (a : A) :
  fold_left (fun acc l => fold_left f l acc) ls a = fold_left f (concat ls) a.
Proof.
  revert a. induction ls as [|l ls IH]; intros a; simpl; [done|].
  by rewrite fold_left_app, IH.
Qed.

Lemma index_unfold (rs : list resource) :
  index rs =
  fold_left (fun m res => <[item_path res := item_id res]> m) (Gateway.items rs) ∅.
Proof. unfold index, fetch. by rewrite fold_left_concat, concat_paginate. Qed.

Lemma index_nil : index [] = ∅.
Proof. by rewrite index_unfold. Qed.

Lemma index_snoc (rs : list resource) (r : resource) :
  index (rs ++ [r]) = <[res_path r := length rs]> (index rs).
Proof.
  rewrite !index_unfold. unfold Gateway.items.
  rewrite imap_app, fold_left_app. simpl. by rewrite Nat.add_0_r.
Qed.

Lemma index_lookup_Some (rs : list resource) (p : string) (i : nat) :
  index rs !! p = Some i → ∃ r, rs !! i = Some r ∧ res_path r = p.
Proof.
  induction rs as [|r rs IH] using rev_ind.
  - by rewrite index_nil, lookup_empty.
  - rewrite index_snoc. destruct (decide (res_path r = p)) as [<-|Hne].
    + rewrite lookup_insert_eq. intros [= <-]. exists r.
      by rewrite list_lookup_middle.
    + rewrite lookup_insert_ne by done. intros (r' & Hr' & Hp)%IH.
      exists r'. split; [|done]. by apply lookup_app_l_Some.
Qed.

Lemma index_lookup_None (rs : list resource) (p : string) :
  index rs !! p = None ↔ p ∉ res_path <$> rs.
Proof.
  induction rs as [|r rs IH] using rev_ind.
  - rewrite index_nil, lookup_empty. simpl. split; [|done]. intros _. apply not_elem_of_nil.
  - rewrite index_snoc, fmap_app, not_elem_of_app. simpl.
    rewrite list_elem_of_singleton. destruct (decide (res_path r = p)) as [<-|Hne].
    + rewrite lookup_insert_eq. split; [done|]. by intros [_ []].
    + rewrite lookup_insert_ne by done. rewrite IH.
      split; [intros ?; split; [done|congruence] | by intros [? _]].
Qed.

Lemma index_lookup_lt (rs : list resource) (p : string) (i : nat) :
  index rs !! p = Some i → i < length rs.
Proof. intros (r & Hr & _)%index_lookup_Some. by eapply lookup_lt_Some. Qed.

(** The root is always listed. *)
Lemma tree_index_root (w : world) : is_Some (tree_index w !! "/").
Proof.
  destruct (tree_index w !! "/") eqn:E; [by eexists|].
  apply index_lookup_None in E. exfalso. apply E.
  unfold Gateway.tree. simpl. apply list_elem_of_here.
Qed.

End Index.

(** ** Worlds *)

Section Worlds.

Lemma grow_nil (w : world) : grow [] [] w = w.
Proof. destruct w. unfold grow, set_calls, set_resources. simpl. by rewrite !app_nil_r. Qed.

Lemma grow_grow (n1 n2 : list resource) (c1 c2 : list call) (w : world) :
  grow n2 c2 (grow n1 c1 w) = grow (n1 ++ n2) (c1 ++ c2) w.
Proof. unfold grow, set_calls, set_resources. simpl. by rewrite !app_assoc. Qed.

Lemma log_grow (c : call) (w : world) : log c w = grow [] [c] w.
Proof. destruct w. unfold log, grow, set_calls, set_resources. simpl. by rewrite app_nil_r. Qed.

Lemma tree_grow (news : list resource) (cs : list call) (w : world) :
  Gateway.tree (grow news cs w) = Gateway.tree w ++ news.
Proof. reflexivity. Qed.

Lemma tree_index_grow (news : list resource) (cs : list call) (w : world) :
  tree_index (grow news cs w) = index (Gateway.tree w ++ news).
Proof. reflexivity. Qed.

End Worlds.

(** ** The resource tree resolver *)

Section Resolver.

Lemma filter_ext_in {A} (P Q : A → Prop) `{!∀ x, Decision (P x)}
    `{!∀ x, Decision (Q x)} (l : list A) :
  (∀ x, x ∈ l → (P x ↔ Q x)) → filter P l = filter Q l.
Proof.
  induction l as [|a l IH]; intros Hpq; [done|].
  rewrite !filter_cons.
  assert (P a ↔ Q a) as Ha by (apply Hpq; left).
  rewrite IH by (intros x Hx; apply Hpq; by right).
  destruct (decide (P a)), (decide (Q a)); tauto || done.
Qed.

Lemma steps_child_longer (b : string) (segs : list string) x :
  x ∈ steps b segs → String.length b < String.length (step_path x).
Proof.
  revert b. induction segs as [|seg segs IH]; intros b; simpl.
  - by intros ?%elem_of_nil.
  - intros [->|Hx]%elem_of_cons.
    + simpl. rewrite !app_length_s. simpl. lia.
    + apply IH in Hx. rewrite !app_length_s in Hx. simpl in Hx. lia.
Qed.

Lemma steps_app (b : string) (l1 l2 : list string) :
  steps b (l1 ++ l2) = steps b l1 ++ steps (b +:+ PyStr.join_slash l1) l2.
Proof.
  revert b. induction l1 as [|x l1 IH]; intros b; simpl.
  - by rewrite app_empty_r.
  - rewrite IH. by rewrite !app_assoc_s.
Qed.

Lemma ensure_segments_cons api seg segs st w :
  ensure_segments api (seg :: segs) st w =
  let child := built_path st +:+ "/" +:+ seg in
  match resources st !! child with
  | Some id => ensure_segments api segs (Locals (Some id) child (resources st)) w
  | None =>
      match Gateway.create_resource api (parent_id st) seg w with
      | (Ok created, w') =>
          ensure_segments api segs
            (Locals (Some (item_id created)) child
               (<[child := item_id created]> (resources st))) w'
      | (Raise e, w') => (Raise e, w')
      end
  end.
Proof.
  simpl. destruct (built_path st) as [|a b]; simpl; rewrite ?app_empty_l;
    destruct (resources st !! _); reflexivity.
Qed.

Lemma child_path_parent (b seg : string) :
  b ≠ "/" → Gateway.child_path (parent_path b) seg = b +:+ "/" +:+ seg.
Proof.
  intros Hb. unfold parent_path. destruct b as [|a b]; simpl; [reflexivity|].
  unfold Gateway.child_path. by rewrite decide_False.
Qed.

Lemma has_path_index (p : string) (rs : list resource) :
  Gateway.has_path p rs = false ↔ index rs !! p = None.
Proof.
  unfold Gateway.has_path. rewrite index_lookup_None.
  split; [by intros ?%bool_decide_eq_false | by intros; apply bool_decide_eq_false].
Qed.

Lemma create_resource_ok api pid part w r :
  Gateway.tree w !! pid = Some r →
  tree_index w !! Gateway.child_path (res_path r) part = None →
  Gateway.create_resource api (Some pid) part w
  = (Ok (Item (length (Gateway.tree w)) (Gateway.child_path (res_path r) part) (Some pid)),
     grow [Resource (Gateway.child_path (res_path r) part) part (Some pid)]
       [CreateResource api (Some pid) part] w).
Proof.
  intros Hr Hfree. unfold Gateway.create_resource.
  change (Gateway.tree (log _ w)) with (Gateway.tree w). rewrite Hr.
  apply has_path_index in Hfree. rewrite Hfree. reflexivity.
Qed.

Lemma loop_inv_found st w seg id :
  loop_inv st w → PyStr.truthy seg = true →
  resources st !! (built_path st +:+ "/" +:+ seg) = Some id →
  loop_inv (Locals (Some id) (built_path st +:+ "/" +:+ seg) (resources st)) w.
Proof.
  intros (Hres & Hpar & Hsome & Hne) Hseg Hid. repeat split; simpl.
  - done.
  - unfold parent_path.
    assert (PyStr.truthy (built_path st +:+ "/" +:+ seg) = true) as ->.
    { apply truthy_length. rewrite !app_length_s. simpl. lia. }
    by rewrite <- Hres, Hid.
  - by eexists.
  - intros Heq. apply (f_equal String.length) in Heq.
    rewrite !app_length_s in Heq. simpl in Heq.
    apply truthy_length in Hseg. lia.
Qed.

Lemma ensure_segments_spec api segs : ∀ st w,
  loop_inv st w → Forall (λ s, PyStr.truthy s = true) segs →
  ∃ st' news,
    let todo := missing (resources st) (steps (built_path st) segs) in
    let creates := create_call api (resources st') <$> todo in
    ensure_segments api segs st w = (Ok st', grow news creates w)
    ∧ news = created_node (resources st') <$> todo
    ∧ loop_inv st' (grow news creates w)
    ∧ resources st ⊆ resources st'
    ∧ built_path st' = built_path st +:+ PyStr.join_slash segs
    ∧ (∀ x, x ∈ steps (built_path st) segs → is_Some (resources st' !! step_path x)).
Proof.
  induction segs as [|seg segs IH]; intros st w Hinv Hsegs.
  - exists st, []. simpl. rewrite grow_nil, app_empty_r.
    split_and!; try done. intros x Hx. by apply elem_of_nil in Hx.
  - apply Forall_cons in Hsegs as [Hseg Hsegs].
    rewrite ensure_segments_cons. cbv zeta.
    set (child := built_path st +:+ "/" +:+ seg).
    destruct (resources st !! child) as [id|] eqn:E.
    + destruct (IH (Locals (Some id) child (resources st)) w)
        as (st' & news & Hrun & Hnews & Hinv' & Hsub & Hbuilt & Hpre);
        [by apply loop_inv_found|done|].
      simpl in *. exists st', news.
      unfold missing in *. simpl.
      rewrite filter_cons_False by (simpl; fold child; by rewrite E).
      split_and!; try done.
      * rewrite Hbuilt. unfold child. by rewrite !app_assoc_s.
      * intros x [->|Hx]%elem_of_cons; [|by apply Hpre].
        simpl. fold child. exists id. by eapply lookup_weaken.
    + destruct Hinv as (Hres & Hpar & [pid Hpid] & Hne).
      assert (resources st !! parent_path (built_path st) = Some pid) as Hpp by congruence.
      destruct (index_lookup_Some (Gateway.tree w) (parent_path (built_path st)) pid)
        as (r & Hr & Hrp); [unfold tree_index in Hres; congruence|].
      assert (Gateway.child_path (res_path r) seg = child) as Hchild.
      { rewrite Hrp. by apply child_path_parent. }
      rewrite Hpid.
      rewrite (create_resource_ok _ _ _ _ r) by (done || (rewrite Hchild; congruence)).
      rewrite Hchild. cbn [item_id].
      set (nid := length (Gateway.tree w)).
      set (w1 := grow _ _ w).
      set (st1 := Locals _ _ _).
      assert (PyStr.truthy child = true) as Hct.
      { apply truthy_length. unfold child. rewrite !app_length_s. simpl. lia. }
      assert (loop_inv st1 w1) as Hinv1.
      { split_and!.
        - unfold st1, w1, tree_index. cbn [resources]. rewrite tree_grow, index_snoc.
          cbn [res_path]. unfold tree_index in Hres. by rewrite Hres.
        - unfold st1, w1, tree_index. cbn [parent_id built_path].
          rewrite tree_grow, index_snoc. cbn [res_path].
          unfold parent_path. rewrite Hct. by rewrite lookup_insert_eq.
        - by eexists.
        - cbn [st1 built_path]. intros Heq. apply (f_equal String.length) in Heq.
          unfold child in Heq. rewrite !app_length_s in Heq. simpl in Heq.
          apply truthy_length in Hseg. lia. }
      destruct (IH st1 w1 Hinv1 Hsegs)
        as (st' & news & Hrun & Hnews & Hinv' & Hsub & Hbuilt & Hpre).
      cbv zeta in *. cbn [st1 resources built_path] in *.
      assert (missing (<[child:=nid]> (resources st)) (steps child segs)
              = missing (resources st) (steps child segs)) as Hmiss.
      { apply filter_ext_in. intros x Hx%steps_child_longer.
        rewrite lookup_insert_ne; [done|]. intros ->. lia. }
      rewrite Hmiss in *.
      assert (resources st ⊆ resources st') as Hsub'.
      { etrans; [|exact Hsub]. by apply insert_subseteq. }
      assert (resources st' !! parent_path (built_path st) = Some pid) as Hpp'
        by (by eapply lookup_weaken).
      exists st', (Resource child seg (Some pid) :: news).
      assert (missing (resources st) (steps (built_path st) (seg :: segs))
              = Step (parent_path (built_path st)) seg child
                  :: missing (resources st) (steps child segs)) as ->.
      { unfold missing. cbn [steps]. by rewrite filter_cons_True. }
      rewrite !fmap_cons.
      replace (create_call api (resources st')
                 (Step (parent_path (built_path st)) seg child))
        with (CreateResource api (Some pid) seg)
        by (unfold create_call; cbn [step_parent step_seg]; by rewrite Hpp').
      replace (created_node (resources st')
                 (Step (parent_path (built_path st)) seg child))
        with (Resource child seg (Some pid))
        by (unfold created_node; cbn [step_parent step_seg step_path]; by rewrite Hpp').
      change (grow (?r :: news) (?c :: ?cs) w) with (grow ([r] ++ news) ([c] ++ cs) w).
      rewrite <- grow_grow. fold w1.
      split_and!; try done.
      * by rewrite <- Hnews.
      * rewrite Hbuilt. unfold child. cbn [PyStr.join_slash]. by rewrite !app_assoc_s.
      * intros x [->|Hx]%elem_of_cons; [|by apply Hpre].
        cbn [step_path]. exists nid. eapply lookup_weaken; [|exact Hsub].
        by rewrite lookup_insert_eq.
Qed.

Lemma segments_truthy (p : string) : Forall (λ s, PyStr.truthy s = true) (segments p).
Proof.
  apply Forall_forall. intros s Hs. unfold segments in Hs.
  by apply list_elem_of_filter in Hs as [? _].
Qed.

Lemma ensure_path_unfold api p w :
  ensure_path api p w =
  match tree_index w !! p with
  | Some id => (Ok id, log (GetResources api) w)
  | None =>
      match ensure_segments api (segments p)
              (Locals (tree_index w !! "/") EmptyString (tree_index w))
              (log (GetResources api) w) with
      | (Ok st, w') =>
          match resources st !! p with
          | Some id => (Ok id, w')
          | None => (Raise (KeyError p), w')
          end
      | (Raise e, w') => (Raise e, w')
      end
  end.
Proof.
  unfold ensure_path, bind, Gateway.get_resources, tree_index, index.
  destruct (fetch _ !! p); [reflexivity|].
  destruct (ensure_segments _ _ _ _) as [[st|e] w']; [|reflexivity].
  by destruct (resources st !! p).
Qed.

Lemma loop_inv_init api (w : world) :
  loop_inv (Locals (tree_index w !! "/") EmptyString (tree_index w))
    (log (GetResources api) w).
Proof.
  split_and!; try done. cbn [parent_id]. apply tree_index_root.
Qed.

(** The path is already listed: one read, nothing else. *)
Lemma ensure_path_present api p w id :
  tree_index w !! p = Some id →
  ensure_path api p w = (Ok id, log (GetResources api) w).
Proof. intros H. by rewrite ensure_path_unfold, H. Qed.

(** The path is not listed: the walk creates exactly the partial paths
    that are missing, each under the resource listed for its parent
    path, and the outcome is decided by a final lookup. *)
Lemma ensure_path_absent api p w :
  tree_index w !! p = None →
  ∃ news w',
    let todo := missing (tree_index w) (steps EmptyString (segments p)) in
    w' = grow news
           (GetResources api
              :: (create_call api (tree_index w') <$> todo)) w
    ∧ news = created_node (tree_index w') <$> todo
    ∧ ensure_path api p w
      = (match tree_index w' !! p with
         | Some id => Ok id
         | None => Raise (KeyError p)
         end, w')
    ∧ tree_index w ⊆ tree_index w'
    ∧ (∀ x, x ∈ steps EmptyString (segments p) → is_Some (tree_index w' !! step_path x)).
Proof.
  intros Hp. rewrite ensure_path_unfold, Hp.
  destruct (ensure_segments_spec api (segments p) _ _ (loop_inv_init api w)
              (segments_truthy p))
    as (st' & news & Hrun & Hnews & Hinv' & Hsub & _ & Hpre).
  cbv zeta in *. cbn [resources built_path] in *.
  destruct Hinv' as (Hres & _). rewrite tree_index_grow in Hres.
  change (Gateway.tree (log _ w)) with (Gateway.tree w) in Hres.
  rewrite Hrun, log_grow, grow_grow. cbn [app].
  exists news. eexists. rewrite !tree_index_grow, <- Hres.
  split_and!; [reflexivity|done| |done|done].
  by destruct (resources st' !! p).
Qed.

Lemma steps_last (b : string) (segs : list string) :
  segs ≠ [] → ∃ x, x ∈ steps b segs ∧ step_path x = b +:+ PyStr.join_slash segs.
Proof.
  revert b. induction segs as [|s segs IH]; intros b Hne; [done|].
  destruct segs as [|s' segs].
  - eexists. split; [left|]. simpl. by rewrite app_empty_r.
  - destruct (IH (b +:+ "/" +:+ s)) as (x & Hx & Hx2); [done|].
    exists x. split; [by right|]. rewrite Hx2.
    change (PyStr.join_slash (s :: s' :: segs))
      with ("/" +:+ s +:+ PyStr.join_slash (s' :: segs)).
    by rewrite !app_assoc_s.
Qed.

Lemma filter_truthy_all (l : list string) :
  forallb PyStr.truthy l = true → filter (λ s, PyStr.truthy s = true) l = l.
Proof.
  induction l as [|s l IH]; [done|]. simpl.
  intros [Hs Hl]%andb_true_iff. rewrite filter_cons_True by done. by rewrite IH.
Qed.

Lemma well_formed_segments (P : string) :
  well_formed_path P = true →
  segments P ≠ [] ∧ PyStr.join_slash (segments P) = P.
Proof.
  destruct P as [|c rest]; [done|]. unfold well_formed_path.
  intros [Hc Hall]%andb_true_iff. apply Ascii.eqb_eq in Hc as ->.
  assert (segments (String "/" rest) = PyStr.split_char "/" rest) as ->.
  { unfold segments. simpl. rewrite filter_cons_False by done.
    by apply filter_truthy_all. }
  split; [apply split_char_nonempty|]. by rewrite join_slash_split.
Qed.

End Resolver.

Section ResolverTheorems.

Lemma issued_grow {A} (m : M A) (w : world) r news cs :
  m w = (r, grow news cs w) → issued m w = cs.
Proof.
  intros H. unfold issued. rewrite H. simpl. by rewrite drop_app_length.
Qed.

Lemma ancestors_listed_spec (w : world) (p : string) (id : nat) :
  ancestors_listed w = true → tree_index w !! p = Some id →
  ∀ x, x ∈ steps EmptyString (segments p) → is_Some (tree_index w !! step_path x).
Proof.
  intros Hanc Hp x Hx. unfold ancestors_listed in Hanc.
  destruct (index_lookup_Some _ _ _ Hp) as (r & Hr & <-).
  rewrite forallb_forall in Hanc.
  specialize (Hanc r ltac:(apply list_elem_of_In; by eapply list_elem_of_lookup_2)).
  rewrite forallb_forall in Hanc.
  specialize (Hanc (step_path x)). eapply bool_decide_eq_true_1, Hanc.
  apply list_elem_of_In. unfold partial_paths. by apply list_elem_of_fmap_2.
Qed.

Lemma missing_nil (m : gmap string nat) (l : list step) :
  (∀ x, x ∈ l → is_Some (m !! step_path x)) → missing m l = [].
Proof.
  induction l as [|a l IH]; intros H; [done|]. unfold missing.
  rewrite filter_cons_False.
  - apply IH. intros x Hx. apply H. by right.
  - destruct (H a ltac:(left)) as [i Hi]. by rewrite Hi.
Qed.

Lemma missing_subset (m : gmap string nat) (l : list step) x :
  x ∈ missing m l → x ∈ l.
Proof. unfold missing. by intros [_ ?]%list_elem_of_filter. Qed.

Lemma steps_parent (b : string) (segs : list string) x :
  x ∈ steps b segs →
  step_parent x = parent_path b
  ∨ ∃ y, y ∈ steps b segs ∧ step_parent x = step_path y.
Proof.
  revert b. induction segs as [|seg segs IH]; intros b; simpl.
  - by intros ?%elem_of_nil.
  - intros [->|Hx]%elem_of_cons; [by left|]. right.
    destruct (IH _ Hx) as [Hp|(y & Hy & Hp)].
    + eexists. split; [left|]. rewrite Hp. unfold parent_path.
      assert (PyStr.truthy (b +:+ "/" +:+ seg) = true) as ->; [|done].
      apply truthy_length. rewrite !app_length_s. simpl. lia.
    + exists y. split; [by right|done].
Qed.

(** C2. For a desired path [P] that begins with [/] and has no empty
    segment, [ensure_path] on a gateway tree (a listing in which the
    partial paths of every listed path are listed; the root always is)
    succeeds and returns the id the tree lists for [P] afterwards; every
    partial path of [P] is listed afterwards; the calls it issues are one
    listing followed by one [create_resource] per partial path that was
    not listed, in order of increasing depth, each with the id listed for
    the path one segment shorter (an existing resource or the one created
    just before) as [parentId]; and the tree grows by exactly those
    nodes. *)
Theorem ensure_path_completes (api P : string) (w : world) :
  well_formed_path P = true →
  ancestors_listed w = true →
  ∃ id : nat,
    let w' := (ensure_path api P w).2 in
    let todo := missing (tree_index w) (steps EmptyString (segments P)) in
    (ensure_path api P w).1 = Ok id
    ∧ tree_index w' !! P = Some id
    ∧ Forall (λ q, is_Some (tree_index w' !! q)) (partial_paths P)
    ∧ Forall (λ x, is_Some (tree_index w' !! step_parent x)) todo
    ∧ issued (ensure_path api P) w
      = GetResources api
          :: (create_call api (tree_index w') <$> todo)
    ∧ Gateway.tree w'
      = Gateway.tree w
          ++ (created_node (tree_index w') <$> todo).
Proof.
  intros HP Hanc. destruct (well_formed_segments P HP) as [Hne Hjoin].
  destruct (tree_index w !! P) as [id|] eqn:E.
  - exists id. rewrite (ensure_path_present api P w id E). cbv zeta. cbn [fst snd].
    assert (∀ x, x ∈ steps EmptyString (segments P) →
                 is_Some (tree_index w !! step_path x))
      as Hall by (by eapply ancestors_listed_spec).
    rewrite (missing_nil _ _ Hall).
    change (tree_index (log _ w)) with (tree_index w).
    split_and!; try done.
    + apply Forall_forall. intros q (x & -> & Hx)%list_elem_of_fmap. by apply Hall.
    + eapply issued_grow. rewrite (ensure_path_present api P w id E).
      by rewrite log_grow.
    + cbn [fmap list_fmap]. by rewrite app_nil_r.
  - destruct (ensure_path_absent api P w E)
      as (news & w' & Hw' & Hnews & Hrun & Hsub & Hpre). cbv zeta in *.
    destruct (steps_last EmptyString (segments P) Hne) as (x & Hx & Hx2).
    rewrite app_empty_l, Hjoin in Hx2.
    destruct (Hpre x Hx) as [id Hid]. rewrite Hx2 in Hid.
    exists id. rewrite Hrun, Hid. cbn [fst snd].
    split_and!; try done.
    + apply Forall_forall. intros q (y & -> & Hy)%list_elem_of_fmap. by apply Hpre.
    + apply Forall_forall. intros y Hy%missing_subset.
      destruct (steps_parent _ _ _ Hy) as [->|(z & Hz & ->)]; [|by apply Hpre].
      apply tree_index_root.
    + eapply issued_grow. rewrite Hrun. f_equal. exact Hw'.
    + rewrite Hw' at 1. by rewrite tree_grow, <- Hnews.
Qed.

Lemma ensure_path_completes_witness :
  well_formed_path "/orders/{id}" = true
  ∧ ancestors_listed demo_world = true
  ∧ ∃ id : nat,
      (ensure_path "a1b2c3" "/orders/{id}" demo_world).1 = Ok id
      ∧ tree_index (ensure_path "a1b2c3" "/orders/{id}" demo_world).2 !! "/orders/{id}"
        = Some id.
Proof.
  split; [reflexivity|]. split; [vm_compute; reflexivity|].
  destruct (ensure_path_completes "a1b2c3" "/orders/{id}" demo_world)
    as (id & H1 & H2 & _); [reflexivity|vm_compute; reflexivity|].
  exists id. split; [exact H1|exact H2].
Defined.

(** C3. When the exact path is already in the fetched dictionary,
    [ensure_path] returns the listed id after the single listing call:
    no [create_resource] (indeed no write at all) is issued and the
    remote tree and methods are unchanged. *)
Theorem ensure_path_existing (api P : string) (w : world) (id : nat) :
  tree_index w !! P = Some id →
  ensure_path api P w = (Ok id, log (GetResources api) w)
  ∧ issued (ensure_path api P) w = [GetResources api]
  ∧ Forall (λ c, is_write c = false) (issued (ensure_path api P) w)
  ∧ Gateway.tree (ensure_path api P w).2 = Gateway.tree w
  ∧ w_methods (ensure_path api P w).2 = w_methods w.
Proof.
  intros H. pose proof (ensure_path_present api P w id H) as Hrun.
  assert (issued (ensure_path api P) w = [GetResources api]) as Hiss.
  { eapply issued_grow. by rewrite Hrun, log_grow. }
  rewrite Hiss, Hrun. split_and!; try done. by repeat constructor.
Qed.

Lemma ensure_path_existing_witness :
  tree_index demo_world !! "/orders" = Some 1
  ∧ ensure_path "a1b2c3" "/orders" demo_world
    = (Ok 1, log (GetResources "a1b2c3") demo_world).
Proof.
  split; [vm_compute; reflexivity|].
  apply (ensure_path_existing "a1b2c3" "/orders" demo_world 1).
  vm_compute; reflexivity.
Defined.

End ResolverTheorems.

(** ** Region resolution *)

Section Region.

Example invocation_uri_demo :
  invocation_uri demo_env "arn:aws:lambda:eu-west-1:123456789012:function:project-orders"
  = "arn:aws:apigateway:eu-west-1:lambda:path/2015-03-31/functions/"
    +:+ "arn:aws:lambda:eu-west-1:123456789012:function:project-orders"
    +:+ "/invocations".
Proof. reflexivity. Qed.

(** Text without [$] passes through the scanner untouched. *)
Lemma split_go_no_dollar (s : string) : ∀ cur t : string,
  no_dollar s = true →
  PyStr.split_go "${AWS_REGION}" 0 cur (s +:+ t)
  = PyStr.split_go "${AWS_REGION}" 0 (cur +:+ s) t.
Proof.
  induction s as [|a s IH]; intros cur t Hs.
  - by rewrite app_empty_l, app_empty_r.
  - simpl in Hs. apply andb_true_iff in Hs as [Ha Hs].
    apply negb_true_iff, Ascii.eqb_neq in Ha.
    rewrite app_cons. cbn [PyStr.split_go String.prefix].
    destruct (ascii_dec "$" a) as [E|_]; [congruence|].
    rewrite IH by done. by rewrite app_assoc_s.
Qed.

(** For a handler ARN without [$] the substitution only replaces the
    placeholder of the template. *)
Lemma invocation_uri_closed_form (env : environ) (arn : string) :
  no_dollar arn = true →
  invocation_uri env arn
  = "arn:aws:apigateway:" +:+ resolve_region env
    +:+ ":lambda:path/2015-03-31/functions/" +:+ arn +:+ "/invocations".
Proof.
  intros Harn. unfold invocation_uri, PyStr.replace, PyStr.split.
  change (PyStr.split_go "${AWS_REGION}" 0 EmptyString
            ("arn:aws:apigateway:${AWS_REGION}:lambda:path/2015-03-31/functions/"
             +:+ arn +:+ "/invocations"))
    with ("arn:aws:apigateway:"
            :: PyStr.split_go "${AWS_REGION}" 0 ":lambda:path/2015-03-31/functions/"
                 (arn +:+ "/invocations" +:+ EmptyString)).
  rewrite split_go_no_dollar by done.
  rewrite split_go_no_dollar by done.
  cbn [PyStr.split_go PyStr.join]. by rewrite !app_assoc_s.
Qed.

(** C9, as stated, fails: with no session region and no environment
    variable, the region of the STS client is used, not the hardcoded
    default. *)
Lemma region_not_as_specified :
  resolve_region sts_only_env = "aws-global"
  ∧ region_as_specified sts_only_env = "us-east-1"
  ∧ ¬ (∀ env, resolve_region env = region_as_specified env).
Proof.
  split_and!; [reflexivity|reflexivity|].
  intros H. specialize (H sts_only_env). discriminate H.
Qed.

(** C9, amended. The region substituted into the invocation URI is the
    first one that is set and non-empty among: the session's default
    region, [AWS_REGION], [AWS_DEFAULT_REGION], the region of the STS
    client; the hardcoded [us-east-1] is used only when none of the four
    is. *)
Theorem region_precedence (env : environ) (arn : string) :
  resolve_region env
  = first_truthy
      [session_region_name env; AWS_REGION env; AWS_DEFAULT_REGION env;
       sts_meta_region_name env] "us-east-1"
  ∧ invocation_uri env arn
    = PyStr.replace "${AWS_REGION}" (resolve_region env)
        ("arn:aws:apigateway:${AWS_REGION}:lambda:path/2015-03-31/functions/"
         +:+ arn +:+ "/invocations")
  ∧ (no_dollar arn = true →
     invocation_uri env arn
     = "arn:aws:apigateway:" +:+ resolve_region env
       +:+ ":lambda:path/2015-03-31/functions/" +:+ arn +:+ "/invocations").
Proof.
  split_and!; [|reflexivity|apply invocation_uri_closed_form].
  destruct env as [[[|a s]|] [[|b r]|] [[|c d]|] [[|e f]|]]; reflexivity.
Qed.

End Region.

(** ** The method/integration reconciler *)

Section Reconciler.

Lemma with_methods_id (w : world) : with_methods (w_methods w) [] w = w.
Proof. destruct w. unfold with_methods, set_calls, set_methods. simpl. by rewrite app_nil_r. Qed.

Lemma with_methods_compose ms1 ms2 cs1 cs2 (w : world) :
  with_methods ms2 cs2 (with_methods ms1 cs1 w) = with_methods ms2 (cs1 ++ cs2) w.
Proof. unfold with_methods, set_calls, set_methods. simpl. by rewrite app_assoc. Qed.

Lemma issued_with_methods {A} (m : M A) (w : world) r ms cs :
  m w = (r, with_methods ms cs w) → issued m w = cs.
Proof. intros H. unfold issued. rewrite H. simpl. by rewrite drop_app_length. Qed.

(** The reconciler, case by case on what the gateway holds. *)
Lemma ensure_method_and_integration_spec env api rid m arn (w : world) :
  let v := PyStr.upper m in
  let put := PutIntegration api rid v "AWS_PROXY" "POST" (invocation_uri env arn) in
  ensure_method_and_integration env api rid m arn w =
  match w_methods w !! (rid, v) with
  | Some d =>
      (Ok tt,
       with_methods
         (<[(rid, v) := Method (authorizationType d) (Some (target env arn))]>
            (w_methods w))
         [GetMethod api rid v; GetIntegration api rid v; put] w)
  | None =>
      match Gateway.tree w !! rid with
      | None =>
          (Raise NotFoundException,
           with_methods (w_methods w)
             [GetMethod api rid v; PutMethod api rid v "NONE"] w)
      | Some _ =>
          (Ok tt,
           with_methods (<[(rid, v) := Method "NONE" (Some (target env arn))]> (w_methods w))
             [GetMethod api rid v; PutMethod api rid v "NONE";
              GetIntegration api rid v; put] w)
      end
  end.
Proof.
  cbv zeta. unfold ensure_method_and_integration, bind, try_except, ret.
  unfold Gateway.get_method, Gateway.put_method, Gateway.get_integration,
    Gateway.put_integration, with_methods, target, log, Gateway.tree.
  destruct w as [apis rs ms deps fns pol acct cs].
  cbn [w_methods w_resources w_calls set_calls set_methods w_apis w_deployments
       w_functions w_policy w_account].
  destruct (ms !! (rid, PyStr.upper m)) as [[auth [i|]]|] eqn:E.
  - repeat (first [rewrite E | rewrite decide_True by done | progress cbn]).
    by rewrite <- !app_assoc.
  - repeat (first [rewrite E | rewrite decide_True by done | progress cbn]).
    by rewrite <- !app_assoc.
  - cbn. destruct ((_ :: rs) !! rid) eqn:Er.
    + repeat (first [rewrite E | rewrite lookup_insert_eq
                    | rewrite decide_True by done | progress cbn]).
      by rewrite insert_insert_eq, <- !app_assoc.
    + repeat (first [rewrite E | rewrite decide_True by done | progress cbn]).
      by rewrite <- !app_assoc.
Qed.



(** C7. The reconciler first probes the method with [get_method].  It
    issues [put_method] (once, for the same resource and verb, with
    authorization type NONE) exactly when the probe reports the method
    absent; when the method exists no [put_method] is issued and its
    authorization type is what it was; methods of other (resource, verb)
    pairs are never touched. *)
Theorem put_method_iff_absent (env : environ) (api : string) (rid : nat)
    (m arn : string) (w : world) :
  let run := ensure_method_and_integration env api rid m arn in
  let v := PyStr.upper m in
  let probe := (Gateway.get_method api rid v w).1 in
  head (issued run w) = Some (GetMethod api rid v)
  ∧ (PutMethod api rid v "NONE" ∈ issued run w ↔ probe = Raise NotFoundException)
  ∧ filter (λ c, is_put_method c = true) (issued run w)
    = match probe with
      | Ok _ => []
      | Raise _ => [PutMethod api rid v "NONE"]
      end
  ∧ (∀ d, w_methods w !! (rid, v) = Some d →
       authorizationType <$> (w_methods (run w).2 !! (rid, v))
       = Some (authorizationType d))
  ∧ (∀ k, k ≠ (rid, v) → w_methods (run w).2 !! k = w_methods w !! k).
Proof.
  cbv zeta.
  pose proof (ensure_method_and_integration_spec env api rid m arn w) as Hspec.
  cbv zeta in Hspec. unfold Gateway.get_method.
  change (w_methods (log _ w)) with (w_methods w).
  destruct (w_methods w !! (rid, PyStr.upper m)) as [d|] eqn:E;
    [|destruct (Gateway.tree w !! rid) as [r|] eqn:Er];
    rewrite (issued_with_methods _ _ _ _ _ Hspec), Hspec; cbn [fst snd];
    unfold with_methods; cbn [w_methods set_calls set_methods].
  - split_and!; try done.
    + split; [|done]. intros H.
      repeat (apply elem_of_cons in H as [?|H]; [done|]). by apply elem_of_nil in H.
    + intros d' [= <-]. by rewrite lookup_insert_eq.
    + intros k Hk. by rewrite lookup_insert_ne.
  - split_and!; try done.
    + split; [done|]. intros _. right. left.
    + intros k Hk. by rewrite lookup_insert_ne.
  - split_and!; try done.
    split; [done|]. intros _. right. left.
Qed.

(** C10. The verb is uppercased before anything else: for every string
    [m] the reconciler is the same computation on [m] and on
    [m.upper()], and every call it issues addresses [m.upper()].  That
    form has no lowercase ASCII letter left; it is [m] with each
    lowercase letter replaced by its capital, and nothing else changed,
    when [m] is ASCII text; and a character beyond ASCII that has an
    uppercase form in Unicode is replaced by that form. *)
Theorem verb_normalized (env : environ) (api : string) (rid : nat) (m arn : string) :
  ensure_method_and_integration env api rid m arn
  = ensure_method_and_integration env api rid (PyStr.upper m) arn
  ∧ (∀ w : world,
       Forall (λ c, call_verb c = Some (PyStr.upper m))
         (issued (ensure_method_and_integration env api rid m arn) w))
  ∧ no_lower (PyStr.upper m) = true
  ∧ (is_ascii m = true → capitals_of m (PyStr.upper m))
  ∧ (∀ c v, (c, v) ∈ PyStr.upper_table → PyStr.upper c = v).
Proof.
  split_and!.
  - unfold ensure_method_and_integration. by rewrite upper_idemp.
  - intros w.
    pose proof (ensure_method_and_integration_spec env api rid m arn w) as Hspec.
    cbv zeta in Hspec.
    destruct (w_methods w !! (rid, PyStr.upper m)) as [d|] eqn:E;
      [|destruct (Gateway.tree w !! rid) as [r|] eqn:Er];
      rewrite (issued_with_methods _ _ _ _ _ Hspec); by repeat constructor.
  - apply upper_no_lower.
  - intros Hm. by apply upper_ascii_text.
  - intros c v Hin. by apply upper_table_applied.
Qed.

End Reconciler.


(** ** The permission grantor *)

Section Grantor.

Example statement_id_demo :
  statement_id "a1b2c3" "arn:aws:lambda:us-east-1:123456789012:function:project-orders"
  = "apigw-a1b2c3-project-orders".
Proof. reflexivity. Qed.

Lemma add_permission_for_apigw_unfold arn api acct region (w : world) :
  add_permission_for_apigw arn api acct region w =
  match Lambda.add_permission arn (statement_id api arn) "lambda:InvokeFunction"
          "apigateway.amazonaws.com"
          ("arn:aws:execute-api:" +:+ region +:+ ":" +:+ acct +:+ ":" +:+ api
           +:+ "/*/*/*") w with
  | (Raise e, w') =>
      if decide (e = ResourceConflictException) then (Ok tt, w') else (Raise e, w')
  | r => r
  end.
Proof. reflexivity. Qed.

Lemma grant_spec arn api acct region (w : world) :
  add_permission_for_apigw arn api acct region w =
  let c := grant_call arn api acct region in
  if negb (Lambda.known arn w) then (Raise ResourceNotFoundException, log c w)
  else
    match w_policy w !! (arn, statement_id api arn) with
    | Some _ => (Ok tt, log c w)
    | None =>
        (Ok tt,
         set_policy
           (<[(arn, statement_id api arn) :=
                Statement "lambda:InvokeFunction" "apigateway.amazonaws.com"
                  ("arn:aws:execute-api:" +:+ region +:+ ":" +:+ acct +:+ ":"
                   +:+ api +:+ "/*/*/*")]> (w_policy w))
           (log c w))
    end.
Proof.
  rewrite add_permission_for_apigw_unfold. unfold Lambda.add_permission. cbv zeta.
  change (Lambda.known arn (log _ w)) with (Lambda.known arn w).
  change (w_policy (log _ w)) with (w_policy w).
  destruct (negb _); [by rewrite decide_False|].
  destruct (w_policy w !! _); [by rewrite decide_True|done].
Qed.

Lemma add_permission_calls fn sid action principal source (w : world) :
  w_calls (Lambda.add_permission fn sid action principal source w).2
  = w_calls w ++ [AddPermission fn sid action principal source].
Proof.
  unfold Lambda.add_permission.
  destruct (negb _); [done|]. by destruct (w_policy _ !! _).
Qed.

(** The conflict is swallowed after the grant call was made; the policy
    is what it was. *)
Example conflict_swallowed_demo :
  grant_reply "arn:aws:lambda:us-east-1:123456789012:function:project-orders"
    "a1b2c3" "123456789012" "us-east-1" granted_world
  = Raise ResourceConflictException
  ∧ (add_permission_for_apigw
       "arn:aws:lambda:us-east-1:123456789012:function:project-orders"
       "a1b2c3" "123456789012" "us-east-1" granted_world).1 = Ok tt.
Proof. split; vm_compute; reflexivity. Qed.

(** An unknown handler is another failure: it propagates. *)
Example other_failure_demo :
  (add_permission_for_apigw "arn:aws:lambda:us-east-1:123456789012:function:nope"
     "a1b2c3" "123456789012" "us-east-1" granted_world).1
  = Raise ResourceNotFoundException.
Proof. vm_compute; reflexivity. Qed.

(** C8. The statement id is a function of the gateway id and the handler
    name alone (the text after the last [:function:] of the ARN), and it
    is the id of the one grant call issued; when the registry answers
    that call with a resource conflict (the statement exists) the
    grantor returns normally; any other exception of the registry is
    raised to the caller; a successful answer is a success. *)
Theorem grant_is_idempotent (arn api acct region : string) (w : world) :
  let run := add_permission_for_apigw arn api acct region in
  let reply := grant_reply arn api acct region w in
  (∀ arn', function_name arn' = function_name arn →
           statement_id api arn' = statement_id api arn)
  ∧ statement_id api arn = "apigw-" +:+ api +:+ "-" +:+ function_name arn
  ∧ issued run w = [grant_call arn api acct region]
  ∧ (reply = Raise ResourceConflictException → (run w).1 = Ok tt)
  ∧ (∀ e, reply = Raise e → e ≠ ResourceConflictException → (run w).1 = Raise e)
  ∧ (reply = Ok tt → (run w).1 = Ok tt)
  ∧ (is_Some (w_policy w !! (arn, statement_id api arn)) →
     Lambda.known arn w = true →
     (run w).1 = Ok tt ∧ w_policy (run w).2 = w_policy w).
Proof.
  cbv zeta. unfold grant_reply.
  split_and!.
  - intros arn' H. unfold statement_id. by rewrite H.
  - reflexivity.
  - unfold issued. rewrite add_permission_for_apigw_unfold.
    pose proof (add_permission_calls arn (statement_id api arn) "lambda:InvokeFunction"
                  "apigateway.amazonaws.com"
                  ("arn:aws:execute-api:" +:+ region +:+ ":" +:+ acct +:+ ":" +:+ api
                   +:+ "/*/*/*") w) as Hc.
    destruct (Lambda.add_permission _ _ _ _ _ w) as [[[]|e] w']; cbn [snd] in *;
      [|case_decide]; cbn [snd]; rewrite Hc; by rewrite drop_app_length.
  - rewrite add_permission_for_apigw_unfold.
    destruct (Lambda.add_permission _ _ _ _ _ w) as [[[]|e] w']; cbn [fst]; [done|].
    intros [= ->]. by rewrite decide_True.
  - intros e. rewrite add_permission_for_apigw_unfold.
    destruct (Lambda.add_permission _ _ _ _ _ w) as [[[]|e'] w']; cbn [fst]; [done|].
    intros [= ->] Hne. by rewrite decide_False.
  - rewrite add_permission_for_apigw_unfold.
    by destruct (Lambda.add_permission _ _ _ _ _ w) as [[[]|e] w'].
  - intros [st Hst] Hk. rewrite add_permission_for_apigw_unfold.
    unfold Lambda.add_permission.
    change (Lambda.known arn (log _ w)) with (Lambda.known arn w). rewrite Hk.
    change (w_policy (log _ w)) with (w_policy w). rewrite Hst. cbn [negb].
    by rewrite decide_True.
Qed.

(** Granting twice: the second grant finds the statement of the first
    and changes nothing. *)
Lemma grant_twice (arn api acct region : string) (w : world) :
  Lambda.known arn w = true →
  let run := add_permission_for_apigw arn api acct region in
  (run w).1 = Ok tt
  ∧ (run (run w).2).1 = Ok tt
  ∧ w_policy (run (run w).2).2 = w_policy (run w).2.
Proof.
  intros Hk. cbv zeta.
  assert (∀ w', w_functions w' = w_functions w → Lambda.known arn w' = true) as Hk'.
  { intros w' Hw'. unfold Lambda.known in *. by rewrite Hw'. }
  rewrite (grant_spec arn api acct region w), Hk. cbn [negb].
  destruct (w_policy w !! (arn, statement_id api arn)) as [st|] eqn:E;
    cbn [fst snd]; rewrite grant_spec, Hk' by done; cbn [negb];
    cbn [w_policy log set_calls set_policy]; rewrite ?E, ?lookup_insert_eq; done.
Qed.

End Grantor.

(** ** Configuration loading and the orchestrator *)

Section Orchestrator.

(** C5, as stated, fails: an array with a non-string element is not a
    list of strings, yet it loads; the element is converted with
    [str()]. *)
Lemma load_paths_coerces :
  list_of_strings (JArray [JString "/orders"; JNumber 5]) = false
  ∧ load_paths mixed_config demo_repr "modules/orders/config.json" demo_world
    = (Ok ["/orders"; "5"], demo_world)
  ∧ ¬ (∀ read_json py_repr path data w,
         read_json path = Content data → list_of_strings data = false →
         ∃ e, (load_paths read_json py_repr path w).1 = Raise e).
Proof.
  split_and!; [reflexivity|reflexivity|].
  intros H.
  destruct (H mixed_config demo_repr "modules/orders/config.json"
              (JArray [JString "/orders"; JNumber 5]) demo_world)
    as [e He]; [reflexivity|reflexivity|discriminate He].
Qed.

(** C5, amended. Loading fails with the configuration error exactly for
    content that is not a JSON array (an object, a string, a number, a
    boolean, null); an array always loads, to a list of the same length
    in which string elements are kept verbatim and every other element
    is replaced by its [str()] conversion. *)
Theorem load_paths_shape (read_json : string → file) (py_repr : json → string)
    (path : string) (data : json) (w : world) :
  read_json path = Content data →
  (is_array data = false →
   load_paths read_json py_repr path w
   = (Raise (ValueError "config.json must be a JSON array of path strings"), w))
  ∧ (∀ l, data = JArray l →
       load_paths read_json py_repr path w = (Ok (py_str py_repr <$> l), w)
       ∧ length (py_str py_repr <$> l) = length l
       ∧ (∀ i s, l !! i = Some (JString s) → (py_str py_repr <$> l) !! i = Some s)
       ∧ (∀ i p, l !! i = Some p → is_string p = false →
            (py_str py_repr <$> l) !! i = Some (py_repr p))).
Proof.
  intros Hread. unfold load_paths. rewrite Hread. split.
  - by destruct data.
  - intros l ->. split_and!; [done|by rewrite length_fmap| |].
    + intros i s Hi. by rewrite list_lookup_fmap, Hi.
    + intros i p Hi Hp. rewrite list_lookup_fmap, Hi. by destruct p.
Qed.

Lemma load_paths_shape_witness :
  object_config "modules/orders/config.json" = Content (JObject [])
  ∧ load_paths object_config demo_repr "modules/orders/config.json" demo_world
    = (Raise (ValueError "config.json must be a JSON array of path strings"),
       demo_world).
Proof.
  split; [reflexivity|].
  apply (load_paths_shape object_config demo_repr "modules/orders/config.json"
           (JObject []) demo_world); reflexivity.
Defined.

Lemma clients_ok (env : environ) (service : string) :
  has_region env = true → Boto3.outcome env service = Ok tt.
Proof.
  unfold has_region, Boto3.outcome. destruct (session_region_name env) as [r|]; [|done].
  by intros [-> ->]%andb_true_iff.
Qed.

Lemma clients_fail (env : environ) :
  has_region env = false → ∃ e, Boto3.outcome env "apigateway" = Raise e.
Proof.
  unfold has_region, Boto3.outcome. destruct (session_region_name env) as [r|].
  - destruct (Boto3.valid_region_name r); [|by eexists]. simpl.
    intros ->. by eexists.
  - by eexists.
Qed.

(** No client, no run: line 124 raises before anything is called. *)
Lemma main_no_client env abspath read_json py_repr args (w : world) e :
  Boto3.outcome env "apigateway" = Raise e →
  main env abspath read_json py_repr args w = (Raise e, w).
Proof. intros H. unfold main, bind at 1, Boto3.client. by rewrite H. Qed.

Lemma main_unfold env abspath read_json py_repr args (w : world) :
  has_region env = true →
  main env abspath read_json py_repr args w =
  let w2 := log GetRestApis (log GetCallerIdentity w) in
  match find_in_pages (arg_api_name args) (paginate 500 (w_apis w)) with
  | None => (Raise (RuntimeError (not_found (arg_api_name args))), w2)
  | Some id =>
      if negb (PyStr.truthy id)
      then (Raise (RuntimeError (not_found (arg_api_name args))), w2)
      else
        match w_functions w !! lambda_name args with
        | None =>
            (Raise ResourceNotFoundException, log (GetFunction (lambda_name args)) w2)
        | Some arn =>
            (paths <- load_paths read_json py_repr (config_path abspath args) ;;
             reconcile env id arn paths ;;;
             add_permission_for_apigw arn id (w_account w)
               (PyStr.or_str
                  (PyStr.or_ (PyStr.or_ (session_region_name env) (AWS_REGION env))
                     (AWS_DEFAULT_REGION env)) "us-east-1") ;;;
             deploy_stage id (arg_stage args))
              (log (GetFunction (lambda_name args)) w2)
        end
  end.
Proof.
  intros Hreg. unfold main, bind at 1 2 3, Boto3.client.
  rewrite !(clients_ok env _ Hreg).
  unfold bind at 1 2, Sts.get_caller_identity, find_rest_api_id_by_name.
  unfold bind at 1, Gateway.get_rest_apis, ret. cbv zeta.
  change (w_apis (log _ w)) with (w_apis w).
  destruct (find_in_pages _ _) as [id|]; [|reflexivity].
  destruct (negb _); [reflexivity|].
  unfold bind at 1, Lambda.get_function.
  change (w_functions (log _ (log _ (log _ w)))) with (w_functions w).
  by destruct (w_functions w !! _).
Qed.

Lemma issued_log2 {A} (m : M A) (w : world) r a b :
  m w = (r, log b (log a w)) → issued m w = [a; b].
Proof.
  intros H. unfold issued. rewrite H. simpl. by rewrite <- app_assoc, drop_app_length.
Qed.

Lemma issued_log3 {A} (m : M A) (w : world) r a b c :
  m w = (r, log c (log b (log a w))) → issued m w = [a; b; c].
Proof.
  intros H. unfold issued. rewrite H. simpl. by rewrite <- !app_assoc, drop_app_length.
Qed.

(** C4, as stated, fails: in a process whose session has a region, a
    run with an object in [config.json] does abort, but only after the
    identity service, the gateway and the handler registry have each
    been called. *)
Lemma object_config_after_lookups :
  object_config (config_path demo_abspath demo_args) = Content (JObject [])
  ∧ session_region_name region_env = Some "eu-west-1"
  ∧ (main region_env demo_abspath object_config demo_repr demo_args demo_world).1
    = Raise (ValueError "config.json must be a JSON array of path strings")
  ∧ issued (main region_env demo_abspath object_config demo_repr demo_args) demo_world
    = [GetCallerIdentity; GetRestApis; GetFunction "project-orders"]
  ∧ ¬ (∀ env abspath read_json py_repr args w l,
         read_json (config_path abspath args) = Content (JObject l) →
         issued (main env abspath read_json py_repr args) w = []).
Proof.
  split_and!; [reflexivity|reflexivity|vm_compute; reflexivity|vm_compute; reflexivity|].
  intros H.
  specialize (H region_env demo_abspath object_config demo_repr demo_args demo_world []
                eq_refl).
  vm_compute in H. discriminate H.
Qed.

(** C4, amended. With a JSON object in the configuration file the run
    aborts before any remote mutation: every call issued is a read, and
    nothing but the log of calls differs afterwards.  When the session
    has no region a client can be built for, the run stops at line 124
    without any call.  When it has one, the identity lookup, the gateway
    lookup and the handler lookup precede the configuration check: with
    the gateway and the handler found, exactly those three calls are
    issued and the run aborts with the configuration error. *)
Theorem object_config_aborts (env : environ) (abspath : string → string)
    (read_json : string → file) (py_repr : json → string) (args : arguments)
    (w : world) (l : list (string * json)) :
  read_json (config_path abspath args) = Content (JObject l) →
  let run := main env abspath read_json py_repr args in
  (∃ e, (run w).1 = Raise e)
  ∧ Forall (λ c, is_write c = false) (issued run w)
  ∧ (run w).2 = set_calls (w_calls w ++ issued run w) w
  ∧ (has_region env = false → issued run w = [])
  ∧ (has_region env = true →
     ∀ id arn,
       find_in_pages (arg_api_name args) (paginate 500 (w_apis w)) = Some id →
       PyStr.truthy id = true →
       w_functions w !! lambda_name args = Some arn →
       (run w).1 = Raise (ValueError "config.json must be a JSON array of path strings")
       ∧ issued run w
         = [GetCallerIdentity; GetRestApis; GetFunction (lambda_name args)]).
Proof.
  intros Hcfg. cbv zeta.
  destruct (has_region env) eqn:Hreg.
  2: { destruct (clients_fail env Hreg) as [e He].
       pose proof (main_no_client env abspath read_json py_repr args w e He) as Hrun.
       assert (issued (main env abspath read_json py_repr args) w = []) as Hiss.
       { unfold issued. rewrite Hrun. cbn [snd]. by rewrite drop_all. }
       rewrite Hiss, Hrun. cbn [fst snd].
       split_and!; [by eexists|constructor| |done|done].
       destruct w. unfold set_calls. cbn. by rewrite app_nil_r. }
  pose proof (main_unfold env abspath read_json py_repr args w Hreg) as Hrun.
  cbv zeta in Hrun.
  destruct (find_in_pages _ _) as [id|] eqn:Hid;
    [destruct (PyStr.truthy id) eqn:Ht; cbn [negb] in Hrun;
     [destruct (w_functions w !! lambda_name args) as [arn|] eqn:Hfn|]|].
  - unfold bind at 1, load_paths in Hrun. rewrite Hcfg in Hrun.
    unfold raise in Hrun.
    rewrite (issued_log3 _ _ _ _ _ _ Hrun), Hrun. cbn [fst snd].
    split_and!; [by eexists|by repeat constructor| |done|by intros _ ? ? [= <-] _ [= <-]].
    unfold log, set_calls. cbn. by rewrite <- !app_assoc.
  - rewrite (issued_log3 _ _ _ _ _ _ Hrun), Hrun. cbn [fst snd].
    split_and!; [by eexists|by repeat constructor| |done|by intros _ ? ? _ _ ?].
    unfold log, set_calls. cbn. by rewrite <- !app_assoc.
  - rewrite (issued_log2 _ _ _ _ _ Hrun), Hrun. cbn [fst snd].
    split_and!; [by eexists|by repeat constructor| |done
                |by intros _ ? ? [= <-] ?; congruence].
    unfold log, set_calls. cbn. by rewrite <- !app_assoc.
  - rewrite (issued_log2 _ _ _ _ _ Hrun), Hrun. cbn [fst snd].
    split_and!; [by eexists|by repeat constructor| |done|by intros _ ? ? ?].
    unfold log, set_calls. cbn. by rewrite <- !app_assoc.
Qed.

Lemma object_config_aborts_witness :
  object_config (config_path demo_abspath demo_args) = Content (JObject [])
  ∧ has_region region_env = true
  ∧ issued (main region_env demo_abspath object_config demo_repr demo_args) demo_world
    = [GetCallerIdentity; GetRestApis; GetFunction (lambda_name demo_args)].
Proof.
  split; [reflexivity|]. split; [reflexivity|].
  destruct (object_config_aborts region_env demo_abspath object_config demo_repr
              demo_args demo_world [] eq_refl) as (_ & _ & _ & _ & H).
  apply (H eq_refl "a1b2c3"
           "arn:aws:lambda:us-east-1:123456789012:function:project-orders");
    reflexivity.
Defined.

End Orchestrator.

(** ** Idempotence of the reconciliation *)

Section Idempotence.

Context (env : environ) (api arn : string).

Lemma logged_nil (w : world) : logged [] w = w.
Proof. destruct w. unfold logged, set_calls. simpl. by rewrite app_nil_r. Qed.

Lemma logged_logged (c1 c2 : list call) (w : world) :
  logged c2 (logged c1 w) = logged (c1 ++ c2) w.
Proof. unfold logged, set_calls. simpl. by rewrite app_assoc. Qed.

Lemma with_methods_same (cs : list call) (w : world) :
  with_methods (w_methods w) cs w = logged cs w.
Proof. by destruct w. Qed.

Lemma grow_logged (cs : list call) (w : world) : grow [] cs w = logged cs w.
Proof. destruct w. unfold grow, logged, set_calls, set_resources. simpl. by rewrite app_nil_r. Qed.

Lemma same_state_logged (cs : list call) (w : world) : same_state w (logged cs w).
Proof. reflexivity. Qed.

Lemma same_state_trans (w1 w2 w3 : world) :
  same_state w1 w2 → same_state w2 w3 → same_state w1 w3.
Proof. unfold same_state. congruence. Qed.

Lemma same_state_tree (w w' : world) : same_state w w' → Gateway.tree w = Gateway.tree w'.
Proof. intros H. by apply (f_equal Gateway.tree) in H. Qed.

Lemma same_state_methods (w w' : world) : same_state w w' → w_methods w = w_methods w'.
Proof. intros H. by apply (f_equal w_methods) in H. Qed.

Lemma same_state_index (w w' : world) : same_state w w' → tree_index w = tree_index w'.
Proof. intros H. unfold tree_index. by rewrite (same_state_tree _ _ H). Qed.

Lemma quiet_app (c1 c2 : list call) : quiet c1 → quiet c2 → quiet (c1 ++ c2).
Proof. apply Forall_app_2. Qed.

Lemma progress_refl (w : world) : progress env arn w w.
Proof. by split. Qed.

Lemma progress_trans (w1 w2 w3 : world) :
  progress env arn w1 w2 → progress env arn w2 w3 → progress env arn w1 w3.
Proof. intros [H1 H2] [H3 H4]. split; [by etrans|auto]. Qed.

Lemma reconciled_progress (p : string) (w w' : world) :
  reconciled env arn p w → progress env arn w w' → reconciled env arn p w'.
Proof.
  intros (rid & Hrid & Hm) [Hsub Ht]. exists rid. split; [by eapply lookup_weaken|auto].
Qed.

Lemma settled_same_state (p : string) r (w w' : world) :
  same_state w w' → settled env arn p r w → settled env arn p r w'.
Proof.
  intros Hs. pose proof (same_state_index _ _ Hs) as Hi.
  pose proof (same_state_methods _ _ Hs) as Hm.
  destruct r as [[]|e]; simpl; unfold reconciled, stuck, has_target; by rewrite Hi, ?Hm.
Qed.

(** The methods loop on an existing resource. *)
Lemma methods_loop_spec (rid : nat) (l : list string) : ∀ w : world,
  is_Some (Gateway.tree w !! rid) →
  ∃ ms cs,
    for_each l (λ m, ensure_method_and_integration env api rid m arn) w
    = (Ok tt, with_methods ms cs w)
    ∧ (∀ m, m ∈ l → has_target env arn (with_methods ms cs w) (rid, PyStr.upper m))
    ∧ (∀ k, has_target env arn w k → has_target env arn (with_methods ms cs w) k).
Proof.
  induction l as [|m l IH]; intros w Hrid.
  - exists (w_methods w), []. rewrite with_methods_id. split_and!; [done| |done].
    intros m Hm. by apply elem_of_nil in Hm.
  - cbn [for_each]. unfold bind.
    pose proof (ensure_method_and_integration_spec env api rid m arn w) as Hspec.
    cbv zeta in Hspec. destruct Hrid as [r Hr]. rewrite Hr in Hspec.
    set (ms1 := match w_methods w !! (rid, PyStr.upper m) with
                | Some d =>
                    <[(rid, PyStr.upper m) :=
                        Method (authorizationType d) (Some (target env arn))]>
                      (w_methods w)
                | None =>
                    <[(rid, PyStr.upper m) := Method "NONE" (Some (target env arn))]>
                      (w_methods w)
                end).
    assert (∃ cs1, ensure_method_and_integration env api rid m arn w
                   = (Ok tt, with_methods ms1 cs1 w)) as [cs1 Hrun].
    { unfold ms1. destruct (w_methods w !! _); by eexists. }
    assert (has_target env arn (with_methods ms1 cs1 w) (rid, PyStr.upper m)) as Hnew.
    { unfold has_target, ms1. cbn.
      destruct (w_methods w !! _); rewrite lookup_insert_eq; by eexists. }
    assert (∀ k, has_target env arn w k →
                 has_target env arn (with_methods ms1 cs1 w) k) as Hold.
    { intros k [a Ha]. destruct (decide (k = (rid, PyStr.upper m))) as [->|Hne]; [done|].
      exists a. unfold ms1. cbn.
      destruct (w_methods w !! (rid, _)); by rewrite lookup_insert_ne. }
    rewrite Hrun.
    destruct (IH (with_methods ms1 cs1 w)) as (ms & cs & Hloop & Hall & Hkeep);
      [by exists r|].
    rewrite with_methods_compose in *.
    exists ms, (cs1 ++ cs). split_and!; [done| |by auto].
    intros m' [->|Hm']%elem_of_cons; [by apply Hkeep|by apply Hall].
Qed.

(** The methods loop when every method is already reconciled. *)
Lemma methods_loop_quiet (rid : nat) (l : list string) : ∀ w : world,
  (∀ m, m ∈ l → has_target env arn w (rid, PyStr.upper m)) →
  ∃ cs,
    for_each l (λ m, ensure_method_and_integration env api rid m arn) w
    = (Ok tt, logged cs w)
    ∧ quiet cs.
Proof.
  induction l as [|m l IH]; intros w Hall.
  - exists []. rewrite logged_nil. split; [done|constructor].
  - cbn [for_each]. unfold bind.
    pose proof (ensure_method_and_integration_spec env api rid m arn w) as Hspec.
    cbv zeta in Hspec. destruct (Hall m ltac:(left)) as [a Ha].
    rewrite Ha in Hspec. cbn [authorizationType] in Hspec.
    rewrite insert_id in Hspec by done. rewrite with_methods_same in Hspec.
    rewrite Hspec.
    destruct (IH (logged [GetMethod api rid (PyStr.upper m);
                          GetIntegration api rid (PyStr.upper m);
                          PutIntegration api rid (PyStr.upper m) "AWS_PROXY" "POST"
                            (invocation_uri env arn)] w))
      as (cs & Hloop & Hq).
    { intros m' Hm'. apply Hall. by right. }
    rewrite Hloop, logged_logged. eexists. split; [done|].
    apply quiet_app; [|done]. by repeat constructor.
Qed.

Lemma round_settles (p : string) (w : world) :
  progress env arn w (round env api arn p w).2
  ∧ settled env arn p (round env api arn p w).1 (round env api arn p w).2.
Proof.
  unfold round, bind. destruct (tree_index w !! p) as [id|] eqn:E.
  - rewrite (ensure_path_present api p w id E).
    destruct (methods_loop_spec id METHODS (log (GetResources api) w))
      as (ms & cs & Hloop & Hall & Hkeep).
    { apply lookup_lt_is_Some. by eapply index_lookup_lt. }
    rewrite Hloop. cbn [fst snd]. split.
    + split; [done|]. intros k Hk. by apply Hkeep.
    + exists id. by split.
  - destruct (ensure_path_absent api p w E)
      as (news & w' & Hw' & Hnews & Hrun & Hsub & Hpre). cbv zeta in *.
    rewrite Hrun.
    assert (w_methods w' = w_methods w) as Hms by (by rewrite Hw').
    destruct (tree_index w' !! p) as [id|] eqn:E'.
    + destruct (methods_loop_spec id METHODS w') as (ms & cs & Hloop & Hall & Hkeep).
      { apply lookup_lt_is_Some. by eapply index_lookup_lt. }
      rewrite Hloop. cbn [fst snd]. split.
      * split; [done|]. intros k Hk. apply Hkeep. unfold has_target in *.
        by rewrite Hms.
      * exists id. by split.
    + cbn [fst snd]. split.
      * split; [done|]. intros k Hk. unfold has_target in *. by rewrite Hms.
      * by split.
Qed.

Lemma round_replay (p : string) (r : result unit) (w : world) :
  settled env arn p r w →
  ∃ cs, round env api arn p w = (r, logged cs w) ∧ quiet cs.
Proof.
  unfold round, bind. destruct r as [[]|e]; cbn [settled].
  - intros (rid & Hrid & Hall).
    rewrite (ensure_path_present api p w rid Hrid).
    destruct (methods_loop_quiet rid METHODS (log (GetResources api) w) Hall)
      as (cs & Hloop & Hq).
    rewrite Hloop. exists (GetResources api :: cs). split.
    + by rewrite <- (logged_logged [GetResources api] cs).
    + constructor; [done|exact Hq].
  - intros [-> [Hnone Hall]].
    destruct (ensure_path_absent api p w Hnone)
      as (news & w' & Hw' & Hnews & Hrun & Hsub & Hpre). cbv zeta in *.
    rewrite (missing_nil _ _ Hall) in Hw', Hnews. cbn [fmap list_fmap] in Hw', Hnews.
    subst news. rewrite grow_logged in Hw'. subst w'. rewrite Hrun.
    change (tree_index (logged _ w)) with (tree_index w). rewrite Hnone.
    eexists. split; [done|]. by repeat constructor.
Qed.

Lemma reconcile_cons (p : string) (ps : list string) (w : world) :
  reconcile env api arn (p :: ps) w =
  match round env api arn p w with
  | (Ok _, w') => reconcile env api arn ps w'
  | (Raise e, w') => (Raise e, w')
  end.
Proof. reflexivity. Qed.

(** A finished run, succeeded or aborted, can be replayed from any
    world in the state it left: the replay has the same outcome, and
    issues only quiet calls that leave the state as it is. *)
Lemma reconcile_replay (ps : list string) : ∀ w : world,
  progress env arn w (reconcile env api arn ps w).2
  ∧ ∀ w2, same_state (reconcile env api arn ps w).2 w2 →
      ∃ cs, reconcile env api arn ps w2 = ((reconcile env api arn ps w).1, logged cs w2)
            ∧ quiet cs.
Proof.
  induction ps as [|p ps IH]; intros w.
  - split; [apply progress_refl|]. intros w2 _. exists [].
    rewrite logged_nil. split; [done|constructor].
  - rewrite reconcile_cons.
    destruct (round_settles p w) as [Hprog Hset].
    destruct (round env api arn p w) as [[[]|e] wa] eqn:Hround; cbn [fst snd] in *.
    + destruct (IH wa) as [Hprog' Hrep]. split; [by eapply progress_trans|].
      intros w2 Hs.
      assert (settled env arn p (Ok tt) w2) as Hset2.
      { eapply settled_same_state; [exact Hs|]. cbn [settled] in *.
        by eapply reconciled_progress. }
      destruct (round_replay p (Ok tt) w2 Hset2) as (cs & Hr & Hq).
      rewrite reconcile_cons, Hr.
      destruct (Hrep (logged cs w2)) as (cs' & Hr' & Hq').
      { eapply same_state_trans; [exact Hs|apply same_state_logged]. }
      rewrite Hr', logged_logged. eexists. split; [done|by apply quiet_app].
    + split; [done|]. intros w2 Hs.
      destruct (round_replay p (Raise e) w2) as (cs & Hr & Hq).
      { by eapply settled_same_state. }
      rewrite reconcile_cons, Hr. by exists cs.
Qed.

End Idempotence.

(** C1. Run the reconciliation (for each desired path in order:
    [ensure_path], then [ensure_method_and_integration] for each of the
    six methods) on any desired-path list from any state of the gateway,
    and run it again on the result.  The second run ends as the first
    did (normally, or with the same exception at the same path), leaves
    the resource tree and the methods exactly as the first run left them
    (nothing but the log of calls differs), and issues no
    [create_resource] and no [put_method] call. *)
Theorem reconcile_idempotent (env : environ) (api arn : string) (paths : list string)
    (w : world) :
  let once := reconcile env api arn paths w in
  let twice := reconcile env api arn paths once.2 in
  twice.1 = once.1
  ∧ Gateway.tree twice.2 = Gateway.tree once.2
  ∧ w_methods twice.2 = w_methods once.2
  ∧ twice.2 = logged (issued (reconcile env api arn paths) once.2) once.2
  ∧ Forall (λ c, is_create c = false ∧ is_put_method c = false)
      (issued (reconcile env api arn paths) once.2).
Proof.
  cbv zeta.
  destruct (reconcile_replay env api arn paths w) as [_ Hrep].
  destruct (Hrep (reconcile env api arn paths w).2) as (cs & Hr & Hq); [done|].
  assert (issued (reconcile env api arn paths) (reconcile env api arn paths w).2 = cs)
    as ->.
  { unfold issued. rewrite Hr. simpl. by rewrite drop_app_length. }
  rewrite Hr. by split_and!.
Qed.


Section IdempotenceExamples.

(** The example of the specification: two nested paths on a gateway
    that has only its root. *)
Example first_run_creates_in_order :
  let run := reconcile demo_env "a1b2c3" "arn:f" ["/orders"; "/orders/{id}"] in
  (run root_world).1 = Ok tt
  ∧ filter (λ c, is_create c = true) (issued run root_world)
    = [CreateResource "a1b2c3" (Some 0) "orders";
       CreateResource "a1b2c3" (Some 1) "{id}"]
  ∧ length (filter (λ c, is_put_method c = true) (issued run root_world)) = 12.
Proof. vm_compute. by split_and!. Qed.

Example rerun_only_overwrites_integrations :
  let run := reconcile demo_env "a1b2c3" "arn:f" ["/orders"; "/orders/{id}"] in
  let w1 := (run root_world).2 in
  (run w1).1 = Ok tt
  ∧ filter (λ c, is_create c = true) (issued run w1) = []
  ∧ filter (λ c, is_put_method c = true) (issued run w1) = []
  ∧ length (filter (λ c, is_put_integration c = true) (issued run w1)) = 12.
Proof. vm_compute. by split_and!. Qed.

(** A desired path with a trailing slash is never resolved: the run
    creates [/orders], aborts, and aborts again when rerun. *)
Example trailing_slash_aborts :
  let run := reconcile demo_env "a1b2c3" "arn:f" ["/orders/"] in
  let w1 := (run root_world).2 in
  (run root_world).1 = Raise (KeyError "/orders/")
  ∧ issued run root_world
    = [GetResources "a1b2c3"; CreateResource "a1b2c3" (Some 0) "orders"]
  ∧ (run w1).1 = Raise (KeyError "/orders/")
  ∧ issued run w1 = [GetResources "a1b2c3"].
Proof. vm_compute. by split_and!. Qed.

End IdempotenceExamples.

(** ** The listing stays a tree *)

Section TreeInvariant.

Lemma split_char_pieces (s : string) :
  Forall (λ x, no_slash x = true) (PyStr.split_char "/" s).
Proof.
  induction s as [|a s IH]; simpl; [by repeat constructor|].
  destruct (Ascii.eqb a "/") eqn:E; [by constructor|].
  destruct (PyStr.split_char "/" s) as [|h t]; [by repeat constructor; simpl; rewrite E|].
  apply Forall_cons in IH as [Hh Ht]. constructor; [|done]. simpl. by rewrite E, Hh.
Qed.

Lemma segments_ok (p : string) : Forall segment_ok (segments p).
Proof.
  apply Forall_forall. intros s Hs. unfold segments in Hs.
  apply list_elem_of_filter in Hs as [Ht Hs]. split; [done|].
  pose proof (split_char_pieces p) as H. rewrite Forall_forall in H. by apply H.
Qed.

Lemma split_char_app (x rest : string) :
  no_slash x = true →
  PyStr.split_char "/" (x +:+ rest)
  = match PyStr.split_char "/" rest with
    | h :: t => (x +:+ h) :: t
    | [] => [x]
    end.
Proof.
  induction x as [|a x IH]; intros Hx.
  - rewrite app_empty_l. destruct (PyStr.split_char "/" rest) eqn:E; [|done].
    by apply split_char_nonempty in E.
  - simpl in Hx. apply andb_true_iff in Hx as [Ha Hx]. apply negb_true_iff in Ha.
    rewrite app_cons. simpl. rewrite Ha, (IH Hx).
    by destruct (PyStr.split_char "/" rest).
Qed.

Lemma split_char_join_slash (l : list string) :
  Forall (λ x, no_slash x = true) l → l ≠ [] →
  PyStr.split_char "/" (PyStr.join_slash l) = EmptyString :: l.
Proof.
  induction l as [|x l IH]; intros Hl Hne; [done|].
  apply Forall_cons in Hl as [Hx Hl]. cbn [PyStr.join_slash].
  rewrite app_cons, app_empty_l. simpl. f_equal.
  rewrite (split_char_app x _ Hx).
  destruct l as [|y l].
  - simpl. by rewrite app_empty_r.
  - rewrite (IH Hl) by done. by rewrite app_empty_r.
Qed.

Lemma segments_join_slash (l : list string) :
  Forall segment_ok l → segments (PyStr.join_slash l) = l.
Proof.
  intros Hl. destruct l as [|x l]; [done|].
  unfold segments.
  rewrite split_char_join_slash;
    [|by eapply Forall_impl; [exact Hl|intros ? []]|done].
  rewrite filter_cons_False by done.
  induction (x :: l) as [|y l' IH]; [done|].
  apply Forall_cons in Hl as [[Hy _] Hl]. rewrite filter_cons_True by done.
  by rewrite IH.
Qed.

Lemma steps_prefix (b : string) (segs : list string) x :
  x ∈ steps b segs →
  ∃ l1 l2, segs = l1 ++ l2 ∧ l1 ≠ [] ∧ step_path x = b +:+ PyStr.join_slash l1.
Proof.
  revert b. induction segs as [|seg segs IH]; intros b; simpl.
  - by intros ?%elem_of_nil.
  - intros [->|Hx]%elem_of_cons.
    + exists [seg], segs. split_and!; [done|done|]. simpl. by rewrite app_empty_r.
    + destruct (IH _ Hx) as (l1 & l2 & -> & Hne & Hx2).
      exists (seg :: l1), l2. split_and!; [done|done|].
      rewrite Hx2. simpl. by rewrite !app_assoc_s.
Qed.

Lemma steps_mono (b : string) (l1 l2 : list string) x :
  x ∈ steps b l1 → x ∈ steps b (l1 ++ l2).
Proof. intros H. rewrite steps_app. apply elem_of_app. by left. Qed.

Lemma ancestors_listed_intro (w : world) :
  (∀ p id, tree_index w !! p = Some id →
     ∀ x, x ∈ steps EmptyString (segments p) →
          is_Some (tree_index w !! step_path x)) →
  ancestors_listed w = true.
Proof.
  intros H. unfold ancestors_listed. apply forallb_forall. intros r Hr%list_elem_of_In.
  apply forallb_forall. intros q Hq%list_elem_of_In. apply bool_decide_eq_true_2.
  unfold partial_paths in Hq. apply list_elem_of_fmap in Hq as (x & -> & Hx).
  destruct (tree_index w !! res_path r) as [id|] eqn:E.
  - by eapply H.
  - apply index_lookup_None in E. exfalso. apply E. by apply list_elem_of_fmap_2.
Qed.

(** Resolving a path keeps the listing a tree. *)
Lemma ensure_path_keeps_tree (api P : string) (w : world) :
  ancestors_listed w = true → ancestors_listed (ensure_path api P w).2 = true.
Proof.
  intros Hanc. destruct (tree_index w !! P) as [id|] eqn:E.
  - by rewrite (ensure_path_present api P w id E).
  - destruct (ensure_path_absent api P w E)
      as (news & w' & Hw' & Hnews & Hrun & Hsub & Hpre). cbv zeta in *.
    rewrite Hrun. cbn [snd]. apply ancestors_listed_intro.
    intros p id Hp x Hx.
    destruct (tree_index w !! p) as [id'|] eqn:Ep.
    + destruct (ancestors_listed_spec w p id' Hanc Ep x Hx) as [j Hj].
      exists j. by eapply lookup_weaken.
    + destruct (index_lookup_Some _ _ _ Hp) as (r & Hr & Hrp).
      rewrite Hw' in Hr. rewrite tree_grow in Hr.
      apply lookup_app_Some in Hr as [Hr|[_ Hr]].
      { apply index_lookup_None in Ep. exfalso. apply Ep. rewrite <- Hrp.
        apply list_elem_of_fmap_2. by eapply list_elem_of_lookup_2. }
      apply list_elem_of_lookup_2 in Hr. rewrite Hnews in Hr.
      apply list_elem_of_fmap in Hr as (y & -> & Hy%missing_subset).
      unfold created_node in Hrp. cbn [res_path] in Hrp.
      destruct (steps_prefix _ _ _ Hy) as (l1 & l2 & Hsegs & Hne & Hy2).
      rewrite app_empty_l in Hy2.
      assert (segments p = l1) as Hl1.
      { rewrite <- Hrp, Hy2. apply segments_join_slash.
        pose proof (segments_ok P) as Hok. rewrite Hsegs in Hok.
        by apply Forall_app in Hok as [? _]. }
      apply Hpre. rewrite Hsegs. apply steps_mono. by rewrite <- Hl1.
Qed.

Lemma ancestors_listed_tree (w w' : world) :
  Gateway.tree w = Gateway.tree w' → ancestors_listed w = ancestors_listed w'.
Proof. intros H. unfold ancestors_listed, tree_index. by rewrite H. Qed.

Lemma methods_loop_tree (env : environ) (api arn : string) (rid : nat)
    (l : list string) : ∀ w : world,
  Gateway.tree
    (for_each l (λ m, ensure_method_and_integration env api rid m arn) w).2
  = Gateway.tree w.
Proof.
  induction l as [|m l IH]; intros w; [done|].
  cbn [for_each]. unfold bind.
  pose proof (ensure_method_and_integration_spec env api rid m arn w) as Hspec.
  cbv zeta in Hspec.
  destruct (w_methods w !! (rid, PyStr.upper m));
    [|destruct (Gateway.tree w !! rid)]; rewrite Hspec; by rewrite ?IH.
Qed.

Lemma round_keeps_tree (env : environ) (api arn p : string) (w : world) :
  ancestors_listed w = true → ancestors_listed (round env api arn p w).2 = true.
Proof.
  intros Hanc. pose proof (ensure_path_keeps_tree api p w Hanc) as H1.
  unfold round, bind. destruct (ensure_path api p w) as [[rid|e] w1]; [|done].
  cbn [snd] in H1. rewrite <- H1. apply ancestors_listed_tree, methods_loop_tree.
Qed.

(** A whole run keeps the listing a tree, so every gateway the script
    has built from a bare root is one. *)
Lemma reconcile_keeps_tree (env : environ) (api arn : string) (paths : list string) :
  ∀ w : world,
    ancestors_listed w = true →
    ancestors_listed (reconcile env api arn paths w).2 = true.
Proof.
  induction paths as [|p ps IH]; intros w Hanc; [done|].
  rewrite reconcile_cons.
  pose proof (round_keeps_tree env api arn p w Hanc) as H1.
  destruct (round env api arn p w) as [[[]|e] w1]; cbn [snd] in *; [by apply IH|done].
Qed.

Example root_world_is_tree : ancestors_listed root_world = true.
Proof. reflexivity. Qed.

End TreeInvariant.

(** * Further properties of the script *)

Section Evolve.

Lemma world_eq (w w' : world) :
  w_apis w = w_apis w' → w_resources w = w_resources w' →
  w_methods w = w_methods w' → w_deployments w = w_deployments w' →
  w_functions w = w_functions w' → w_policy w = w_policy w' →
  w_account w = w_account w' → w_calls w = w_calls w' → w = w'.
Proof. destruct w, w'. simpl. by intros -> -> -> -> -> -> -> ->. Qed.

Lemma evolve_id (w : world) : evolve [] (w_methods w) [] w = w.
Proof. destruct w. unfold evolve, set_calls, set_methods, set_resources. simpl. by rewrite !app_nil_r. Qed.

Lemma evolve_evolve n1 n2 ms1 ms2 c1 c2 (w : world) :
  evolve n2 ms2 c2 (evolve n1 ms1 c1 w) = evolve (n1 ++ n2) ms2 (c1 ++ c2) w.
Proof. unfold evolve, set_calls, set_methods, set_resources. simpl. by rewrite !app_assoc. Qed.

Lemma grow_evolve news cs (w : world) : grow news cs w = evolve news (w_methods w) cs w.
Proof. by destruct w. Qed.

Lemma with_methods_evolve ms cs (w : world) : with_methods ms cs w = evolve [] ms cs w.
Proof.
  destruct w. unfold with_methods, evolve, set_calls, set_methods, set_resources.
  simpl. by rewrite app_nil_r.
Qed.

Lemma logged_evolve cs (w : world) : logged cs w = evolve [] (w_methods w) cs w.
Proof. by rewrite <- with_methods_evolve, with_methods_same. Qed.

Lemma issued_evolve {A} (m : M A) (w : world) r news ms cs :
  m w = (r, evolve news ms cs w) → issued m w = cs.
Proof. intros H. unfold issued. rewrite H. simpl. by rewrite drop_app_length. Qed.

Lemma tree_evolve news ms cs (w : world) :
  Gateway.tree (evolve news ms cs w) = Gateway.tree w ++ news.
Proof. reflexivity. Qed.

Lemma tree_index_evolve news ms cs (w : world) :
  tree_index (evolve news ms cs w) = index (Gateway.tree w ++ news).
Proof. reflexivity. Qed.

End Evolve.

Section Reconciler2.

Context (env : environ) (api arn : string).

(** The reconciler in closed form, whenever it does not abort. *)
Lemma ensure_method_and_integration_ok (rid : nat) (m : string) (w : world) :
  is_Some (Gateway.tree w !! rid) ∨ is_Some (w_methods w !! (rid, PyStr.upper m)) →
  let v := PyStr.upper m in
  let old := w_methods w !! (rid, v) in
  ensure_method_and_integration env api rid m arn w
  = (Ok tt,
     evolve [] (<[(rid, v) := method_after env arn old]> (w_methods w))
       (method_calls env api rid v arn old) w).
Proof.
  intros H. cbv zeta.
  pose proof (ensure_method_and_integration_spec env api rid m arn w) as Hspec.
  cbv zeta in Hspec. rewrite Hspec.
  destruct (w_methods w !! (rid, PyStr.upper m)) as [d|] eqn:E.
  - by rewrite with_methods_evolve.
  - destruct H as [[r Hr]|[? ?]]; [|done]. rewrite Hr. by rewrite with_methods_evolve.
Qed.

Lemma method_calls_kinds (rid : nat) (v : string) (old : option method) :
  Forall (λ c, gateway_call c = true) (method_calls env api rid v arn old)
  ∧ filter (λ c, is_put_integration c = true) (method_calls env api rid v arn old)
    = [PutIntegration api rid v "AWS_PROXY" "POST" (invocation_uri env arn)]
  ∧ filter (λ c, is_create c = true) (method_calls env api rid v arn old) = [].
Proof. destruct old; split_and!; by repeat constructor. Qed.

(** The loop over the methods of one existing resource. *)
Lemma methods_loop_effect (rid : nat) (l : list string) : ∀ w : world,
  is_Some (Gateway.tree w !! rid) →
  ∃ ms cs,
    for_each l (λ m, ensure_method_and_integration env api rid m arn) w
    = (Ok tt, evolve [] ms cs w)
    ∧ Forall (λ c, gateway_call c = true) cs
    ∧ filter (λ c, is_put_integration c = true) cs
      = (λ m, PutIntegration api rid (PyStr.upper m) "AWS_PROXY" "POST"
                (invocation_uri env arn)) <$> l
    ∧ filter (λ c, is_create c = true) cs = []
    ∧ (∀ k, k.1 ≠ rid ∨ k.2 ∉ PyStr.upper <$> l → ms !! k = w_methods w !! k)
    ∧ (∀ k d, w_methods w !! k = Some d →
         ∃ d', ms !! k = Some d' ∧ authorizationType d' = authorizationType d)
    ∧ (∀ k a, w_methods w !! k = Some (Method a (Some (target env arn))) →
         ∃ a', ms !! k = Some (Method a' (Some (target env arn))))
    ∧ (∀ m, m ∈ l →
         ∃ a, ms !! (rid, PyStr.upper m) = Some (Method a (Some (target env arn)))).
Proof.
  induction l as [|m l IH]; intros w Hrid.
  - exists (w_methods w), []. rewrite evolve_id.
    split_and!; try done; try by eauto.
    intros m Hm. by apply elem_of_nil in Hm.
  - cbn [for_each]. unfold bind.
    rewrite (ensure_method_and_integration_ok rid m w) by (by left). cbv zeta.
    set (v := PyStr.upper m). set (old := w_methods w !! (rid, v)).
    set (ms1 := <[(rid, v) := method_after env arn old]> (w_methods w)).
    set (cs1 := method_calls env api rid v arn old).
    destruct (IH (evolve [] ms1 cs1 w)) as (ms & cs & Hloop & Hk & Hput & Hcr & Hoth & Hauth & Htgt & Hall).
    { by rewrite tree_evolve, app_nil_r. }
    rewrite Hloop, evolve_evolve. exists ms, (cs1 ++ cs).
    destruct (method_calls_kinds rid v old) as (Hk1 & Hput1 & Hcr1).
    change (w_methods (evolve [] ms1 cs1 w)) with ms1 in *.
    split_and!.
    + done.
    + by apply Forall_app_2.
    + rewrite filter_app. fold cs1 in Hput1. by rewrite Hput1, Hput.
    + rewrite filter_app. fold cs1 in Hcr1. by rewrite Hcr1, Hcr.
    + intros k Hkk. rewrite Hoth.
      * unfold ms1. rewrite lookup_insert_ne; [done|]. intros <-.
        destruct Hkk as [Hkk|Hkk]; [by apply Hkk|]. apply Hkk.
        change ((rid, v).2) with (PyStr.upper m). apply list_elem_of_fmap_2. left.
      * destruct Hkk as [?|Hkk]; [by left|]. right. intros Hin. apply Hkk.
        apply list_elem_of_fmap in Hin as (m' & -> & Hm').
        apply list_elem_of_fmap_2. by right.
    + intros k d Hd.
      destruct (decide (k = (rid, v))) as [->|Hne].
      * destruct (Hauth (rid, v) (method_after env arn old)) as (d' & Hd' & Ha).
        { unfold ms1. by rewrite lookup_insert_eq. }
        exists d'. split; [done|]. rewrite Ha. unfold old. by rewrite Hd.
      * apply Hauth. unfold ms1. by rewrite lookup_insert_ne.
    + intros k a Ha.
      destruct (decide (k = (rid, v))) as [->|Hne].
      * apply (Htgt _ (authorizationType (method_after env arn old))).
        unfold ms1. by rewrite lookup_insert_eq.
      * apply (Htgt _ a). unfold ms1. by rewrite lookup_insert_ne.
    + intros m' [->|Hm']%elem_of_cons; [|by apply Hall].
      apply (Htgt _ (authorizationType (method_after env arn old))).
      unfold ms1. by rewrite lookup_insert_eq.
Qed.

End Reconciler2.

Section Effects.

Context (env : environ) (api arn : string).

Lemma create_calls_no_put (ids : gmap string nat) (l : list step) :
  filter (λ c, is_put_integration c = true) (create_call api ids <$> l) = [].
Proof.
  induction l as [|x l IH]; [done|].
  rewrite fmap_cons, filter_cons_False; [done|by intros ?].
Qed.

(** What resolving a path does to the world, whatever the path. *)
Lemma ensure_path_effect (P : string) (w : world) :
  ∃ news cs,
    let w' := evolve news (w_methods w) cs w in
    (ensure_path api P w).2 = w'
    ∧ Forall (λ c, gateway_call c = true) cs
    ∧ filter (λ c, is_put_integration c = true) cs = []
    ∧ Forall (λ r, res_path r ∈ partial_paths P) news
    ∧ tree_index w ⊆ tree_index w'
    ∧ (ensure_path api P w).1
      = match tree_index w' !! P with
        | Some id => Ok id
        | None => Raise (KeyError P)
        end.
Proof.
  destruct (tree_index w !! P) as [id|] eqn:E.
  - exists [], [GetResources api]. cbv zeta.
    rewrite (ensure_path_present api P w id E), log_grow, grow_evolve. cbn [fst snd].
    rewrite tree_index_evolve, app_nil_r. fold (tree_index w). rewrite E.
    split_and!; try done. by repeat constructor.
  - destruct (ensure_path_absent api P w E)
      as (news & w' & Hw' & Hnews & Hrun & Hsub & Hpre). cbv zeta in *.
    rewrite grow_evolve in Hw'. rewrite Hrun. cbn [fst snd].
    exists news,
      (GetResources api
         :: (create_call api (tree_index w')
               <$> missing (tree_index w) (steps EmptyString (segments P)))).
    rewrite <- Hw'. split_and!; try done.
    + constructor; [done|]. apply Forall_fmap, Forall_forall. intros x _. reflexivity.
    + rewrite filter_cons_False by (by intros ?). apply create_calls_no_put.
    + rewrite Hnews. apply Forall_fmap, Forall_forall. intros x Hx%missing_subset.
      cbn. unfold partial_paths. by apply list_elem_of_fmap_2.
Qed.

Lemma upper_METHODS : PyStr.upper <$> METHODS = METHODS.
Proof. reflexivity. Qed.

(** What the round for one path does to the world. *)
Lemma round_effect (p : string) (w : world) :
  ∃ news ms cs,
    let w' := evolve news ms cs w in
    (round env api arn p w).2 = w'
    ∧ Forall (λ c, gateway_call c = true) cs
    ∧ Forall (λ r, res_path r ∈ partial_paths p) news
    ∧ tree_index w ⊆ tree_index w'
    ∧ (∀ k, ms !! k = w_methods w !! k
            ∨ (tree_index w' !! p = Some k.1 ∧ k.2 ∈ METHODS))
    ∧ (∀ k d, w_methods w !! k = Some d →
         ∃ d', ms !! k = Some d' ∧ authorizationType d' = authorizationType d)
    ∧ match (round env api arn p w).1 with
      | Ok _ =>
          ∃ rid, tree_index w' !! p = Some rid
                 ∧ filter (λ c, is_put_integration c = true) cs
                   = (λ m, PutIntegration api rid m "AWS_PROXY" "POST"
                             (invocation_uri env arn)) <$> METHODS
      | Raise e =>
          e = KeyError p ∧ ms = w_methods w
          ∧ filter (λ c, is_put_integration c = true) cs = []
      end.
Proof.
  destruct (ensure_path_effect p w) as (news & cs1 & Hw1 & Hk1 & Hput1 & Hnews & Hsub & Hres).
  cbv zeta in *. unfold round, bind.
  destruct (ensure_path api p w) as [[rid|e] w1]; cbn [fst snd] in *; subst w1.
  - assert (tree_index (evolve news (w_methods w) cs1 w) !! p = Some rid) as Hrid.
    { destruct (tree_index _ !! p); congruence. }
    destruct (methods_loop_effect env api arn rid METHODS (evolve news (w_methods w) cs1 w))
      as (ms & cs & Hloop & Hk & Hput & _ & Hoth & Hauth & _ & _).
    { apply lookup_lt_is_Some. by eapply index_lookup_lt. }
    rewrite Hloop, evolve_evolve. cbn [fst snd].
    exists (news ++ []), ms, (cs1 ++ cs). rewrite !app_nil_r.
    change (tree_index (evolve news ms (cs1 ++ cs) w))
      with (tree_index (evolve news (w_methods w) cs1 w)).
    change (w_methods (evolve news (w_methods w) cs1 w)) with (w_methods w) in *.
    split_and!; try done.
    + by apply Forall_app_2.
    + intros k. destruct (decide (k.1 = rid)) as [Hk1'|Hne]; [|left; apply Hoth; by left].
      destruct (decide (k.2 ∈ METHODS)) as [Hin|Hnin].
      * right. by rewrite Hk1'.
      * left. apply Hoth. right. by rewrite upper_METHODS.
    + exists rid. split; [done|]. rewrite filter_app, Hput1, Hput. reflexivity.
  - exists news, (w_methods w), cs1. split_and!; try done.
    + intros k. by left.
    + intros k d Hd. by exists d.
    + destruct (tree_index _ !! p); [done|]. by inversion Hres.
Qed.

(** What a whole run does to the world. *)
Lemma reconcile_effect (ps : list string) : ∀ w : world,
  ∃ news ms cs,
    let w' := evolve news ms cs w in
    (reconcile env api arn ps w).2 = w'
    ∧ Forall (λ c, gateway_call c = true) cs
    ∧ Forall (λ r, ∃ p, p ∈ ps ∧ res_path r ∈ partial_paths p) news
    ∧ tree_index w ⊆ tree_index w'
    ∧ (∀ k, ms !! k = w_methods w !! k
            ∨ ∃ p, p ∈ ps ∧ tree_index w' !! p = Some k.1 ∧ k.2 ∈ METHODS)
    ∧ (∀ k d, w_methods w !! k = Some d →
         ∃ d', ms !! k = Some d' ∧ authorizationType d' = authorizationType d)
    ∧ ((reconcile env api arn ps w).1 = Ok tt →
       ∃ ids, Forall2 (λ p id, tree_index w' !! p = Some id) ps ids
              ∧ filter (λ c, is_put_integration c = true) cs
                = integration_writes env api arn ids).
Proof.
  induction ps as [|p ps IH]; intros w.
  - exists [], (w_methods w), []. cbv zeta. rewrite evolve_id.
    split_and!; try done; try by eauto.
  - rewrite reconcile_cons.
    destruct (round_effect p w) as (n1 & ms1 & c1 & Hw1 & Hk1 & Hn1 & Hsub1 & Hm1 & Ha1 & Hr1).
    cbv zeta in *.
    destruct (round env api arn p w) as [[[]|e] w1]; cbn [fst snd] in *; subst w1.
    + destruct (IH (evolve n1 ms1 c1 w))
        as (n2 & ms2 & c2 & Hw2 & Hk2 & Hn2 & Hsub2 & Hm2 & Ha2 & Hr2).
      cbv zeta in *. rewrite evolve_evolve in *.
      change (w_methods (evolve n1 ms1 c1 w)) with ms1 in *.
      exists (n1 ++ n2), ms2, (c1 ++ c2). split_and!; try done.
      * by apply Forall_app_2.
      * apply Forall_app_2.
        -- eapply Forall_impl; [exact Hn1|]. intros r Hr. exists p. split; [left|done].
        -- eapply Forall_impl; [exact Hn2|]. intros r (q & Hq & Hr). exists q.
           split; [by right|done].
      * by etrans.
      * intros k. destruct (Hm2 k) as [Hk|(q & Hq & Hid & Hin)].
        -- rewrite Hk. destruct (Hm1 k) as [?|[Hid Hin]]; [by left|].
           right. exists p. split_and!; [left| |done]. by eapply lookup_weaken.
        -- right. exists q. split_and!; [by right|done|done].
      * intros k d Hd. destruct (Ha1 k d Hd) as (d1 & Hd1 & He1).
        destruct (Ha2 k d1 Hd1) as (d2 & Hd2 & He2). exists d2. split; congruence.
      * intros Hok. destruct (Hr2 Hok) as (ids & Hids & Hput).
        destruct Hr1 as (rid & Hrid & Hput1). exists (rid :: ids). split.
        -- constructor; [by eapply lookup_weaken|done].
        -- rewrite filter_app, Hput1, Hput. reflexivity.
    + destruct Hr1 as (-> & -> & Hput1).
      exists n1, (w_methods w), c1. split_and!; try done.
      * eapply Forall_impl; [exact Hn1|]. intros r Hr. exists p. split; [left|done].
      * intros k. by left.
Qed.

End Effects.

Section Outcome.

Lemma join_slash_well_formed (l : list string) :
  l ≠ [] → Forall segment_ok l → well_formed_path (PyStr.join_slash l) = true.
Proof.
  intros Hne Hl. destruct l as [|x l]; [done|].
  pose proof (split_char_join_slash (x :: l)) as Hs.
  cbn [PyStr.join_slash] in *. rewrite app_cons, app_empty_l in *.
  cbn [well_formed_path PyStr.split_char] in *.
  rewrite Ascii.eqb_refl in *. cbn [andb].
  assert (PyStr.split_char "/" (x +:+ PyStr.join_slash l) = x :: l) as ->.
  { assert (EmptyString :: PyStr.split_char "/" (x +:+ PyStr.join_slash l)
            = EmptyString :: x :: l) as Heq; [|by inversion Heq].
    apply Hs; [|done]. eapply Forall_impl; [exact Hl|]. by intros ? []. }
  apply forallb_forall. intros s Hs'%list_elem_of_In.
  rewrite Forall_forall in Hl. by destruct (Hl s Hs').
Qed.

Lemma step_path_well_formed (P : string) (x : step) :
  x ∈ steps EmptyString (segments P) → well_formed_path (step_path x) = true.
Proof.
  intros Hx. destruct (steps_prefix _ _ _ Hx) as (l1 & l2 & Hsegs & Hne & ->).
  rewrite app_empty_l. apply join_slash_well_formed; [done|].
  pose proof (segments_ok P) as Hok. rewrite Hsegs in Hok.
  by apply Forall_app in Hok as [? _].
Qed.

Lemma well_formed_iff (P : string) :
  well_formed_path P = true
  ↔ segments P ≠ [] ∧ PyStr.join_slash (segments P) = P.
Proof.
  split; [apply well_formed_segments|]. intros [Hne Hj]. rewrite <- Hj.
  apply join_slash_well_formed; [done|apply segments_ok].
Qed.

(** The outcome of [ensure_path] on a path that is not listed. *)
Lemma ensure_path_unlisted_outcome (api P : string) (w : world) :
  tree_index w !! P = None →
  (ensure_path api P w).1
  = if well_formed_path P
    then match tree_index (ensure_path api P w).2 !! P with
         | Some id => Ok id
         | None => Raise (KeyError P)
         end
    else Raise (KeyError P).
Proof.
  intros E. destruct (ensure_path_absent api P w E)
    as (news & w' & Hw' & Hnews & Hrun & Hsub & Hpre). cbv zeta in *.
  rewrite Hrun. cbn [fst snd].
  destruct (well_formed_path P) eqn:Hwf; [done|].
  destruct (tree_index w' !! P) as [id|] eqn:E'; [|done]. exfalso.
  destruct (index_lookup_Some _ _ _ E') as (r & Hr & Hrp).
  rewrite Hw', tree_grow in Hr.
  apply lookup_app_Some in Hr as [Hr|[_ Hr]].
  - apply index_lookup_None in E. apply E. rewrite <- Hrp.
    apply list_elem_of_fmap_2. by eapply list_elem_of_lookup_2.
  - apply list_elem_of_lookup_2 in Hr. rewrite Hnews in Hr.
    apply list_elem_of_fmap in Hr as (y & -> & Hy%missing_subset).
    unfold created_node in Hrp. cbn [res_path] in Hrp.
    apply step_path_well_formed in Hy. congruence.
Qed.

Lemma ensure_path_unlisted_ok (api P : string) (w : world) :
  tree_index w !! P = None → well_formed_path P = true →
  ∃ id, (ensure_path api P w).1 = Ok id
        ∧ tree_index (ensure_path api P w).2 !! P = Some id.
Proof.
  intros E HP. destruct (well_formed_segments P HP) as [Hne Hjoin].
  destruct (ensure_path_absent api P w E)
    as (news & w' & Hw' & Hnews & Hrun & Hsub & Hpre). cbv zeta in *.
  destruct (steps_last EmptyString (segments P) Hne) as (x & Hx & Hx2).
  rewrite app_empty_l, Hjoin in Hx2.
  destruct (Hpre x Hx) as [id Hid]. rewrite Hx2 in Hid.
  exists id. by rewrite Hrun, Hid.
Qed.

(** X1. [ensure_path] on any path [P] and any gateway.  It raises
    [KeyError P] exactly when [P] is not listed and is not well formed
    (it does not begin with [/] or has an empty segment, a trailing
    slash for instance); it returns the id listed for [P] afterwards
    exactly when [P] was listed or is well formed.  When [P] was not
    listed, on the failing run too, the calls issued are one listing
    followed by one [create_resource] per missing partial path, the tree
    grows by exactly those nodes, and every partial path of [P] is
    listed afterwards.  The methods are never touched. *)
Theorem ensure_path_outcome (api P : string) (w : world) :
  let out := ensure_path api P w in
  let todo := missing (tree_index w) (steps EmptyString (segments P)) in
  (out.1 = Raise (KeyError P)
   ↔ tree_index w !! P = None ∧ well_formed_path P = false)
  ∧ ((∃ id, out.1 = Ok id ∧ tree_index out.2 !! P = Some id)
     ↔ is_Some (tree_index w !! P) ∨ well_formed_path P = true)
  ∧ (tree_index w !! P = None →
     issued (ensure_path api P) w
     = GetResources api :: (create_call api (tree_index out.2) <$> todo)
     ∧ Gateway.tree out.2
       = Gateway.tree w ++ (created_node (tree_index out.2) <$> todo)
     ∧ Forall (λ q, is_Some (tree_index out.2 !! q)) (partial_paths P))
  ∧ w_methods out.2 = w_methods w.
Proof.
  cbv zeta. destruct (tree_index w !! P) as [id|] eqn:E.
  - rewrite (ensure_path_present api P w id E). cbn [fst snd].
    change (tree_index (log _ w)) with (tree_index w).
    split_and!; [split; [done|by intros [? _]]| |done|done].
    split; [by left|]. intros _. by exists id.
  - pose proof (ensure_path_unlisted_outcome api P w E) as Hout.
    destruct (ensure_path_absent api P w E)
      as (news & w' & Hw' & Hnews & Hrun & Hsub & Hpre). cbv zeta in *.
    assert (issued (ensure_path api P) w
            = GetResources api
                :: (create_call api (tree_index w')
                      <$> missing (tree_index w) (steps EmptyString (segments P))))
      as Hiss.
    { eapply issued_grow. rewrite Hrun. f_equal. exact Hw'. }
    destruct (well_formed_path P) eqn:Hwf.
    + destruct (ensure_path_unlisted_ok api P w E Hwf) as (id & Hid & Hlk).
      rewrite Hiss. rewrite Hrun in *. cbn [fst snd] in *.
      split_and!.
      * rewrite Hid. split; [done|by intros [_ ?]].
      * split; [by right|]. intros _. by exists id.
      * intros _. split_and!; [done| |].
        -- rewrite Hw' at 1. by rewrite tree_grow, <- Hnews.
        -- apply Forall_forall. intros q (y & -> & Hy)%list_elem_of_fmap. by apply Hpre.
      * by rewrite Hw'.
    + rewrite Hiss. rewrite Hrun in *. cbn [fst snd] in *. rewrite Hout.
      split_and!.
      * done.
      * split; [intros (id & ? & _); done|]. by intros [[? ?]|?].
      * intros _. split_and!; [done| |].
        -- rewrite Hw' at 1. by rewrite tree_grow, <- Hnews.
        -- apply Forall_forall. intros q (y & -> & Hy)%list_elem_of_fmap. by apply Hpre.
      * by rewrite Hw'.
Qed.

End Outcome.

Section RunTheorems.

Context (env : environ) (api arn : string).

Lemma round_ok (p : string) (w : world) :
  is_Some (tree_index w !! p) ∨ well_formed_path p = true →
  (round env api arn p w).1 = Ok tt.
Proof.
  intros Hp.
  assert (∃ id, (ensure_path api p w).1 = Ok id
                ∧ tree_index (ensure_path api p w).2 !! p = Some id)
    as (id & Hid & Hlk).
  { destruct (tree_index w !! p) as [id|] eqn:E.
    - exists id. by rewrite (ensure_path_present api p w id E).
    - destruct Hp as [[? ?]|Hp]; [done|]. by apply ensure_path_unlisted_ok. }
  unfold round, bind.
  destruct (ensure_path api p w) as [[rid|e] w1]; cbn [fst snd] in *; [|done].
  injection Hid as ->.
  destruct (methods_loop_effect env api arn id METHODS w1) as (ms & cs & Hloop & _).
  { apply lookup_lt_is_Some. by eapply index_lookup_lt. }
  by rewrite Hloop.
Qed.

Lemma reconcile_ok (ps : list string) : ∀ w : world,
  Forall (λ p, well_formed_path p = true) ps →
  (reconcile env api arn ps w).1 = Ok tt.
Proof.
  induction ps as [|p ps IH]; intros w Hps; [done|].
  apply Forall_cons in Hps as [Hp Hps]. rewrite reconcile_cons.
  pose proof (round_ok p w (or_intror Hp)) as Hr.
  destruct (round env api arn p w) as [[[]|e] w1]; cbn [fst] in Hr; [|done].
  by apply IH.
Qed.

Lemma reconcile_covered (ps : list string) : ∀ w : world,
  (reconcile env api arn ps w).1 = Ok tt →
  ∀ p, p ∈ ps → reconciled env arn p (reconcile env api arn ps w).2.
Proof.
  induction ps as [|p ps IH]; intros w Hok q Hq; [by apply elem_of_nil in Hq|].
  rewrite reconcile_cons in *.
  destruct (round_settles env api arn p w) as [_ Hset].
  destruct (round env api arn p w) as [[[]|e] w1]; cbn [fst snd] in *; [|done].
  apply elem_of_cons in Hq as [->|Hq]; [|by apply IH].
  eapply reconciled_progress; [exact Hset|].
  apply (reconcile_replay env api arn ps w1).
Qed.

Lemma upper_of_METHODS (m : string) : m ∈ METHODS → PyStr.upper m = m.
Proof.
  intros H. unfold METHODS in H.
  repeat (apply elem_of_cons in H as [->|H]; [reflexivity|]).
  by apply elem_of_nil in H.
Qed.

End RunTheorems.

(** X2. When every desired path is well formed, the loop of [main]
    over the paths (lines 152-157) succeeds on any gateway, and
    afterwards every desired path is listed and its resource carries
    each of the six methods GET, POST, PUT, DELETE, PATCH and OPTIONS
    with an AWS_PROXY integration, invoked through POST, at the
    invocation URI of the handler. *)
Theorem reconcile_covers (env : environ) (api arn : string) (paths : list string)
    (w : world) :
  Forall (λ p, well_formed_path p = true) paths →
  let out := reconcile env api arn paths w in
  out.1 = Ok tt
  ∧ ∀ p, p ∈ paths →
      ∃ rid, tree_index out.2 !! p = Some rid
             ∧ ∀ m, m ∈ METHODS →
                 ∃ auth, w_methods out.2 !! (rid, m)
                         = Some (Method auth
                                   (Some (Integration "AWS_PROXY" "POST"
                                            (invocation_uri env arn)))).
Proof.
  intros Hps. cbv zeta.
  pose proof (reconcile_ok env api arn paths w Hps) as Hok. split; [done|].
  intros p Hp.
  destruct (reconcile_covered env api arn paths w Hok p Hp) as (rid & Hrid & Hall).
  exists rid. split; [done|]. intros m Hm.
  destruct (Hall m Hm) as [a Ha]. exists a. by rewrite (upper_of_METHODS m Hm) in Ha.
Qed.

Lemma reconcile_covers_witness :
  Forall (λ p, well_formed_path p = true) ["/orders"; "/orders/{id}"]
  ∧ (reconcile demo_env "a1b2c3" demo_arn ["/orders"; "/orders/{id}"] root_world).1 = Ok tt.
Proof.
  assert (Forall (λ p, well_formed_path p = true) ["/orders"; "/orders/{id}"]) as H
    by (repeat constructor).
  split; [exact H|].
  apply (reconcile_covers demo_env "a1b2c3" demo_arn ["/orders"; "/orders/{id}"]
           root_world H).
Defined.

(** X3. Whatever its outcome, the loop over the paths only adds.  The
    tree afterwards is the old tree followed by new nodes, each on a
    partial path of some desired path; listed paths keep their ids; a
    method differs from what it was only on the resource listed for a
    desired path and for one of the six verbs; a method that existed
    still exists, with its authorization type; the APIs, deployments,
    functions, policy and account are as they were; and every call
    issued is a call on the resources, methods or integrations of the
    gateway. *)
Theorem reconcile_only_adds (env : environ) (api arn : string) (paths : list string)
    (w : world) :
  let w' := (reconcile env api arn paths w).2 in
  (∃ news, Gateway.tree w' = Gateway.tree w ++ news
           ∧ Forall (λ r, ∃ p, p ∈ paths ∧ res_path r ∈ partial_paths p) news)
  ∧ tree_index w ⊆ tree_index w'
  ∧ (∀ k, w_methods w' !! k = w_methods w !! k
          ∨ ∃ p, p ∈ paths ∧ tree_index w' !! p = Some k.1 ∧ k.2 ∈ METHODS)
  ∧ (∀ k d, w_methods w !! k = Some d →
       ∃ d', w_methods w' !! k = Some d'
             ∧ authorizationType d' = authorizationType d)
  ∧ w_apis w' = w_apis w ∧ w_deployments w' = w_deployments w
  ∧ w_functions w' = w_functions w ∧ w_policy w' = w_policy w
  ∧ w_account w' = w_account w
  ∧ Forall (λ c, gateway_call c = true) (issued (reconcile env api arn paths) w).
Proof.
  cbv zeta.
  destruct (reconcile_effect env api arn paths w)
    as (news & ms & cs & Hw' & Hk & Hnews & Hsub & Hm & Ha & _). cbv zeta in *.
  assert (issued (reconcile env api arn paths) w = cs) as ->.
  { unfold issued. rewrite Hw'. simpl. by rewrite drop_app_length. }
  rewrite Hw'. split_and!; try done. by exists news.
Qed.

(** X4. When the loop over the paths succeeds, the [put_integration]
    calls it issued are, in this order: for each desired path in input
    order (repetitions included), for each of the six verbs in the order
    of the tuple of line 155, one call on the resource listed for the
    path.  They are six times as many as the desired paths. *)
Theorem reconcile_write_order (env : environ) (api arn : string)
    (paths : list string) (w : world) :
  let out := reconcile env api arn paths w in
  out.1 = Ok tt →
  ∃ ids,
    Forall2 (λ p id, tree_index out.2 !! p = Some id) paths ids
    ∧ filter (λ c, is_put_integration c = true) (issued (reconcile env api arn paths) w)
      = integration_writes env api arn ids
    ∧ length (filter (λ c, is_put_integration c = true)
                (issued (reconcile env api arn paths) w))
      = 6 * length paths.
Proof.
  cbv zeta. intros Hok.
  destruct (reconcile_effect env api arn paths w)
    as (news & ms & cs & Hw' & _ & _ & _ & _ & _ & Hput). cbv zeta in *.
  assert (issued (reconcile env api arn paths) w = cs) as ->.
  { unfold issued. rewrite Hw'. simpl. by rewrite drop_app_length. }
  destruct (Hput Hok) as (ids & Hids & Hf). exists ids. rewrite Hw', Hf.
  split_and!; [done|done|].
  rewrite (Forall2_length _ _ _ Hids). unfold integration_writes.
  clear. induction ids as [|i ids IH]; [done|].
  rewrite fmap_cons. cbn [concat]. rewrite length_app, IH, length_fmap.
  cbn [length METHODS]. lia.
Qed.

Lemma reconcile_write_order_witness :
  (reconcile demo_env "a1b2c3" demo_arn ["/orders"; "/orders/{id}"] root_world).1 = Ok tt
  ∧ length (filter (λ c, is_put_integration c = true)
              (issued (reconcile demo_env "a1b2c3" demo_arn ["/orders"; "/orders/{id}"])
                 root_world))
    = 12.
Proof.
  assert ((reconcile demo_env "a1b2c3" demo_arn ["/orders"; "/orders/{id}"]
             root_world).1 = Ok tt) as H by (vm_compute; reflexivity).
  split; [exact H|].
  destruct (reconcile_write_order demo_env "a1b2c3" demo_arn ["/orders"; "/orders/{id}"]
              root_world H) as (ids & _ & _ & Hlen).
  exact Hlen.
Defined.

Section Lookup.

Lemma find_in_pages_concat (name : string) (pages : list (list rest_api)) :
  find_in_pages name pages = find_in_page name (concat pages).
Proof.
  induction pages as [|page pages IH]; [done|]. simpl. rewrite IH. clear IH.
  induction page as [|it page IH]; simpl; [done|].
  destruct (decide (api_name it = name)); [done|]. exact IH.
Qed.

Lemma find_in_page_first (name : string) (l : list rest_api) :
  find_in_page name l = api_id <$> first_named name l.
Proof.
  unfold first_named. induction l as [|it l IH]; [done|]. simpl.
  rewrite filter_cons. destruct (decide (api_name it = name)); [done|]. exact IH.
Qed.

Lemma find_in_pages_paginate (name : string) (l : list rest_api) :
  find_in_pages name (paginate 500 l) = api_id <$> first_named name l.
Proof. by rewrite find_in_pages_concat, concat_paginate, find_in_page_first. Qed.

Lemma first_named_Some (name : string) (l : list rest_api) (it : rest_api) :
  first_named name l = Some it
  ↔ ∃ l1 l2, l = l1 ++ it :: l2 ∧ api_name it = name
             ∧ Forall (λ x, api_name x ≠ name) l1.
Proof.
  unfold first_named. induction l as [|x l IH].
  - split; [done|]. intros (l1 & l2 & Hl & _). by destruct l1.
  - rewrite filter_cons. destruct (decide (api_name x = name)) as [Hx|Hx].
    + simpl. split.
      * intros [= <-]. exists [], l. by split_and!.
      * intros (l1 & l2 & Hl & Hit & Hall). destruct l1 as [|y l1].
        -- by injection Hl as -> _.
        -- injection Hl as -> _. apply Forall_cons in Hall as [? _]. done.
    + rewrite IH. split.
      * intros (l1 & l2 & -> & Hit & Hall). exists (x :: l1), l2.
        split_and!; [done|done|by constructor].
      * intros (l1 & l2 & Hl & Hit & Hall). destruct l1 as [|y l1].
        -- injection Hl as -> _. done.
        -- injection Hl as -> ->. apply Forall_cons in Hall as [_ Hall].
           by exists l1, l2.
Qed.

Lemma first_named_None (name : string) (l : list rest_api) :
  first_named name l = None ↔ Forall (λ x, api_name x ≠ name) l.
Proof.
  unfold first_named. induction l as [|x l IH]; [by split|].
  rewrite filter_cons. destruct (decide (api_name x = name)) as [Hx|Hx].
  - simpl. split; [done|]. by intros [? _]%Forall_cons.
  - rewrite IH. split; [by constructor|by intros [_ ?]%Forall_cons].
Qed.

End Lookup.

(** X5. [find_rest_api_id_by_name] issues one paginated listing and
    returns the id of the first API of the listing, whatever its page,
    whose name is the requested one; it returns [None] exactly when no
    API carries the name.  Nothing but the log of calls changes. *)
Theorem find_rest_api_first_match (name : string) (w : world) :
  find_rest_api_id_by_name name w
  = (Ok (api_id <$> first_named name (w_apis w)), log GetRestApis w)
  ∧ (first_named name (w_apis w) = None
     ↔ Forall (λ x, api_name x ≠ name) (w_apis w))
  ∧ (∀ it, first_named name (w_apis w) = Some it
           ↔ ∃ l1 l2, w_apis w = l1 ++ it :: l2 ∧ api_name it = name
                      ∧ Forall (λ x, api_name x ≠ name) l1).
Proof.
  split_and!; [|apply first_named_None|intros it; apply first_named_Some].
  unfold find_rest_api_id_by_name, bind, Gateway.get_rest_apis, ret.
  by rewrite find_in_pages_paginate.
Qed.

Section MainFacts.

Context (env : environ) (abspath : string → string)
    (read_json : string → file) (py_repr : json → string).

Lemma create_deployment_ok (api stage : string) (w : world) :
  deployable w →
  Gateway.create_deployment api stage w
  = (Ok tt,
     set_deployments (w_deployments w ++ [stage]) (log (CreateDeployment api stage) w)).
Proof.
  intros (k & a & i & Hk). unfold Gateway.create_deployment.
  change (w_methods (log _ w)) with (w_methods w).
  change (w_deployments (log _ w)) with (w_deployments w).
  assert (Method a (Some i) ∈ (map_to_list (w_methods w)).*2) as Hin.
  { apply list_elem_of_fmap. exists (k, Method a (Some i)).
    split; [done|]. by apply elem_of_map_to_list. }
  destruct (decide ((map_to_list (w_methods w)).*2 = [])) as [E|E].
  { rewrite E in Hin. by apply elem_of_nil in Hin. }
  rewrite bool_decide_eq_false_2 by done.
  destruct (forallb _ _) eqn:Hall; [|done]. exfalso.
  rewrite forallb_forall in Hall. apply list_elem_of_In in Hin.
  specialize (Hall _ Hin). by apply bool_decide_eq_true in Hall.
Qed.

Lemma create_deployment_cases (api stage : string) (w : world) :
  deployable w
  ∨ ∃ e, Gateway.create_deployment api stage w
         = (Raise e, log (CreateDeployment api stage) w).
Proof.
  unfold Gateway.create_deployment.
  change (w_methods (log _ w)) with (w_methods w).
  destruct (bool_decide _); [right; by eexists|].
  destruct (forallb _ _) eqn:Hall; [right; by eexists|]. left.
  assert (∃ m, m ∈ (map_to_list (w_methods w)).*2 ∧ methodIntegration m ≠ None)
    as (m & Hin & Hm).
  { induction ((map_to_list (w_methods w)).*2) as [|m l IH]; [done|].
    simpl in Hall. destruct (decide (methodIntegration m = None)) as [E|E].
    - rewrite bool_decide_eq_true_2 in Hall by done. simpl in Hall.
      destruct (IH Hall) as (m' & ? & ?). exists m'. split; [by right|done].
    - exists m. split; [left|done]. }
  apply list_elem_of_fmap in Hin as ([k m'] & -> & Hin%elem_of_map_to_list).
  destruct m' as [a [i|]]; [|done]. by exists k, a, i.
Qed.

Lemma create_deployment_empty (api stage : string) (w : world) :
  w_methods w = ∅ →
  Gateway.create_deployment api stage w
  = (Raise BadRequestException, log (CreateDeployment api stage) w).
Proof.
  intros E. unfold Gateway.create_deployment.
  change (w_methods (log _ w)) with (w_methods w). by rewrite E, map_to_list_empty.
Qed.

(** A run of the loop that succeeded on at least one path, or on a
    gateway that could be deployed, leaves one that can. *)
Lemma reconcile_deployable (api arn : string) (ps : list string) (w : world) :
  (reconcile env api arn ps w).1 = Ok tt →
  ps ≠ [] ∨ deployable w →
  deployable (reconcile env api arn ps w).2.
Proof.
  intros Hok Hcase.
  assert (ps ≠ [] → deployable (reconcile env api arn ps w).2) as Hne.
  { destruct ps as [|p ps]; [done|]. intros _.
    destruct (reconcile_covered env api arn (p :: ps) w Hok p) as (rid & _ & Hall);
      [left|].
    destruct (Hall "GET") as [a Ha]; [left|]. by eexists _, a, _. }
  destruct Hcase as [?|(k & a & i & Hk)]; [by apply Hne|].
  destruct (reconcile_effect env api arn ps w)
    as (news & ms & cs & Hw' & _ & _ & _ & Hm & _). cbv zeta in *.
  destruct (Hm k) as [Hsame|(p & Hp & _)].
  - rewrite Hw'. exists k, a, i. cbn. by rewrite Hsame.
  - apply Hne. intros ->. by apply elem_of_nil in Hp.
Qed.

Lemma main_not_found (args : arguments) (w : world) :
  has_region env = true →
  (∀ it, first_named (arg_api_name args) (w_apis w) = Some it →
         api_id it = EmptyString) →
  main env abspath read_json py_repr args w
  = (Raise (RuntimeError (not_found (arg_api_name args))),
     log GetRestApis (log GetCallerIdentity w)).
Proof.
  intros Hreg H. rewrite main_unfold by done. cbv zeta.
  rewrite find_in_pages_paginate.
  destruct (first_named _ _) as [it|]; [|done]. simpl.
  by rewrite (H it eq_refl).
Qed.

Lemma main_found (args : arguments) (w : world) (it : rest_api) :
  has_region env = true →
  first_named (arg_api_name args) (w_apis w) = Some it →
  PyStr.truthy (api_id it) = true →
  main env abspath read_json py_repr args w =
  match w_functions w !! lambda_name args with
  | None => (Raise ResourceNotFoundException, preflight args w)
  | Some arn =>
      match read_json (config_path abspath args) with
      | Content (JArray l) =>
          match reconcile env (api_id it) arn (py_str py_repr <$> l) (preflight args w) with
          | (Ok _, w4) =>
              match add_permission_for_apigw arn (api_id it) (w_account w)
                      (grant_region env) w4 with
              | (Ok _, w5) => deploy_stage (api_id it) (arg_stage args) w5
              | (Raise e, w5) => (Raise e, w5)
              end
          | (Raise e, w4) => (Raise e, w4)
          end
      | f => (Raise (config_error f), preflight args w)
      end
  end.
Proof.
  intros Hreg Hit Ht. rewrite main_unfold by done. cbv zeta.
  rewrite find_in_pages_paginate, Hit.
  simpl. rewrite Ht. simpl.
  destruct (w_functions w !! lambda_name args) as [arn|]; [|done].
  unfold bind at 1, load_paths.
  by destruct (read_json (config_path abspath args)) as [| |[]].
Qed.

Lemma known_of_lookup (name arn : string) (w : world) :
  w_functions w !! name = Some arn → Lambda.known arn w = true.
Proof.
  intros H. unfold Lambda.known. apply orb_true_iff. right.
  apply bool_decide_eq_true_2. apply list_elem_of_fmap.
  exists (name, arn). split; [done|]. by apply elem_of_map_to_list.
Qed.

Lemma known_frame (arn : string) (w w' : world) :
  w_functions w' = w_functions w → Lambda.known arn w' = Lambda.known arn w.
Proof. intros H. unfold Lambda.known. by rewrite H. Qed.

(** The run when the three lookups and the configuration are fine and
    every path resolves. *)
Lemma main_success_form (args : arguments) (w : world) (it : rest_api)
    (arn : string) (l : list json) :
  has_region env = true →
  first_named (arg_api_name args) (w_apis w) = Some it →
  PyStr.truthy (api_id it) = true →
  w_functions w !! lambda_name args = Some arn →
  read_json (config_path abspath args) = Content (JArray l) →
  (reconcile env (api_id it) arn (py_str py_repr <$> l) (preflight args w)).1 = Ok tt →
  deployable (reconcile env (api_id it) arn (py_str py_repr <$> l) (preflight args w)).2 →
  ∃ news ms cs pol,
    main env abspath read_json py_repr args w
    = (Ok tt,
       set_deployments (w_deployments w ++ [arg_stage args])
         (set_policy pol
            (evolve news ms
               ([GetCallerIdentity; GetRestApis; GetFunction (lambda_name args)]
                ++ cs
                ++ [grant_call arn (api_id it) (w_account w) (grant_region env);
                    CreateDeployment (api_id it) (arg_stage args)]) w)))
    ∧ (reconcile env (api_id it) arn (py_str py_repr <$> l) (preflight args w)).2
      = evolve news ms cs (preflight args w)
    ∧ Forall (λ c, gateway_call c = true) cs
    ∧ is_Some (pol !! (arn, statement_id (api_id it) arn))
    ∧ (∀ k, k ≠ (arn, statement_id (api_id it) arn) → pol !! k = w_policy w !! k)
    ∧ (∀ st, w_policy w !! (arn, statement_id (api_id it) arn) = Some st →
             pol = w_policy w).
Proof.
  intros Hreg Hit Ht Hfn Hcfg Hok Hdep.
  rewrite (main_found args w it Hreg Hit Ht), Hfn, Hcfg.
  destruct (reconcile_effect env (api_id it) arn (py_str py_repr <$> l) (preflight args w))
    as (news & ms & cs & Hw4 & Hk & _). cbv zeta in Hw4.
  destruct (reconcile _ _ _ _ _) as [[[]|e] w4]; cbn [fst snd] in *; [|done].
  subst w4. rewrite grant_spec. cbv zeta.
  rewrite (known_frame arn w) by done. rewrite (known_of_lookup _ _ _ Hfn). cbn [negb].
  change (w_policy (evolve news ms cs (preflight args w))) with (w_policy w).
  destruct (w_policy w !! (arn, statement_id (api_id it) arn)) as [st|] eqn:Epol.
  - exists news, ms, cs, (w_policy w). split_and!; try done.
    unfold deploy_stage. rewrite create_deployment_ok by exact Hdep. f_equal.
    apply world_eq; cbn; try done. by rewrite <- !app_assoc.
  - exists news, ms, cs,
      (<[(arn, statement_id (api_id it) arn) :=
           Statement "lambda:InvokeFunction" "apigateway.amazonaws.com"
             ("arn:aws:execute-api:" +:+ grant_region env +:+ ":" +:+ w_account w
              +:+ ":" +:+ api_id it +:+ "/*/*/*")]> (w_policy w)).
    split_and!; try done.
    + unfold deploy_stage. rewrite create_deployment_ok by exact Hdep. f_equal.
      apply world_eq; cbn; try done. by rewrite <- !app_assoc.
    + by rewrite lookup_insert_eq.
    + intros k Hk'. by rewrite lookup_insert_ne.
Qed.

End MainFacts.

(** X6. In a process whose session has a region (so that the clients
    of lines 124-126 are built): when no API carries the requested
    name, or the first that does has an empty id, [main] raises
    [RuntimeError] with the message of lines 140-142 after exactly two
    calls, [get_caller_identity] and [get_rest_apis]; the handler is not
    looked up and nothing but the log of calls changes. *)
Theorem main_gateway_unresolved (env : environ) (abspath : string → string)
    (read_json : string → file)
    (py_repr : json → string) (args : arguments) (w : world) :
  has_region env = true →
  (∀ it, first_named (arg_api_name args) (w_apis w) = Some it →
         api_id it = EmptyString) →
  let run := main env abspath read_json py_repr args in
  run w = (Raise (RuntimeError (not_found (arg_api_name args))),
           log GetRestApis (log GetCallerIdentity w))
  ∧ issued run w = [GetCallerIdentity; GetRestApis].
Proof.
  intros Hreg H. cbv zeta.
  pose proof (main_not_found env abspath read_json py_repr args w Hreg H) as Hrun.
  split; [done|]. by eapply issued_log2.
Qed.

Lemma main_gateway_unresolved_witness :
  has_region region_env = true
  ∧ (∀ it, first_named (arg_api_name staging_args) (w_apis demo_world) = Some it →
         api_id it = EmptyString)
  ∧ issued (main region_env demo_abspath array_config demo_repr staging_args) demo_world
    = [GetCallerIdentity; GetRestApis].
Proof.
  assert (∀ it, first_named (arg_api_name staging_args) (w_apis demo_world) = Some it →
                api_id it = EmptyString) as H.
  { intros it Hit. vm_compute in Hit. discriminate Hit. }
  split; [reflexivity|]. split; [exact H|].
  apply (main_gateway_unresolved region_env demo_abspath array_config demo_repr
           staging_args demo_world eq_refl H).
Defined.

(** X7. In a process whose session has a region, with the gateway
    resolved: when no function is named
    prefix + module, [main] raises the registry's
    [ResourceNotFoundException]; when the function exists and the
    configuration file is missing, is not JSON, or holds something other
    than an array, [main] raises [FileNotFoundError], [JSONDecodeError]
    or the [ValueError] of line 107.  In all these cases exactly the
    three lookups were issued and nothing but the log of calls
    changed. *)
Theorem main_lookup_failures (env : environ) (abspath : string → string)
    (read_json : string → file)
    (py_repr : json → string) (args : arguments) (w : world) (it : rest_api) :
  has_region env = true →
  first_named (arg_api_name args) (w_apis w) = Some it →
  PyStr.truthy (api_id it) = true →
  let run := main env abspath read_json py_repr args in
  let reads := [GetCallerIdentity; GetRestApis; GetFunction (lambda_name args)] in
  (w_functions w !! lambda_name args = None →
   run w = (Raise ResourceNotFoundException, logged reads w))
  ∧ (is_Some (w_functions w !! lambda_name args) →
     (∀ l, read_json (config_path abspath args) ≠ Content (JArray l)) →
     run w = (Raise (config_error (read_json (config_path abspath args))), logged reads w))
  ∧ ((w_functions w !! lambda_name args = None
      ∨ ∀ l, read_json (config_path abspath args) ≠ Content (JArray l)) →
     issued run w = reads).
Proof.
  intros Hreg Hit Ht. cbv zeta.
  pose proof (main_found env abspath read_json py_repr args w it Hreg Hit Ht) as Hrun.
  assert (preflight args w
          = logged [GetCallerIdentity; GetRestApis; GetFunction (lambda_name args)] w)
    as Hpre.
  { unfold preflight, log, logged. apply world_eq; cbn; try done.
    by rewrite <- !app_assoc. }
  rewrite Hpre in Hrun.
  assert (∀ r, main env abspath read_json py_repr args w
               = (r, logged [GetCallerIdentity; GetRestApis;
                             GetFunction (lambda_name args)] w) →
               issued (main env abspath read_json py_repr args) w
               = [GetCallerIdentity; GetRestApis; GetFunction (lambda_name args)])
    as Hiss.
  { intros r Hr. unfold issued. rewrite Hr. simpl. by rewrite drop_app_length. }
  split_and!.
  - intros Hfn. by rewrite Hrun, Hfn.
  - intros [arn Hfn] Hcfg. rewrite Hrun, Hfn.
    destruct (read_json (config_path abspath args)) as [| |[| | | |l0|]] eqn:Hf;
      try done; try (by destruct (Hcfg l0)).
  - intros [Hfn|Hcfg].
    + eapply Hiss. by rewrite Hrun, Hfn.
    + destruct (w_functions w !! lambda_name args) as [arn|] eqn:Hfn;
        [|eapply Hiss; by rewrite Hrun].
      destruct (read_json (config_path abspath args)) as [| |[| | | |l0|]] eqn:Hf;
        try (by eapply Hiss; rewrite Hrun). by destruct (Hcfg l0).
Qed.

Lemma main_lookup_failures_witness :
  has_region region_env = true
  ∧ first_named (arg_api_name demo_args) (w_apis root_world) = Some demo_api
  ∧ PyStr.truthy (api_id demo_api) = true
  ∧ main region_env demo_abspath array_config demo_repr demo_args root_world
    = (Raise ResourceNotFoundException,
       logged [GetCallerIdentity; GetRestApis; GetFunction (lambda_name demo_args)]
         root_world).
Proof.
  split; [reflexivity|]. split; [reflexivity|]. split; [reflexivity|].
  apply (main_lookup_failures region_env demo_abspath array_config demo_repr demo_args
           root_world demo_api eq_refl eq_refl eq_refl).
  reflexivity.
Defined.

(** X8. In a process whose session has a region: when the gateway and
    the handler are found, the configuration is an array, every path of
    it (after [str()]) is well formed, and there is at least one path
    or the gateway already has a method with an integration, [main]
    succeeds.  The calls it issues are the three lookups, then
    calls on the gateway's resources, methods and integrations, then one
    [add_permission] (for the region of lines 128-133 and the caller's
    account) and last one [create_deployment] of the stage; the stage is
    appended to the deployments, the handler's policy holds the
    gateway's statement, and every desired path carries the six methods
    with their integration. *)
Theorem main_succeeds (env : environ) (abspath : string → string)
    (read_json : string → file)
    (py_repr : json → string) (args : arguments) (w : world) (it : rest_api)
    (arn : string) (l : list json) :
  has_region env = true →
  first_named (arg_api_name args) (w_apis w) = Some it →
  PyStr.truthy (api_id it) = true →
  w_functions w !! lambda_name args = Some arn →
  read_json (config_path abspath args) = Content (JArray l) →
  Forall (λ p, well_formed_path p = true) (py_str py_repr <$> l) →
  l ≠ [] ∨ deployable w →
  let run := main env abspath read_json py_repr args in
  (run w).1 = Ok tt
  ∧ (∃ cs, issued run w
           = [GetCallerIdentity; GetRestApis; GetFunction (lambda_name args)]
             ++ cs
             ++ [grant_call arn (api_id it) (w_account w) (grant_region env);
                 CreateDeployment (api_id it) (arg_stage args)]
           ∧ Forall (λ c, gateway_call c = true) cs)
  ∧ w_deployments (run w).2 = w_deployments w ++ [arg_stage args]
  ∧ is_Some (w_policy (run w).2 !! (arn, statement_id (api_id it) arn))
  ∧ ∀ p, p ∈ py_str py_repr <$> l →
      ∃ rid, tree_index (run w).2 !! p = Some rid
             ∧ ∀ m, m ∈ METHODS →
                 ∃ auth, w_methods (run w).2 !! (rid, m)
                         = Some (Method auth
                                   (Some (Integration "AWS_PROXY" "POST"
                                            (invocation_uri env arn)))).
Proof.
  intros Hreg Hit Ht Hfn Hcfg Hwf Hany. cbv zeta.
  pose proof (reconcile_ok env (api_id it) arn _ (preflight args w) Hwf) as Hok.
  assert (deployable
            (reconcile env (api_id it) arn (py_str py_repr <$> l) (preflight args w)).2)
    as Hdep.
  { apply reconcile_deployable; [done|]. destruct Hany as [Hl|Hd]; [left|by right].
    by destruct l. }
  destruct (main_success_form env abspath read_json py_repr args w it arn l
              Hreg Hit Ht Hfn Hcfg Hok Hdep)
    as (news & ms & cs & pol & Hrun & Hrec & Hk & Hpol & _).
  pose proof (reconcile_covered env (api_id it) arn _ (preflight args w) Hok) as Hcov.
  rewrite Hrec in Hcov.
  assert (issued (main env abspath read_json py_repr args) w
          = [GetCallerIdentity; GetRestApis; GetFunction (lambda_name args)]
            ++ cs
            ++ [grant_call arn (api_id it) (w_account w) (grant_region env);
                CreateDeployment (api_id it) (arg_stage args)]) as Hiss.
  { unfold issued. rewrite Hrun. simpl. by rewrite drop_app_length. }
  rewrite Hiss, Hrun. cbn [fst snd]. split_and!; try done; [by exists cs|].
  intros p Hp. destruct (Hcov p Hp) as (rid & Hrid & Hall).
  exists rid. split; [exact Hrid|]. intros m Hm.
  destruct (Hall m Hm) as [a Ha]. exists a.
  rewrite (upper_of_METHODS m Hm) in Ha. exact Ha.
Qed.

Lemma main_succeeds_witness :
  has_region region_env = true
  ∧ first_named (arg_api_name demo_args) (w_apis demo_world) = Some demo_api
  ∧ PyStr.truthy (api_id demo_api) = true
  ∧ w_functions demo_world !! lambda_name demo_args = Some demo_arn
  ∧ array_config (config_path demo_abspath demo_args)
    = Content (JArray [JString "/orders"; JString "/orders/{id}"])
  ∧ Forall (λ p, well_formed_path p = true)
      (py_str demo_repr <$> [JString "/orders"; JString "/orders/{id}"])
  ∧ (main region_env demo_abspath array_config demo_repr demo_args demo_world).1 = Ok tt.
Proof.
  assert (w_functions demo_world !! lambda_name demo_args = Some demo_arn) as Hfn
    by (vm_compute; reflexivity).
  assert (Forall (λ p, well_formed_path p = true)
            (py_str demo_repr <$> [JString "/orders"; JString "/orders/{id}"])) as Hwf
    by (repeat constructor).
  split_and!; [reflexivity|reflexivity|reflexivity|exact Hfn|reflexivity|exact Hwf|].
  apply (main_succeeds region_env demo_abspath array_config demo_repr demo_args
           demo_world demo_api demo_arn [JString "/orders"; JString "/orders/{id}"]
           eq_refl eq_refl eq_refl Hfn eq_refl Hwf).
  by left.
Defined.

(** X9. In a process whose session has a region, with the gateway and
    the handler found and an array in the configuration: when the loop
    over the paths raises, [main] raises the same
    exception and stops there: the world is the one the loop left (what
    was created stays), the calls issued are the three lookups followed
    by gateway calls only, no permission is granted and no deployment is
    created. *)
Theorem main_reconcile_failure (env : environ) (abspath : string → string)
    (read_json : string → file)
    (py_repr : json → string) (args : arguments) (w : world) (it : rest_api)
    (arn : string) (l : list json) (e : exn) :
  has_region env = true →
  first_named (arg_api_name args) (w_apis w) = Some it →
  PyStr.truthy (api_id it) = true →
  w_functions w !! lambda_name args = Some arn →
  read_json (config_path abspath args) = Content (JArray l) →
  (reconcile env (api_id it) arn (py_str py_repr <$> l) (preflight args w)).1 = Raise e →
  let run := main env abspath read_json py_repr args in
  run w = (Raise e,
           (reconcile env (api_id it) arn (py_str py_repr <$> l) (preflight args w)).2)
  ∧ (∃ cs, issued run w
           = [GetCallerIdentity; GetRestApis; GetFunction (lambda_name args)] ++ cs
           ∧ Forall (λ c, gateway_call c = true) cs)
  ∧ w_policy (run w).2 = w_policy w
  ∧ w_deployments (run w).2 = w_deployments w.
Proof.
  intros Hreg Hit Ht Hfn Hcfg Hfail. cbv zeta.
  rewrite (main_found env abspath read_json py_repr args w it Hreg Hit Ht), Hfn, Hcfg.
  destruct (reconcile_effect env (api_id it) arn (py_str py_repr <$> l) (preflight args w))
    as (news & ms & cs & Hw4 & Hk & _). cbv zeta in Hw4.
  destruct (reconcile _ _ _ _ _) as [[[]|e'] w4] eqn:Hrec; cbn [fst snd] in *; [done|].
  injection Hfail as ->. subst w4. split_and!; try done.
  exists cs. split; [|done].
  unfold issued.
  rewrite (main_found env abspath read_json py_repr args w it Hreg Hit Ht), Hfn, Hcfg, Hrec.
  cbn. rewrite <- !app_assoc. by rewrite drop_app_length.
Qed.

Lemma main_reconcile_failure_witness :
  has_region region_env = true
  ∧ first_named (arg_api_name demo_args) (w_apis demo_world) = Some demo_api
  ∧ PyStr.truthy (api_id demo_api) = true
  ∧ w_functions demo_world !! lambda_name demo_args = Some demo_arn
  ∧ mixed_config (config_path demo_abspath demo_args) = Content (JArray [JString "/orders"; JNumber 5])
  ∧ (reconcile region_env (api_id demo_api) demo_arn
       (py_str demo_repr <$> [JString "/orders"; JNumber 5])
       (preflight demo_args demo_world)).1 = Raise (KeyError "5")
  ∧ w_deployments (main region_env demo_abspath mixed_config demo_repr demo_args demo_world).2
    = w_deployments demo_world.
Proof.
  assert (w_functions demo_world !! lambda_name demo_args = Some demo_arn) as Hfn
    by (vm_compute; reflexivity).
  assert ((reconcile region_env (api_id demo_api) demo_arn
             (py_str demo_repr <$> [JString "/orders"; JNumber 5])
             (preflight demo_args demo_world)).1 = Raise (KeyError "5")) as Hrec
    by (vm_compute; reflexivity).
  split_and!; [reflexivity|reflexivity|reflexivity|exact Hfn|reflexivity|exact Hrec|].
  apply (main_reconcile_failure region_env demo_abspath mixed_config demo_repr demo_args
           demo_world demo_api demo_arn [JString "/orders"; JNumber 5] (KeyError "5")
           eq_refl eq_refl eq_refl Hfn eq_refl Hrec).
Defined.

Section Rerun.

Context (env : environ) (api arn : string).

Lemma settled_same_gateway (p : string) r (w w' : world) :
  same_gateway w w' → settled env arn p r w → settled env arn p r w'.
Proof.
  intros [Ht Hm]. assert (tree_index w = tree_index w') as Hi.
  { unfold tree_index. by rewrite Ht. }
  destruct r as [[]|e]; simpl; unfold reconciled, stuck, has_target; by rewrite Hi, ?Hm.
Qed.

(** A finished run can be replayed from any world whose gateway is in
    the state the run left. *)
Lemma reconcile_replay_gateway (ps : list string) : ∀ w w2 : world,
  same_gateway (reconcile env api arn ps w).2 w2 →
  ∃ cs, reconcile env api arn ps w2 = ((reconcile env api arn ps w).1, logged cs w2)
        ∧ quiet cs.
Proof.
  induction ps as [|p ps IH]; intros w w2 Hs.
  - exists []. rewrite logged_nil. split; [done|constructor].
  - rewrite (reconcile_cons env api arn p ps w) in *.
    destruct (round_settles env api arn p w) as [_ Hset].
    destruct (round env api arn p w) as [[[]|e] wa] eqn:Hround; cbn [fst snd] in *.
    + assert (settled env arn p (Ok tt) w2) as Hset2.
      { eapply settled_same_gateway; [exact Hs|]. cbn [settled] in *.
        eapply reconciled_progress; [exact Hset|].
        apply (reconcile_replay env api arn ps wa). }
      destruct (round_replay env api arn p (Ok tt) w2 Hset2) as (cs & Hr & Hq).
      rewrite reconcile_cons, Hr.
      destruct (IH wa (logged cs w2)) as (cs' & Hr' & Hq').
      { destruct Hs as [Ht Hm]. by split. }
      rewrite Hr', logged_logged. eexists. split; [done|by apply quiet_app].
    + destruct (round_replay env api arn p (Raise e) w2) as (cs & Hr & Hq).
      { by eapply settled_same_gateway. }
      rewrite reconcile_cons, Hr. by exists cs.
Qed.

End Rerun.

Section RerunMain.

Context (env : environ) (abspath : string → string)
    (read_json : string → file) (py_repr : json → string).

Lemma main_ok_inv (args : arguments) (w : world) :
  (main env abspath read_json py_repr args w).1 = Ok tt →
  has_region env = true
  ∧ ∃ it arn l,
      first_named (arg_api_name args) (w_apis w) = Some it
      ∧ PyStr.truthy (api_id it) = true
      ∧ w_functions w !! lambda_name args = Some arn
      ∧ read_json (config_path abspath args) = Content (JArray l)
      ∧ (reconcile env (api_id it) arn (py_str py_repr <$> l) (preflight args w)).1
        = Ok tt
      ∧ deployable
          (reconcile env (api_id it) arn (py_str py_repr <$> l) (preflight args w)).2.
Proof.
  intros Hok.
  destruct (has_region env) eqn:Hreg.
  2: { destruct (clients_fail env Hreg) as [e He].
       by rewrite (main_no_client env abspath read_json py_repr args w e He) in Hok. }
  split; [done|].
  destruct (first_named (arg_api_name args) (w_apis w)) as [it|] eqn:Hit.
  2: { rewrite main_not_found in Hok; [done|done|]. intros it. by rewrite Hit. }
  destruct (PyStr.truthy (api_id it)) eqn:Ht.
  2: { rewrite main_not_found in Hok; [done|done|]. intros it' Hit'.
       rewrite Hit in Hit'. injection Hit' as <-. by destruct (api_id it). }
  rewrite (main_found env abspath read_json py_repr args w it Hreg Hit Ht) in Hok.
  destruct (w_functions w !! lambda_name args) as [arn|] eqn:Hfn; [|done].
  destruct (read_json (config_path abspath args)) as [| |[| | | |l|]] eqn:Hcfg;
    try done.
  exists it, arn, l.
  destruct (reconcile _ _ _ _ _) as [[[]|e] w4]; [|done].
  split_and!; try done. cbn [snd].
  destruct (add_permission_for_apigw _ _ _ _ w4) as [[[]|e] w5] eqn:Hgrant; [|done].
  assert (w_methods w5 = w_methods w4) as Hms.
  { rewrite grant_spec in Hgrant. cbv zeta in Hgrant.
    destruct (negb _); [by simplify_eq|].
    destruct (w_policy w4 !! _); by simplify_eq. }
  destruct (create_deployment_cases (api_id it) (arg_stage args) w5)
    as [(k & a & i & Hk)|[e He]].
  - exists k, a, i. by rewrite <- Hms.
  - unfold deploy_stage in Hok. by rewrite He in Hok.
Qed.

End RerunMain.

(** X10. After a run of [main] that succeeded, a second run with the
    same arguments, environment and files succeeds as well; it leaves
    the resources, the methods and the policy as they are, issues no
    [create_resource] and no [put_method], and appends the stage to the
    deployments once more: two runs leave two deployments. *)
Theorem main_rerun (env : environ) (abspath : string → string)
    (read_json : string → file) (py_repr : json → string)
    (args : arguments) (w : world) :
  let run := main env abspath read_json py_repr args in
  (run w).1 = Ok tt →
  let w1 := (run w).2 in
  (run w1).1 = Ok tt
  ∧ w_resources (run w1).2 = w_resources w1
  ∧ w_methods (run w1).2 = w_methods w1
  ∧ w_policy (run w1).2 = w_policy w1
  ∧ w_deployments w1 = w_deployments w ++ [arg_stage args]
  ∧ w_deployments (run w1).2 = w_deployments w ++ [arg_stage args; arg_stage args]
  ∧ quiet (issued run w1).
Proof.
  intros run Hok w1.
  destruct (main_ok_inv env abspath read_json py_repr args w Hok)
    as (Hreg & it & arn & l & Hit & Ht & Hfn & Hcfg & Hrec & Hdep).
  destruct (main_success_form env abspath read_json py_repr args w it arn l
              Hreg Hit Ht Hfn Hcfg Hrec Hdep)
    as (news & ms & cs & pol & Hrun & Hw4 & Hgw & Hpol & _ & _).
  assert (same_gateway
            (reconcile env (api_id it) arn (py_str py_repr <$> l) (preflight args w)).2
            (preflight args w1)) as Hsame.
  { rewrite Hw4. subst w1 run. rewrite Hrun. by split. }
  destruct (reconcile_replay_gateway env (api_id it) arn _ _ _ Hsame) as (cs2 & Hrep & Hq).
  rewrite Hrec in Hrep.
  assert (w_apis w1 = w_apis w ∧ w_functions w1 = w_functions w
          ∧ w_account w1 = w_account w ∧ w_policy w1 = pol
          ∧ w_deployments w1 = w_deployments w ++ [arg_stage args]
          ∧ w_resources w1 = w_resources w ++ news ∧ w_methods w1 = ms) as Hw1.
  { subst w1 run. rewrite Hrun. by split_and!. }
  destruct Hw1 as (Ha & Hf & Hacc & Hp & Hd & Hr & Hm).
  assert (first_named (arg_api_name args) (w_apis w1) = Some it) as Hit1 by by rewrite Ha.
  assert (w_functions w1 !! lambda_name args = Some arn) as Hfn1 by by rewrite Hf.
  assert ((reconcile env (api_id it) arn (py_str py_repr <$> l) (preflight args w1)).1
          = Ok tt) as Hrec1 by by rewrite Hrep.
  assert (deployable
            (reconcile env (api_id it) arn (py_str py_repr <$> l) (preflight args w1)).2)
    as Hdep1.
  { rewrite Hrep. cbn [snd]. rewrite Hw4 in Hdep.
    destruct Hdep as (k & a & i & Hk). exists k, a, i. cbn in Hk |- *. by rewrite Hm. }
  destruct (main_success_form env abspath read_json py_repr args w1 it arn l
              Hreg Hit1 Ht Hfn1 Hcfg Hrec1 Hdep1)
    as (news' & ms' & cs' & pol' & Hrun' & Hw4' & Hgw' & _ & _ & Hkeep).
  rewrite Hrep in Hw4'. cbn [snd] in Hw4'.
  assert (news' = [] ∧ ms' = w_methods w1 ∧ cs' = cs2) as (-> & -> & ->).
  { split_and!.
    - apply (f_equal w_resources) in Hw4'. cbn in Hw4'.
      apply (app_inv_head (w_resources w1)). by rewrite app_nil_r.
    - by apply (f_equal w_methods) in Hw4'.
    - apply (f_equal w_calls) in Hw4'. cbn in Hw4'. by apply app_inv_head in Hw4'. }
  assert (pol' = w_policy w1) as ->.
  { destruct Hpol as [st Hst]. apply (Hkeep st). by rewrite Hacc, Hp in *. }
  fold run in Hrun'. split_and!; try done.
  - by rewrite Hrun'.
  - rewrite Hrun'. cbn. by rewrite app_nil_r.
  - by rewrite Hrun'.
  - by rewrite Hrun'.
  - rewrite Hrun'. cbn. rewrite Hd. by rewrite <- app_assoc.
  - unfold issued. rewrite Hrun'. cbn. rewrite drop_app_length.
    repeat (apply Forall_cons; split; [done|]).
    apply Forall_app. split; [exact Hq|].
    repeat (apply Forall_cons; split; [done|]). constructor.
Qed.

Lemma main_rerun_witness :
  (main region_env demo_abspath array_config demo_repr demo_args demo_world).1 = Ok tt
  ∧ w_deployments
      (main region_env demo_abspath array_config demo_repr demo_args
         (main region_env demo_abspath array_config demo_repr demo_args demo_world).2).2
    = w_deployments demo_world ++ ["prod"; "prod"].
Proof.
  assert ((main region_env demo_abspath array_config demo_repr demo_args demo_world).1 = Ok tt) as H
    by (vm_compute; reflexivity).
  split; [exact H|].
  apply (main_rerun region_env demo_abspath array_config demo_repr demo_args demo_world H).
Defined.


(** X12. [main] needs a region for its session.  Without one it raises
    [NoRegionError] at line 124 before any call; with one no client can
    be built for (the empty name, or no host label) it stops there as
    well; nothing is changed.  In every run that gets past line 126 the
    region put into the source ARN of the permission (lines 128-133)
    and the region substituted into the invocation URIs (lines 57-59)
    are both the region of the session: [AWS_REGION],
    [AWS_DEFAULT_REGION], the region of the STS client and the default
    [us-east-1] are never used. *)
Theorem main_needs_session_region (env : environ) (abspath : string → string)
    (read_json : string → file) (py_repr : json → string) (args : arguments)
    (w : world) :
  let run := main env abspath read_json py_repr args in
  (session_region_name env = None → run w = (Raise NoRegionError, w))
  ∧ (has_region env = false → ∃ e, run w = (Raise e, w) ∧ issued run w = [])
  ∧ ((run w).1 = Ok tt → has_region env = true)
  ∧ (has_region env = true →
     ∃ r, session_region_name env = Some r
          ∧ grant_region env = r
          ∧ resolve_region env = r
          ∧ ∀ arn, invocation_uri env arn
                   = PyStr.replace "${AWS_REGION}" r
                       ("arn:aws:apigateway:${AWS_REGION}:lambda:path/2015-03-31/functions/"
                        +:+ arn +:+ "/invocations")).
Proof.
  cbv zeta. split_and!.
  - intros Hnone. apply main_no_client. unfold Boto3.outcome. by rewrite Hnone.
  - intros Hreg. destruct (clients_fail env Hreg) as [e He]. exists e.
    pose proof (main_no_client env abspath read_json py_repr args w e He) as Hrun.
    split; [done|]. unfold issued. rewrite Hrun. cbn [snd]. by rewrite drop_all.
  - intros Hok. destruct (has_region env) eqn:Hreg; [done|].
    destruct (clients_fail env Hreg) as [e He].
    by rewrite (main_no_client env abspath read_json py_repr args w e He) in Hok.
  - unfold has_region, grant_region, invocation_uri, resolve_region.
    destruct (session_region_name env) as [r|]; [|done].
    intros [_ Ht]%andb_true_iff. exists r. by destruct r.
Qed.

(** X17. With an empty list of paths on a gateway without methods,
    [main] grants the permission and is then refused the deployment:
    it raises [BadRequestException] after the three lookups, the
    [add_permission] and the [create_deployment], the policy of the
    handler holds the statement of the gateway, and no deployment is
    added. *)
Theorem main_nothing_to_deploy (env : environ) (abspath : string → string)
    (read_json : string → file) (py_repr : json → string) (args : arguments)
    (w : world) (it : rest_api) (arn : string) :
  has_region env = true →
  first_named (arg_api_name args) (w_apis w) = Some it →
  PyStr.truthy (api_id it) = true →
  w_functions w !! lambda_name args = Some arn →
  read_json (config_path abspath args) = Content (JArray []) →
  w_methods w = ∅ →
  let run := main env abspath read_json py_repr args in
  (run w).1 = Raise BadRequestException
  ∧ issued run w
    = [GetCallerIdentity; GetRestApis; GetFunction (lambda_name args);
       grant_call arn (api_id it) (w_account w) (grant_region env);
       CreateDeployment (api_id it) (arg_stage args)]
  ∧ is_Some (w_policy (run w).2 !! (arn, statement_id (api_id it) arn))
  ∧ w_deployments (run w).2 = w_deployments w
  ∧ Gateway.tree (run w).2 = Gateway.tree w
  ∧ w_methods (run w).2 = w_methods w.
Proof.
  intros Hreg Hit Ht Hfn Hcfg Hempty. cbv zeta.
  pose proof (main_found env abspath read_json py_repr args w it Hreg Hit Ht) as Hrun.
  rewrite Hfn, Hcfg in Hrun. cbn [fmap list_fmap reconcile for_each ret] in Hrun.
  rewrite grant_spec in Hrun. cbv zeta in Hrun.
  rewrite (known_frame arn w) in Hrun by done.
  rewrite (known_of_lookup _ _ _ Hfn) in Hrun. cbn [negb] in Hrun.
  change (w_policy (preflight args w)) with (w_policy w) in Hrun.
  unfold deploy_stage in Hrun.
  destruct (w_policy w !! (arn, statement_id (api_id it) arn)) as [st|] eqn:Epol;
    rewrite create_deployment_empty in Hrun by done;
    unfold issued; rewrite Hrun; cbn; rewrite ?Epol, ?lookup_insert_eq;
    (split_and!; try done; by rewrite <- !app_assoc, drop_app_length).
Qed.

Lemma main_nothing_to_deploy_witness :
  has_region region_env = true
  ∧ first_named (arg_api_name demo_args) (w_apis demo_world) = Some demo_api
  ∧ PyStr.truthy (api_id demo_api) = true
  ∧ w_functions demo_world !! lambda_name demo_args = Some demo_arn
  ∧ empty_config (config_path demo_abspath demo_args) = Content (JArray [])
  ∧ w_methods demo_world = ∅
  ∧ (main region_env demo_abspath empty_config demo_repr demo_args demo_world).1
    = Raise BadRequestException.
Proof.
  assert (w_functions demo_world !! lambda_name demo_args = Some demo_arn) as Hfn
    by (vm_compute; reflexivity).
  split_and!; [reflexivity|reflexivity|reflexivity|exact Hfn|reflexivity|reflexivity|].
  apply (main_nothing_to_deploy region_env demo_abspath empty_config demo_repr demo_args
           demo_world demo_api demo_arn eq_refl eq_refl eq_refl Hfn eq_refl eq_refl).
Defined.

Section Stops.

Context (env : environ) (api arn : string).

Lemma reconcile_app (ps1 ps2 : list string) : ∀ w : world,
  reconcile env api arn (ps1 ++ ps2) w =
  match reconcile env api arn ps1 w with
  | (Ok _, w') => reconcile env api arn ps2 w'
  | (Raise e, w') => (Raise e, w')
  end.
Proof.
  induction ps1 as [|p ps1 IH]; intros w; [done|].
  rewrite <- app_comm_cons, !reconcile_cons.
  destruct (round env api arn p w) as [[[]|e] w1]; [apply IH|done].
Qed.

(** A path that is not well formed stays unlisted: the nodes a run
    creates all have well-formed paths. *)
Lemma reconcile_keeps_unlisted (ps : list string) (p : string) (w : world) :
  well_formed_path p = false →
  tree_index w !! p = None →
  tree_index (reconcile env api arn ps w).2 !! p = None.
Proof.
  intros Hwf E.
  destruct (reconcile_effect env api arn ps w)
    as (news & ms & cs & Hw' & _ & Hnews & _). cbv zeta in *.
  rewrite Hw', tree_index_evolve. apply index_lookup_None.
  rewrite fmap_app. intros [Hin|Hin]%elem_of_app.
  - by apply index_lookup_None in E.
  - apply list_elem_of_fmap in Hin as (r & -> & Hr).
    rewrite Forall_forall in Hnews. destruct (Hnews r Hr) as (q & _ & Hq).
    apply list_elem_of_fmap in Hq as (x & Hx & Hin).
    apply step_path_well_formed in Hin. congruence.
Qed.

End Stops.

(** X13. When the desired paths are well-formed paths [ps] followed by
    a path [p] that is neither listed nor well formed, the loop raises
    [KeyError p] whatever follows [p]: the paths after [p] are not
    looked at (the outcome is that of the run on [ps ++ [p]]), the paths
    before [p] are fully reconciled, every partial path of [p] has been
    created and is listed, and [p] itself still is not. *)
Theorem reconcile_stops_at_bad_path (env : environ) (api arn : string)
    (ps : list string) (p : string) (rest : list string) (w : world) :
  Forall (λ q, well_formed_path q = true) ps →
  well_formed_path p = false →
  tree_index w !! p = None →
  let out := reconcile env api arn (ps ++ p :: rest) w in
  out.1 = Raise (KeyError p)
  ∧ out = reconcile env api arn (ps ++ [p]) w
  ∧ (∀ q, q ∈ ps → reconciled env arn q out.2)
  ∧ Forall (λ q, is_Some (tree_index out.2 !! q)) (partial_paths p)
  ∧ tree_index out.2 !! p = None.
Proof.
  intros Hdone Hwf E. cbv zeta.
  pose proof (reconcile_ok env api arn ps w Hdone) as Hok.
  pose proof (reconcile_covered env api arn ps w Hok) as Hcov.
  pose proof (reconcile_keeps_unlisted env api arn ps p w Hwf E) as E1.
  rewrite !reconcile_app.
  destruct (reconcile env api arn ps w) as [[[]|e] w1]; cbn [fst snd] in *; [|done].
  rewrite !reconcile_cons.
  destruct (round_settles env api arn p w1) as [Hprog Hset].
  pose proof (ensure_path_unlisted_outcome api p w1 E1) as Hout. rewrite Hwf in Hout.
  assert (round env api arn p w1 = (Raise (KeyError p), (ensure_path api p w1).2)) as Hr.
  { unfold round, bind. by destruct (ensure_path api p w1) as [[id|e] w2]; simplify_eq/=. }
  rewrite Hr in *. cbn [fst snd settled] in *. destruct Hset as [_ [Hnone Hall]].
  split_and!; try done.
  - intros q Hq. eapply reconciled_progress; [by apply Hcov|done].
  - apply Forall_forall. intros q (x & -> & Hx)%list_elem_of_fmap. by apply Hall.
Qed.

Lemma reconcile_stops_at_bad_path_witness :
  Forall (λ q, well_formed_path q = true) ["/orders"]
  ∧ well_formed_path "/orders/" = false
  ∧ tree_index root_world !! "/orders/" = None
  ∧ (reconcile demo_env "a1b2c3" demo_arn (["/orders"] ++ "/orders/" :: ["/users"])
       root_world).1
    = Raise (KeyError "/orders/").
Proof.
  assert (Forall (λ q, well_formed_path q = true) ["/orders"]) as H
    by (repeat constructor).
  assert (tree_index root_world !! "/orders/" = None) as E by (vm_compute; reflexivity).
  split_and!; [exact H|reflexivity|exact E|].
  apply (reconcile_stops_at_bad_path demo_env "a1b2c3" demo_arn ["/orders"] "/orders/"
           ["/users"] root_world H eq_refl E).
Defined.

Section Consistency.

Lemma consistent_spec (t : list resource) :
  consistent t = true
  ↔ NoDup (res_path <$> t) ∧ ∀ i r, t !! i = Some r → node_ok t i r = true.
Proof.
  unfold consistent. rewrite andb_true_iff, bool_decide_eq_true, forallb_forall.
  split; intros [Hn Hall]; (split; [done|]).
  - intros i r Hr. apply (Hall (i, r)). apply list_elem_of_In.
    apply elem_of_lookup_imap. by exists i, r.
  - intros [i r] Hin%list_elem_of_In.
    apply elem_of_lookup_imap in Hin as (j & y & [= -> ->] & Hy). by apply Hall.
Qed.

Lemma node_ok_app (t news : list resource) (i : nat) (r : resource) :
  node_ok t i r = true → node_ok (t ++ news) i r = true.
Proof.
  unfold node_ok. destruct (res_parent r) as [pid|]; [|done].
  rewrite !andb_true_iff, !bool_decide_eq_true.
  intros [Hrest Hp]. split; [done|].
  destruct (t !! pid) as [pr|] eqn:E; [|done].
  by rewrite (lookup_app_l_Some _ _ _ _ E).
Qed.

Lemma consistent_snoc (t : list resource) (pid : nat) (pr : resource) (part : string) :
  consistent t = true → t !! pid = Some pr → segment_ok part →
  Gateway.child_path (res_path pr) part ∉ res_path <$> t →
  consistent (t ++ [Resource (Gateway.child_path (res_path pr) part) part (Some pid)]) = true.
Proof.
  rewrite !consistent_spec. intros [Hn Hall] Hpr [Ht Hs] Hfree. split.
  - rewrite fmap_app. apply NoDup_app. split_and!; [done| |apply NoDup_singleton].
    intros p Hp ->%list_elem_of_singleton. done.
  - intros i r [Hr|[Hi Hr]]%lookup_app_Some.
    + apply node_ok_app. by apply Hall.
    + apply list_lookup_singleton_Some in Hr as [Hi' <-].
      unfold node_ok. cbn [res_parent res_part res_path].
      rewrite Ht, Hs, (lookup_app_l_Some _ _ _ _ Hpr). cbn.
      rewrite bool_decide_eq_true_2; [by rewrite bool_decide_eq_true_2|].
      apply lookup_lt_Some in Hpr. lia.
Qed.

Lemma create_resource_consistent (api : string) (pid : option nat) (part : string)
    (w : world) :
  segment_ok part → consistent (Gateway.tree w) = true →
  consistent (Gateway.tree (Gateway.create_resource api pid part w).2) = true.
Proof.
  intros Hpart Hc. unfold Gateway.create_resource.
  change (Gateway.tree (log _ w)) with (Gateway.tree w).
  destruct pid as [pid|]; [|done].
  destruct (Gateway.tree w !! pid) as [pr|] eqn:Hpr; [|done].
  destruct (Gateway.has_path _ _) eqn:Hp; [done|].
  apply (consistent_snoc _ pid pr part Hc Hpr Hpart).
  by apply bool_decide_eq_false in Hp.
Qed.

Lemma ensure_segments_consistent (api : string) (segs : list string) :
  ∀ (st : locals) (w : world),
    Forall segment_ok segs → consistent (Gateway.tree w) = true →
    consistent (Gateway.tree (ensure_segments api segs st w).2) = true.
Proof.
  induction segs as [|seg segs IH]; intros st w Hsegs Hc; [done|].
  apply Forall_cons in Hsegs as [Hseg Hsegs]. rewrite ensure_segments_cons. cbv zeta.
  destruct (resources st !! _); [by apply IH|].
  pose proof (create_resource_consistent api (parent_id st) seg w Hseg Hc) as Hc'.
  destruct (Gateway.create_resource api (parent_id st) seg w) as [[it|e] w1];
    [by apply IH|done].
Qed.

Lemma ensure_path_consistent (api P : string) (w : world) :
  consistent (Gateway.tree w) = true →
  consistent (Gateway.tree (ensure_path api P w).2) = true.
Proof.
  intros Hc. rewrite ensure_path_unfold.
  destruct (tree_index w !! P); [done|].
  pose proof (ensure_segments_consistent api (segments P)
                (Locals (tree_index w !! "/") EmptyString (tree_index w))
                (log (GetResources api) w) (segments_ok P) Hc) as Hc'.
  destruct (ensure_segments _ _ _ _) as [[st|e] w1]; [|done].
  by destruct (resources st !! P).
Qed.

Lemma split_char_sep (c : ascii) (a b : string) :
  PyStr.split_char c (a +:+ String c b) = PyStr.split_char c a ++ PyStr.split_char c b.
Proof.
  induction a as [|x a IH].
  - rewrite app_empty_l. simpl. by rewrite Ascii.eqb_refl.
  - rewrite app_cons. simpl. destruct (Ascii.eqb x c); [by rewrite IH|].
    rewrite IH. pose proof (split_char_nonempty c a).
    by destruct (PyStr.split_char c a).
Qed.

Lemma split_char_no_slash (s : string) :
  no_slash s = true → PyStr.split_char "/" s = [s].
Proof.
  intros H. pose proof (split_char_app s EmptyString H) as Hs.
  simpl in Hs. by rewrite !app_empty_r in Hs.
Qed.

Lemma segments_child (pp part : string) :
  segment_ok part →
  segments (Gateway.child_path pp part) = segments pp ++ [part].
Proof.
  intros [Ht Hs]. unfold Gateway.child_path, segments.
  destruct (decide (pp = "/")) as [->|Hne].
  - rewrite app_cons, app_empty_l. simpl.
    rewrite (split_char_no_slash part Hs).
    rewrite filter_cons_False by done. by rewrite filter_cons_True.
  - change ("/" +:+ part) with (String "/" part).
    rewrite split_char_sep, filter_app, (split_char_no_slash part Hs).
    by rewrite (filter_cons_True _ part).
Qed.

(** In a consistent tree the chain of a node spells the segments of its
    path. *)
Lemma chain_segments (t : list resource) :
  consistent t = true →
  ∀ fuel i r, t !! i = Some r → i < fuel → chain fuel t i = segments (res_path r).
Proof.
  intros [_ Hall]%consistent_spec.
  induction fuel as [|fuel IH]; intros i r Hr Hi; [lia|].
  simpl. rewrite Hr. pose proof (Hall i r Hr) as Hok. unfold node_ok in Hok.
  destruct (res_parent r) as [pid|].
  - rewrite !andb_true_iff, !bool_decide_eq_true in Hok.
    destruct Hok as [[[Hlt Ht] Hs] Hp].
    destruct (t !! pid) as [pr|] eqn:Hpr; [|done]. injection Hp as Hp.
    rewrite (IH pid pr Hpr) by lia. rewrite <- Hp. by rewrite segments_child.
  - apply bool_decide_eq_true in Hok. by rewrite Hok.
Qed.

End Consistency.

(** X14. On a consistent tree (unique paths; every node after its
    parent, with a non-empty part without [/], and with the path of its
    parent extended by its part), [ensure_path] leaves a consistent
    tree, and when it returns an id, the resource of that id has the
    path [P] and following its parent references up to the root spells
    the segments of [P]. *)
Theorem ensure_path_ancestor_chain (api P : string) (w : world) :
  consistent (Gateway.tree w) = true →
  let out := ensure_path api P w in
  consistent (Gateway.tree out.2) = true
  ∧ ∀ id, out.1 = Ok id →
      ∃ r, Gateway.tree out.2 !! id = Some r
           ∧ res_path r = P
           ∧ chain (length (Gateway.tree out.2)) (Gateway.tree out.2) id = segments P.
Proof.
  intros Hc. cbv zeta.
  pose proof (ensure_path_consistent api P w Hc) as Hc'. split; [done|].
  intros id Hid.
  assert (tree_index (ensure_path api P w).2 !! P = Some id) as Hlk.
  { destruct (tree_index w !! P) as [id'|] eqn:E.
    - rewrite (ensure_path_present api P w id' E) in *. cbn [fst snd] in *.
      by injection Hid as <-.
    - destruct (ensure_path_absent api P w E)
        as (news & w' & Hw' & Hnews & Hrun & Hsub & Hpre). cbv zeta in *.
      rewrite Hrun in *. cbn [fst snd] in *.
      by destruct (tree_index w' !! P) as [id'|]; simplify_eq. }
  destruct (index_lookup_Some _ _ _ Hlk) as (r & Hr & Hrp).
  exists r. split_and!; [done|done|].
  rewrite (chain_segments _ Hc' _ id r Hr); [by rewrite Hrp|].
  by eapply lookup_lt_Some.
Qed.

Lemma ensure_path_ancestor_chain_witness :
  consistent (Gateway.tree demo_world) = true
  ∧ consistent (Gateway.tree (ensure_path "a1b2c3" "/orders/{id}" demo_world).2) = true.
Proof.
  assert (consistent (Gateway.tree demo_world) = true) as H by (vm_compute; reflexivity).
  split; [exact H|].
  apply (ensure_path_ancestor_chain "a1b2c3" "/orders/{id}" demo_world H).
Defined.

Section ConsistentRuns.

Context (env : environ) (api arn : string).

Lemma round_consistent (p : string) (w : world) :
  consistent (Gateway.tree w) = true →
  consistent (Gateway.tree (round env api arn p w).2) = true.
Proof.
  intros Hc. pose proof (ensure_path_consistent api p w Hc) as H1.
  unfold round, bind. destruct (ensure_path api p w) as [[rid|e] w1]; [|done].
  cbn [snd] in H1. by rewrite methods_loop_tree.
Qed.

Lemma reconcile_consistent (paths : list string) : ∀ w : world,
  consistent (Gateway.tree w) = true →
  consistent (Gateway.tree (reconcile env api arn paths w).2) = true.
Proof.
  induction paths as [|p ps IH]; intros w Hc; [done|].
  rewrite reconcile_cons.
  pose proof (round_consistent p w Hc) as H1.
  destruct (round env api arn p w) as [[[]|e] w1]; cbn [snd] in *; [by apply IH|done].
Qed.

End ConsistentRuns.

(** X15. The loop over the paths keeps a consistent tree consistent,
    whatever its outcome: paths stay unique and the chain of parent
    references of every resource spells the segments of its path; when
    the loop succeeds this holds in particular for the resource listed
    for each desired path. *)
Theorem reconcile_keeps_consistent (env : environ) (api arn : string)
    (paths : list string) (w : world) :
  consistent (Gateway.tree w) = true →
  let out := reconcile env api arn paths w in
  let t := Gateway.tree out.2 in
  consistent t = true
  ∧ NoDup (res_path <$> t)
  ∧ (∀ i r, t !! i = Some r → chain (length t) t i = segments (res_path r))
  ∧ (out.1 = Ok tt →
     ∀ p, p ∈ paths →
       ∃ id, tree_index out.2 !! p = Some id
             ∧ chain (length t) t id = segments p).
Proof.
  intros Hc. cbv zeta.
  pose proof (reconcile_consistent env api arn paths w Hc) as Hc'.
  split_and!; [done|by apply consistent_spec in Hc' as [? _]| |].
  - intros i r Hr. apply chain_segments; [done|done|]. by eapply lookup_lt_Some.
  - intros Hok p Hp.
    destruct (reconcile_covered env api arn paths w Hok p Hp) as (id & Hid & _).
    exists id. split; [done|].
    destruct (index_lookup_Some _ _ _ Hid) as (r & Hr & Hrp).
    rewrite (chain_segments _ Hc' _ id r Hr); [by rewrite Hrp|].
    by eapply lookup_lt_Some.
Qed.

Lemma reconcile_keeps_consistent_witness :
  consistent (Gateway.tree demo_world) = true
  ∧ NoDup (res_path <$>
             Gateway.tree
               (reconcile demo_env "a1b2c3" demo_arn ["/orders/{id}"; "/users"]
                  demo_world).2).
Proof.
  assert (consistent (Gateway.tree demo_world) = true) as H by (vm_compute; reflexivity).
  split; [exact H|].
  apply (reconcile_keeps_consistent demo_env "a1b2c3" demo_arn ["/orders/{id}"; "/users"]
           demo_world H).
Defined.

(** X16. [add_permission_for_apigw] succeeds exactly when the registry
    knows the function, and raises [ResourceNotFoundException] exactly
    when it does not; then the policy is unchanged.  A statement that
    already exists under the id is kept as it is, whatever its source
    ARN; otherwise the statement for the requested region, account and
    gateway is stored under the id.  Statements under other ids, and the
    gateway's tree, methods and deployments, are never touched. *)
Theorem grant_outcome (arn api acct region : string) (w : world) :
  let run := add_permission_for_apigw arn api acct region in
  let key := (arn, statement_id api arn) in
  ((run w).1 = Ok tt ↔ Lambda.known arn w = true)
  ∧ ((run w).1 = Raise ResourceNotFoundException ↔ Lambda.known arn w = false)
  ∧ (∀ st, w_policy w !! key = Some st → w_policy (run w).2 = w_policy w)
  ∧ (Lambda.known arn w = false → w_policy (run w).2 = w_policy w)
  ∧ (w_policy w !! key = None → Lambda.known arn w = true →
     w_policy (run w).2 !! key
     = Some (Statement "lambda:InvokeFunction" "apigateway.amazonaws.com"
               ("arn:aws:execute-api:" +:+ region +:+ ":" +:+ acct +:+ ":"
                +:+ api +:+ "/*/*/*")))
  ∧ (∀ k, k ≠ key → w_policy (run w).2 !! k = w_policy w !! k)
  ∧ Gateway.tree (run w).2 = Gateway.tree w
  ∧ w_methods (run w).2 = w_methods w
  ∧ w_deployments (run w).2 = w_deployments w.
Proof.
  cbv zeta. rewrite grant_spec. cbv zeta.
  destruct (Lambda.known arn w) eqn:Hk; cbn [negb fst snd];
    [destruct (w_policy w !! (arn, statement_id api arn)) as [st|] eqn:E|];
    cbn [fst snd]; split_and!; try done.
  - intros _ _. cbn. by rewrite lookup_insert_eq.
  - intros k Hne. cbn. by rewrite lookup_insert_ne.
Qed.
